(** * OCRvKing: the submission pipeline, embedded and verified

    A shallow embedding of the exam-grading assistant:
    - [types.ts]                     -> module [Types]
    - [services/pdfUtils.ts]         -> module [Pdf]       ([convertPdfToImages])
    - [services/geminiService.ts]    -> module [Gemini]    ([gradeSubmission])
    - [App.tsx]                      -> module [App]       (handlers, [startGrading])
    - [components/ResultsTable.tsx]  -> module [ResultsTable] (export)
    - the page at run time           -> modules [Ui] and [Live]

    Conventions:
    - a JavaScript string is its sequence of UTF-16 code units, a number an
      integer, and the progress figure the IEEE double the page computes;
    - the component's state is a record, a handler a state transformer
      that also records, in order, every state update and grading call it
      makes; a handler whose loop never ends returns [None];
    - what the browser, the PDF library, the model and [JSON.parse] answer
      is an argument of the function that asks;
    - in [App] and [Ui] a handler is followed from its start to its end,
      its awaited calls answering in turn: the program order of one
      handler, with nothing in between.  In [Live] a handler stops at each
      [await] and the user, the other handlers and the timers of
      [showToast] go on in any order;
    - the updates of one tick are rendered before the next tick starts. *)

From Stdlib Require Import ZArith QArith Qround Lia String Ascii DecimalString.
From Stdlib Require PrimFloat SpecFloat FloatOps Uint63.
From stdpp Require Import base tactics numbers option list sorting gmap.

Local Open Scope nat_scope.

(** ** JavaScript values *)

Module JS.

(** A JavaScript string: its UTF-16 code units. *)
Definition JSString := list N.

(** ASCII text as a JavaScript string. *)
Definition js (s : string) : JSString :=
  (fun a => N_of_ascii a) <$> list_ascii_of_string s.

(** The JavaScript [number] type, read as the integers. *)
Definition number := Z.

(** A number where the code divides: the IEEE 754 double itself. *)
Definition double := PrimFloat.float.

(** The double of a length or a count; exact below 2^53. *)
Definition double_of_nat (n : nat) : double :=
  PrimFloat.of_uint63 (Uint63.of_Z (Z.of_nat n)).

(** [Math.round]: the nearest integer, a tie going up; [None] where
    JavaScript has [NaN] or an infinity.  A finite double is
    [m * 2 ^ e] with the sign [s]. *)
Definition Math_round (x : double) : option Z :=
  match FloatOps.Prim2SF x with
  | SpecFloat.S754_zero _ => Some 0%Z
  | SpecFloat.S754_finite s m e =>
      let v := if s then Z.neg m else Z.pos m in
      Some (if (0 <=? e)%Z then v * 2 ^ e
            else (2 * v + 2 ^ (- e)) / 2 ^ (1 - e))%Z
  | SpecFloat.S754_infinity _ | SpecFloat.S754_nan => None
  end.

(** [Array.prototype.slice(start, end)] for indices [0 <= start <= end]. *)
Definition slice {A} (l : list A) (start end_ : nat) : list A :=
  take (end_ - start) (drop start l).

(** WhiteSpace and LineTerminator code points, the ones [trim] strips. *)
Definition is_whitespace (c : N) : bool :=
  ((c =? 9) || (c =? 10) || (c =? 11) || (c =? 12) || (c =? 13) || (c =? 32)
   || (c =? 160) || (c =? 5760) || ((8192 <=? c) && (c <=? 8202))
   || (c =? 8232) || (c =? 8233) || (c =? 8239) || (c =? 8287)
   || (c =? 12288) || (c =? 65279))%N.

Fixpoint trim_start (s : JSString) : JSString :=
  match s with
  | c :: s' => if is_whitespace c then trim_start s' else s
  | [] => []
  end.

(** [String.prototype.trim]. *)
Definition trim (s : JSString) : JSString :=
  reverse (trim_start (reverse (trim_start s))).

(** What a [throw] carries: an [Error] instance with its [message], or
    any other value (for instance the [ProgressEvent] a failed
    [FileReader] rejects with). *)
Inductive Thrown :=
| ErrorObj (message : JSString)
| NonError (tag : JSString).

(** The completion of an awaited call. *)
Inductive Completion (A : Type) :=
| Returned (a : A)
| Threw (e : Thrown).
Arguments Returned {A} a.
Arguments Threw {A} e.

End JS.
Import JS.

(** ** types.ts *)

Module Types.

(** The browser's [File]: a name, a MIME type and the bytes. *)
Record File := mkFile {
  file_name : JSString;
  file_type : JSString;
  file_bytes : list N
}.

Record ScoreItem := mkScoreItem {
  q_num : number;
  score : number;
  student_answer : JSString;
  reason : JSString
}.

Record GradingResult := mkGradingResult {
  student_name : JSString;
  student_class : option JSString;
  scores : list ScoreItem;
  total_score : number;
  feedback : JSString;
  hasOCRIssues : option bool
}.

Inductive Status := pending | processing | completed | error.

#[global] Instance Status_eq_dec : EqDecision Status.
Proof. solve_decision. Defined.

(** [uuidv4()] draws are modelled as successive naturals. *)
Definition uuid := nat.

Record StudentSubmission := mkSubmission {
  id : uuid;
  files : list File;
  status : Status;
  result : option GradingResult;
  errorMsg : option JSString
}.

Inductive AppStep := SETUP | UPLOAD_STUDENTS | GRADING.

Inductive GradingModel := gemini_3_flash_preview | gemini_3_pro_preview.

End Types.
Import Types.

(** ** More of JavaScript: numbers as text, joins, dynamic values *)

Module JSText.

(** [Number.prototype.toString] on an integer: decimal digits, with a
    leading minus sign below zero.  JavaScript does so below 1e21 and
    writes an exponent from there on; fractions are outside [number]. *)
Definition number_toString (z : number) : JSString :=
  js (DecimalString.NilZero.string_of_int (Z.to_int z)).

(** Does [s] start with [pat]? *)
Fixpoint starts_with (pat s : JSString) : bool :=
  match pat, s with
  | [], _ => true
  | p :: pat', c :: s' => (p =? c)%N && starts_with pat' s'
  | _ :: _, [] => false
  end.

(** [s.replace(pat, rep)] with a string pattern: the first occurrence
    only. *)
Fixpoint replace_first (pat rep s : JSString) : JSString :=
  if starts_with pat s then rep ++ drop (length pat) s
  else match s with
       | [] => []
       | c :: s' => c :: replace_first pat rep s'
       end.

(** [s.replace(/c/g, rep)] for a one-character pattern: every
    occurrence. *)
Definition replace_all_char (c : N) (rep s : JSString) : JSString :=
  s ≫= (fun x => if (x =? c)%N then rep else [x]).

(** [Array.prototype.join]. *)
Fixpoint join (sep : JSString) (l : list JSString) : JSString :=
  match l with
  | [] => []
  | [x] => x
  | x :: l' => x ++ sep ++ join sep l'
  end.

(** [String.prototype.split] with a one-character separator. *)
Fixpoint split (sep : N) (s : JSString) : list JSString :=
  match s with
  | [] => [[]]
  | c :: s' =>
      if (c =? sep)%N then [] :: split sep s'
      else match split sep s' with
           | cell :: cells => (c :: cell) :: cells
           | [] => [[c]]
           end
  end.

(** [a || b] on strings: the empty string is falsy. *)
Definition str_or (a b : JSString) : JSString :=
  match a with [] => b | _ => a end.

(** [a || b] where [a] may be [undefined]. *)
Definition opt_str_or (a : option JSString) (b : JSString) : JSString :=
  match a with Some a => str_or a b | None => b end.

End JSText.
Import JSText.

(** ** services/pdfUtils.ts *)

Module Pdf.

(** One page as the rendering library and the canvas behave on it. *)
Record PdfPage := mkPage {
  context2d : bool;                (* canvas.getContext('2d') is not null *)
  render : option Thrown;          (* page.render(...).promise rejects with *)
  toBlob : option (list N)         (* what canvas.toBlob hands over, or null *)
}.

Record PdfDocument := mkDocument {
  numPages : nat;
  getPage : nat -> Completion PdfPage
}.

(** The name given to the image of page [i]. *)
Definition page_file_name (pdfName : JSString) (i : nat) : JSString :=
  replace_first (js ".pdf") [] pdfName ++ js "_page_"
    ++ number_toString (Z.of_nat i) ++ js ".jpg".

(** The loop [for (let i = 1; i <= pdf.numPages; i++)]; [todo] counts the
    iterations left, [numPages + 1 - i]. *)
Fixpoint convert_pages (pdf : PdfDocument) (pdfName : JSString)
    (todo i : nat) (imageFiles : list File) : Completion (list File) :=
  match todo with
  | 0 => Returned imageFiles
  | S todo' =>
      match getPage pdf i with
      | Threw e => Threw e
      | Returned page =>
          if context2d page then
            match render page with
            | Some e => Threw e
            | None =>
                let imageFiles' :=
                  match toBlob page with
                  | Some blob =>
                      imageFiles ++
                        [mkFile (page_file_name pdfName i) (js "image/jpeg") blob]
                  | None => imageFiles
                  end in
                convert_pages pdf pdfName todo' (S i) imageFiles'
            end
          else Threw (ErrorObj (js "Could not create canvas context"))
      end
  end.

(** [convertPdfToImages]; [getDocument] stands for reading the file's
    bytes and the rendering library's loader. *)
Definition convertPdfToImages
    (getDocument : File -> Completion PdfDocument) (pdfFile : File)
    : Completion (list File) :=
  match getDocument pdfFile with
  | Threw e => Threw e
  | Returned pdf => convert_pages pdf (file_name pdfFile) (numPages pdf) 1 []
  end.

End Pdf.

(** ** services/geminiService.ts *)

Module Gemini.

(** What [JSON.parse] builds.  [undefined] is not among these; a property
    read yields [option JSON], with [None] for [undefined]. *)
Unset Elimination Schemes.
Inductive JSON :=
| JNull
| JBool (b : bool)
| JNum (z : number)
| JStr (s : JSString)
| JArr (items : list JSON)
| JObj (fields : list (JSString * JSON)).
Set Elimination Schemes.

Fixpoint lookup_field (key : JSString) (fields : list (JSString * JSON))
    : option JSON :=
  match fields with
  | [] => None
  | (k, v) :: fields' =>
      if bool_decide (k = key) then Some v else lookup_field key fields'
  end.

(** [rawResult.key] for the keys [gradeSubmission] reads, none of which a
    builtin prototype defines: reading from [null] throws a [TypeError],
    an object answers with its own property, any other value with
    [undefined]. *)
Definition get (rawResult : JSON) (key : JSString) : Completion (option JSON) :=
  match rawResult with
  | JNull => Threw (ErrorObj (js "TypeError"))
  | JObj fields => Returned (lookup_field key fields)
  | _ => Returned None
  end.

(** JavaScript truthiness. *)
Definition truthy (v : option JSON) : bool :=
  match v with
  | None | Some JNull => false
  | Some (JBool b) => b
  | Some (JNum z) => negb (z =? 0)%Z
  | Some (JStr s) => match s with [] => false | _ => true end
  | Some (JArr _) | Some (JObj _) => true
  end.

(** [v || d] *)
Definition or_else (v : option JSON) (d : JSON) : JSON :=
  if truthy v then default d v else d.

(** [typeof v === 'string'] *)
Definition is_string (v : option JSON) : bool :=
  match v with Some (JStr _) => true | _ => false end.

(** [v.trim() === ''], evaluated on strings only. *)
Definition is_blank (v : option JSON) : bool :=
  match v with Some (JStr s) => bool_decide (trim s = []) | _ => false end.

(** [!v || typeof v !== 'string' || v.trim() === ''] *)
Definition missing_or_empty (v : option JSON) : bool :=
  negb (truthy v) || negb (is_string v) || is_blank v.

(** The string a value that passed the check above is. *)
Definition string_of (v : option JSON) : JSString :=
  match v with Some (JStr s) => s | _ => [] end.

(** "이름 없음" *)
Definition NO_NAME : JSString := [0xc774; 0xb984; 0x20; 0xc5c6; 0xc74c]%N.
(** "반 정보 없음" *)
Definition NO_CLASS : JSString :=
  [0xbc18; 0x20; 0xc815; 0xbcf4; 0x20; 0xc5c6; 0xc74c]%N.
(** "피드백이 없습니다." *)
Definition NO_FEEDBACK : JSString :=
  [0xd53c; 0xb4dc; 0xbc31; 0xc774; 0x20; 0xc5c6; 0xc2b5; 0xb2c8; 0xb2e4; 0x2e]%N.

(** The object [gradeSubmission] returns, before the unchecked cast
    [as GradingResult]: [feedback] and the elements of [scores] are
    whatever the response held. *)
Record RawGradingResult := mkRaw {
  raw_student_name : JSString;
  raw_student_class : JSString;
  raw_total_score : number;
  raw_feedback : JSON;
  raw_scores : list JSON;
  raw_hasOCRIssues : bool
}.

Inductive Part :=
| PromptText                                   (* the grading instructions *)
| InlineData (mimeType : JSString) (data : option JSString).

Record Request := mkRequest {
  req_model : GradingModel;
  req_parts : list Part
}.

Record Response := mkResponse { text : option JSString }.

(** The capabilities the service calls. *)
Record Env := mkEnv {
  readAsDataURL : File -> Completion JSString;
  generateContent : Request -> Completion Response;
  JSON_parse : JSString -> Completion JSON
}.

Definition bind {A B} (c : Completion A) (k : A -> Completion B) : Completion B :=
  match c with
  | Returned a => k a
  | Threw e => Threw e
  end.
Notation "x <- c ;; k" := (bind c (fun x => k))
  (at level 100, c at next level, right associativity).

(** [fileToBase64]: the part of the data URL after the first comma
    ([undefined] when there is none). *)
Definition fileToBase64 (env : Env) (file : File) : Completion (option JSString) :=
  dataUrl <- readAsDataURL env file ;;
  Returned (split 44 dataUrl !! 1).

(** [Promise.all] over the pages.  It rejects with the rejection of the
    page that fails first in time; the order in time is not modelled, and
    the rejection reported here is that of the first failing page in list
    order.  Every page read rejects with the reader's event, so which
    page it was shows in no stored message. *)
Fixpoint image_parts (env : Env) (studentFiles : list File) : Completion (list Part) :=
  match studentFiles with
  | [] => Returned []
  | file :: rest =>
      data <- fileToBase64 env file ;;
      parts <- image_parts env rest ;;
      Returned (InlineData (file_type file) data :: parts)
  end.

(** Lines 33 to 120: build the request and await the model. *)
Definition ask_model (env : Env) (referenceFile : File)
    (studentFiles : list File) (modelName : GradingModel) : Completion Response :=
  referenceBase64 <- fileToBase64 env referenceFile ;;
  studentImageParts <- image_parts env studentFiles ;;
  generateContent env
    (mkRequest modelName
       (PromptText :: InlineData (file_type referenceFile) referenceBase64
          :: studentImageParts)).

(** The body of the inner [try]: parse, then fill in the defaults. *)
Definition parse_and_normalize (env : Env) (responseText : JSString)
    : Completion RawGradingResult :=
  rawResult <- JSON_parse env responseText ;;
  let hasOCRIssues := false in
  student_name <- get rawResult (js "student_name") ;;
  let '(student_name, hasOCRIssues) :=
    if missing_or_empty student_name then (NO_NAME, true)
    else (string_of student_name, hasOCRIssues) in
  student_class <- get rawResult (js "student_class") ;;
  let '(student_class, hasOCRIssues) :=
    if missing_or_empty student_class then (NO_CLASS, true)
    else (string_of student_class, hasOCRIssues) in
  total_score <- get rawResult (js "total_score") ;;
  feedback <- get rawResult (js "feedback") ;;
  scores <- get rawResult (js "scores") ;;
  Returned
    {| raw_student_name := student_name;
       raw_student_class := student_class;
       raw_total_score := match total_score with Some (JNum z) => z | _ => 0%Z end;
       raw_feedback := or_else feedback (JStr NO_FEEDBACK);
       raw_scores := match scores with Some (JArr items) => items | _ => [] end;
       raw_hasOCRIssues := hasOCRIssues |}.

(** Lines 122 to 161: what is made of the model's response. *)
Definition grade_response (env : Env) (response : Response)
    : Completion RawGradingResult :=
  match text response with
  | Some ((_ :: _) as responseText) =>
      match parse_and_normalize env responseText with
      | Returned r => Returned r
      | Threw parseError =>
          Threw (ErrorObj (js "Failed to parse grading results from model response."))
      end
  | _ => Threw (ErrorObj (js "Empty response from model"))
  end.

(** [gradeSubmission]; the outer [catch] logs and rethrows what it
    caught. *)
Definition gradeSubmission (env : Env) (referenceFile : File)
    (studentFiles : list File) (modelName : GradingModel)
    : Completion RawGradingResult :=
  match
    response <- ask_model env referenceFile studentFiles modelName ;;
    grade_response env response
  with
  | Returned r => Returned r
  | Threw err => Threw err
  end.

(** [JSON.parse] on the literal texts [null], [true] and [false], for the
    closed examples; they apply it to these texts only. *)
Definition parse_literal (s : JSString) : Completion JSON :=
  if bool_decide (s = js "null") then Returned JNull
  else if bool_decide (s = js "true") then Returned (JBool true)
  else if bool_decide (s = js "false") then Returned (JBool false)
  else Threw (ErrorObj (js "SyntaxError")).

End Gemini.

(** ** App.tsx *)

Module App.

(** The messages [showToast] is called with, by the component and, as
    [onShowToast], by the results table. *)
Inductive Toast :=
| ToastBulkPdfOnly             (* bulk mode accepts PDF files only *)
| ToastPdfDone (count : nat)   (* PDF processed, [count] students added *)
| ToastPdfFailed               (* the PDF could not be processed *)
| ToastOCRIssues               (* a name or class could not be read *)
| ToastCsvDownloaded           (* results table: the CSV file was downloaded *)
| ToastCopied                  (* results table: the rows are on the clipboard *)
| ToastCopyFailed.             (* results table: the clipboard refused *)

(** The component's [useState] cells. *)
Record State := mkState {
  currentStep : AppStep;
  referenceFile : option File;
  submissions : list StudentSubmission;
  model : GradingModel;
  isGrading : bool;
  toastMessage : option Toast;
  isProcessingPdf : bool;
  stagedFiles : list File;
  isBulkMode : bool;
  pagesPerStudent : nat;
  showDevSettings : bool
}.

Definition initial : State :=
  mkState SETUP None [] gemini_3_flash_preview false None false [] false 1 false.

(** Every state update and every grading call, in program order. *)
Inductive Event :=
| SetCurrentStep (step : AppStep)
| SetReferenceFile (file : option File)
| SetSubmissions (subs : list StudentSubmission)
| SetModel (m : GradingModel)
| SetIsGrading (b : bool)
| SetToastMessage (msg : option Toast)
| SetIsProcessingPdf (b : bool)
| SetStagedFiles (staged : list File)
| SetIsBulkMode (b : bool)
| SetPagesPerStudent (n : nat)
| SetShowDevSettings (b : bool)
| CallGradeSubmission (referenceFile : File) (files : list File) (m : GradingModel).

Record World := mkWorld {
  react : State;          (* what the next render shows *)
  next_uuid : nat;        (* the next [uuidv4()] draw *)
  trace : list Event
}.

(** Handlers: state passing, with [None] for a handler that never
    returns. *)
Definition M (A : Type) := World -> option (A * World).

Definition ret {A} (a : A) : M A := fun w => Some (a, w).
Definition bind {A B} (m : M A) (k : A -> M B) : M B :=
  fun w => match m w with
           | Some (a, w') => k a w'
           | None => None
           end.
Definition diverge {A} : M A := fun _ => None.

Declare Scope handler_scope.
Delimit Scope handler_scope with handler.
Notation "x <- m ;; k" := (bind m (fun x => k))
  (at level 100, m at next level, right associativity) : handler_scope.
Notation "m ;; k" := (bind m (fun _ => k))
  (at level 100, right associativity) : handler_scope.
Local Open Scope handler_scope.

(** What a state update does to the component's state. *)
Definition apply (e : Event) (s : State) : State :=
  match e with
  | SetCurrentStep v =>
      mkState v (referenceFile s) (submissions s) (model s) (isGrading s)
        (toastMessage s) (isProcessingPdf s) (stagedFiles s) (isBulkMode s)
        (pagesPerStudent s) (showDevSettings s)
  | SetReferenceFile v =>
      mkState (currentStep s) v (submissions s) (model s) (isGrading s)
        (toastMessage s) (isProcessingPdf s) (stagedFiles s) (isBulkMode s)
        (pagesPerStudent s) (showDevSettings s)
  | SetSubmissions v =>
      mkState (currentStep s) (referenceFile s) v (model s) (isGrading s)
        (toastMessage s) (isProcessingPdf s) (stagedFiles s) (isBulkMode s)
        (pagesPerStudent s) (showDevSettings s)
  | SetModel v =>
      mkState (currentStep s) (referenceFile s) (submissions s) v (isGrading s)
        (toastMessage s) (isProcessingPdf s) (stagedFiles s) (isBulkMode s)
        (pagesPerStudent s) (showDevSettings s)
  | SetIsGrading v =>
      mkState (currentStep s) (referenceFile s) (submissions s) (model s) v
        (toastMessage s) (isProcessingPdf s) (stagedFiles s) (isBulkMode s)
        (pagesPerStudent s) (showDevSettings s)
  | SetToastMessage v =>
      mkState (currentStep s) (referenceFile s) (submissions s) (model s)
        (isGrading s) v (isProcessingPdf s) (stagedFiles s) (isBulkMode s)
        (pagesPerStudent s) (showDevSettings s)
  | SetIsProcessingPdf v =>
      mkState (currentStep s) (referenceFile s) (submissions s) (model s)
        (isGrading s) (toastMessage s) v (stagedFiles s) (isBulkMode s)
        (pagesPerStudent s) (showDevSettings s)
  | SetStagedFiles v =>
      mkState (currentStep s) (referenceFile s) (submissions s) (model s)
        (isGrading s) (toastMessage s) (isProcessingPdf s) v (isBulkMode s)
        (pagesPerStudent s) (showDevSettings s)
  | SetIsBulkMode v =>
      mkState (currentStep s) (referenceFile s) (submissions s) (model s)
        (isGrading s) (toastMessage s) (isProcessingPdf s) (stagedFiles s) v
        (pagesPerStudent s) (showDevSettings s)
  | SetPagesPerStudent v =>
      mkState (currentStep s) (referenceFile s) (submissions s) (model s)
        (isGrading s) (toastMessage s) (isProcessingPdf s) (stagedFiles s)
        (isBulkMode s) v (showDevSettings s)
  | SetShowDevSettings v =>
      mkState (currentStep s) (referenceFile s) (submissions s) (model s)
        (isGrading s) (toastMessage s) (isProcessingPdf s) (stagedFiles s)
        (isBulkMode s) (pagesPerStudent s) v
  | CallGradeSubmission _ _ _ => s
  end.

(** Do [e] and record it. *)
Definition emit (e : Event) : M unit :=
  fun w => Some (tt, mkWorld (apply e (react w)) (next_uuid w) (trace w ++ [e])).

Definition setCurrentStep (v : AppStep) : M unit := emit (SetCurrentStep v).
Definition setReferenceFile (v : option File) : M unit := emit (SetReferenceFile v).
Definition setSubmissions (v : list StudentSubmission) : M unit :=
  emit (SetSubmissions v).
Definition setModel (v : GradingModel) : M unit := emit (SetModel v).
Definition setIsGrading (v : bool) : M unit := emit (SetIsGrading v).
Definition setToastMessage (v : option Toast) : M unit := emit (SetToastMessage v).
Definition setIsProcessingPdf (v : bool) : M unit := emit (SetIsProcessingPdf v).
Definition setStagedFiles (v : list File) : M unit := emit (SetStagedFiles v).
Definition setIsBulkMode (v : bool) : M unit := emit (SetIsBulkMode v).
Definition setPagesPerStudent (v : nat) : M unit := emit (SetPagesPerStudent v).
Definition setShowDevSettings (v : bool) : M unit := emit (SetShowDevSettings v).

(** The state the handler's closure was created over. *)
Definition rendered : M State := fun w => Some (react w, w).

Definition uuidv4 : M uuid :=
  fun w => Some (next_uuid w, mkWorld (react w) (S (next_uuid w)) (trace w)).

(** [showToast] inside one handler: the message goes up.  The timer that
    takes it down six seconds later runs in a tick of its own and is
    [Live.showToast]'s. *)
Definition showToast (msg : Toast) : M unit := setToastMessage (Some msg).

(** [{ ...s, status }], [{ ...s, result }], [{ ...s, errorMsg }] *)
Definition with_status (v : Status) (s : StudentSubmission) : StudentSubmission :=
  mkSubmission (id s) (files s) v (result s) (errorMsg s).
Definition with_result (v : GradingResult) (s : StudentSubmission) : StudentSubmission :=
  mkSubmission (id s) (files s) (status s) (Some v) (errorMsg s).
Definition with_errorMsg (v : JSString) (s : StudentSubmission) : StudentSubmission :=
  mkSubmission (id s) (files s) (status s) (result s) (Some v).

Definition handleReferenceSelect (files : option (list File)) : M unit :=
  match files with
  | None => ret tt
  | Some files =>
      match files !! 0 with
      | Some file => setReferenceFile (Some file)
      | None => ret tt
      end
  end.

(** Lines 83 to 93: the split of the page images into students.  The
    loop is [for (let i = 0; i < images.length; i += pagesPerStudent)];
    it runs for as long as [fuel] lasts. *)
Fixpoint split_students (fuel : nat) (images : list File) (pagesPerStudent : nat)
    (i : nat) (newSubmissions : list StudentSubmission)
    : M (list StudentSubmission) :=
  if decide (i < length images) then
    match fuel with
    | 0 => diverge
    | S fuel' =>
        let studentImages := slice images i (i + pagesPerStudent) in
        newSubmissions <-
          (if decide (0 < length studentImages) then
             id <- uuidv4 ;;
             ret (newSubmissions ++ [mkSubmission id studentImages pending None None])
           else ret newSubmissions) ;;
        split_students fuel' images pagesPerStudent (i + pagesPerStudent)
          newSubmissions
    end
  else ret newSubmissions.

Definition handleFileSelect (getDocument : File -> Completion Pdf.PdfDocument)
    (files : option (list File)) : M unit :=
  match files with
  | None => ret tt
  | Some [] => ret tt
  | Some ((file :: _) as fileArray) =>
      cur <- rendered ;;
      if isBulkMode cur then
        if bool_decide (file_type file ≠ js "application/pdf") then
          showToast ToastBulkPdfOnly
        else
          setIsProcessingPdf true ;;
          match Pdf.convertPdfToImages getDocument file with
          | Returned images =>
              newSubmissions <-
                split_students (length images) images (pagesPerStudent cur) 0 [] ;;
              prev <- rendered ;;
              setSubmissions (submissions prev ++ newSubmissions) ;;
              showToast (ToastPdfDone (length newSubmissions))
          | Threw e => showToast ToastPdfFailed
          end ;;
          setIsProcessingPdf false
      else
        prev <- rendered ;;
        setStagedFiles (stagedFiles prev ++ fileArray)
  end.

Definition addStudentToQueue : M unit :=
  cur <- rendered ;;
  match stagedFiles cur with
  | [] => ret tt
  | _ :: _ =>
      id <- uuidv4 ;;
      let newSubmission := mkSubmission id (stagedFiles cur) pending None None in
      prev <- rendered ;;
      setSubmissions (submissions prev ++ [newSubmission]) ;;
      setStagedFiles []
  end.

Definition removeStagedFile (index : nat) : M unit :=
  prev <- rendered ;;
  setStagedFiles (delete index (stagedFiles prev)).

Definition removeSubmission (id0 : uuid) : M unit :=
  prev <- rendered ;;
  setSubmissions (filter (fun s => id s ≠ id0) (submissions prev)).

(** [updateSubmission] as its one caller uses it, with
    [updates = { result }]. *)
Definition updateSubmission (id0 : uuid) (updates : GradingResult) : M unit :=
  prev <- rendered ;;
  setSubmissions
    ((fun s => if decide (id s = id0) then with_result updates s else s)
       <$> submissions prev).

(** How the awaited grading call answers the [i]-th call of a run. *)
Definition Grader :=
  nat -> File -> list File -> GradingModel -> Completion GradingResult.

Definition await_gradeSubmission (grader : Grader) (i : nat) (referenceFile : File)
    (files : list File) (m : GradingModel) : M (Completion GradingResult) :=
  emit (CallGradeSubmission referenceFile files m) ;;
  ret (grader i referenceFile files m).

(** [error instanceof Error ? error.message : 'Unknown error'] *)
Definition error_message (e : Thrown) : JSString :=
  match e with
  | ErrorObj message => message
  | NonError _ => js "Unknown error"
  end.

(** Lines 150 to 175.  [newSubmissions !! i] is [Some] exactly when
    [i < newSubmissions.length]. *)
Fixpoint grading_loop (fuel : nat) (grader : Grader) (referenceFile : File)
    (m : GradingModel) (i : nat) (newSubmissions : list StudentSubmission)
    : M unit :=
  match newSubmissions !! i with
  | None => ret tt
  | Some s =>
      match fuel with
      | 0 => diverge
      | S fuel' =>
          let cur := with_status processing s in
          let newSubmissions := <[i := cur]> newSubmissions in
          setSubmissions newSubmissions ;;
          outcome <- await_gradeSubmission grader i referenceFile (files cur) m ;;
          newSubmissions <-
            match outcome with
            | Returned result =>
                (if bool_decide (hasOCRIssues result = Some true)
                 then showToast ToastOCRIssues else ret tt) ;;
                ret (<[i := with_result result (with_status completed cur)]>
                       newSubmissions)
            | Threw e =>
                ret (<[i := with_errorMsg (error_message e) (with_status error cur)]>
                       newSubmissions)
            end ;;
          setSubmissions newSubmissions ;;
          grading_loop fuel' grader referenceFile m (S i) newSubmissions
      end
  end.

Definition startGrading (grader : Grader) : M unit :=
  cur <- rendered ;;
  match referenceFile cur, submissions cur with
  | Some referenceFile, _ :: _ =>
      setIsGrading true ;;
      setCurrentStep GRADING ;;
      setToastMessage None ;;
      let newSubmissions := submissions cur in
      grading_loop (length newSubmissions) grader referenceFile (model cur) 0
        newSubmissions ;;
      setIsGrading false
  | _, _ => ret tt
  end.

(** The queues handed to [setSubmissions], in order. *)
Definition publications (evs : list Event) : list (list StudentSubmission) :=
  omap (fun e => match e with SetSubmissions subs => Some subs | _ => None end) evs.

(** The progress bar, lines 502 and 508: the share of settled records,
    [None] where JavaScript has [NaN] (an empty queue). *)
Definition progress_ratio (submissions : list StudentSubmission) : option Q :=
  match length submissions with
  | 0 => None
  | S _ =>
      Some (Z.of_nat
              (length (filter (fun s => status s = completed ∨ status s = error)
                         submissions))
            # Pos.of_nat (length submissions))
  end.

(** The figure of line 502,
    [Math.round((settled.length / submissions.length) * 100)], computed
    in doubles as JavaScript does; [None] is the [NaN] of an empty
    queue. *)
Definition percent_of (settled total : nat) : option Z :=
  Math_round
    (PrimFloat.mul (PrimFloat.div (double_of_nat settled) (double_of_nat total))
       (double_of_nat 100)).

Definition progress_percent (submissions : list StudentSubmission) : option Z :=
  percent_of
    (length (filter (fun s => status s = completed ∨ status s = error) submissions))
    (length submissions).

End App.

(** ** components/ResultsTable.tsx *)

Module ResultsTable.
Import App.
Local Open Scope handler_scope.

Definition completedSubmissions (submissions : list StudentSubmission)
    : list StudentSubmission :=
  filter (fun s => status s = completed ∧ is_Some (result s)) submissions.

(** [saveEditing], with the edit fields and the parent's callback as
    arguments. *)
Definition saveEditing (submissions : list StudentSubmission)
    (onUpdateSubmission : uuid -> GradingResult -> M unit)
    (id0 : uuid) (editName editClass : JSString) : M unit :=
  match list_find (fun s => id s = id0) submissions with
  | Some (_, sub) =>
      match result sub with
      | Some r =>
          let updatedResult :=
            mkGradingResult editName (Some editClass) (scores r) (total_score r)
              (feedback r) (hasOCRIssues r) in
          onUpdateSubmission id0 updatedResult
      | None => ret tt
      end
  | None => ret tt
  end.

(** [Set.prototype.add]: a [Set] keeps its elements in insertion order,
    each once. *)
Definition set_add (x : number) (s : list number) : list number :=
  if decide (x ∈ s) then s else s ++ [x].

Definition allQNums (completed : list StudentSubmission) : list number :=
  foldl (fun acc sub =>
           match result sub with
           | Some r => foldl (fun acc s => set_add (q_num s) acc) acc (scores r)
           | None => acc
           end) [] completed.

(** [Array.prototype.sort] with a comparator, as a stable insertion
    sort. *)
Fixpoint sort_insert (cmp : number -> number -> number) (x : number)
    (l : list number) : list number :=
  match l with
  | [] => [x]
  | y :: l' => if (cmp x y <=? 0)%Z then x :: l else y :: sort_insert cmp x l'
  end.
Definition sort (cmp : number -> number -> number) (l : list number) : list number :=
  foldr (sort_insert cmp) [] l.

Definition sortedQNums (completed : list StudentSubmission) : list number :=
  sort (fun a b => (a - b)%Z) (allQNums completed).

Definition question_headers (q : number) : list JSString :=
  [js "Q" ++ number_toString q ++ js " Ans";
   js "Q" ++ number_toString q ++ js " Score"].

Definition headers (completed : list StudentSubmission) : list JSString :=
  [js "Class"; js "Name"; js "Total Score"]
    ++ (sortedQNums completed ≫= question_headers)
    ++ [js "Feedback"].

(** [new Map(res.scores.map(s => [s.q_num, { score, ans }]))]: a later
    entry replaces an earlier one with the same key. *)
Definition scoresMap (res : GradingResult) : gmap Z (number * JSString) :=
  foldl (fun m s => <[q_num s := (score s, str_or (student_answer s) (js "-"))]> m)
    ∅ (scores res).

Definition qCols (completed : list StudentSubmission) (res : GradingResult)
    : list JSString :=
  sortedQNums completed ≫= fun q =>
    let item := scoresMap res !! q in
    [match item with Some it => it.2 | None => js "-" end;
     match item with Some it => number_toString it.1 | None => js "0" end].

Definition quoted (s : JSString) : JSString := [34%N] ++ s ++ [34%N].

(** The cells of one row of [getExportData]. *)
Definition csv_cells (completed : list StudentSubmission) (res : GradingResult)
    : list JSString :=
  [quoted (opt_str_or (student_class res) []);
   quoted (student_name res);
   number_toString (total_score res)]
    ++ qCols completed res
    ++ [quoted (replace_all_char 34 [34%N; 34%N] (str_or (feedback res) []))].

(** [sub.result as GradingResult] on a record that passed the filter. *)
Definition result_of (sub : StudentSubmission) : GradingResult :=
  default (mkGradingResult [] None [] 0%Z [] None) (result sub).

Definition getExportData (submissions : list StudentSubmission)
    (separator : JSString) : JSString * JSString :=
  let completed := completedSubmissions submissions in
  let rows :=
    (fun sub => join separator (csv_cells completed (result_of sub))) <$> completed in
  (join separator (headers completed), join [10%N] rows).

(** [handleExportCSV]: the text put into the downloaded blob, if any. *)
Definition handleExportCSV (submissions : list StudentSubmission)
    : option JSString :=
  match completedSubmissions submissions with
  | [] => None
  | _ :: _ =>
      let '(headerStr, rowStr) := getExportData submissions (js ",") in
      let csvString := join [10%N] [headerStr; rowStr] in
      Some ([0xFEFF%N] ++ csvString)
  end.

(** The cells of one row of [handleCopyToClipboard]. *)
Definition tsv_cells (completed : list StudentSubmission) (res : GradingResult)
    : list JSString :=
  [opt_str_or (student_class res) [];
   student_name res;
   number_toString (total_score res)]
    ++ qCols completed res
    ++ [replace_all_char 9 [32%N] (str_or (feedback res) [])].

(** [handleCopyToClipboard]: the text handed to the clipboard, if any.
    The handler repeats the question-number and header code of
    [getExportData] word for word. *)
Definition handleCopyToClipboard (submissions : list StudentSubmission)
    : option JSString :=
  match completedSubmissions submissions with
  | [] => None
  | _ :: _ =>
      let completed := completedSubmissions submissions in
      let rows :=
        (fun sub => join [9%N] (tsv_cells completed (result_of sub))) <$> completed in
      Some (join [10%N] (join [9%N] (headers completed) :: rows))
  end.

End ResultsTable.

(** ** The user interface: which handler the user can trigger when

    One constructor per control of the page.  The two buttons that set the
    pages per student to 1 and 2 are [TypePagesPerStudent (Some 1)] and
    [TypePagesPerStudent (Some 2)]. *)

Module Ui.
Import App.
Local Open Scope handler_scope.

Inductive Action :=
| PickReference (files : list File)           (* step 1 upload area *)
| RemoveReference                             (* sidebar, lines 230-233 *)
| NextToUpload                                (* line 302 *)
| ToggleDevSettings
| SelectModel (m : GradingModel)
| CloseToast
| ToggleBulkMode                              (* lines 332-335 *)
| TypePagesPerStudent (parsed : option Z)     (* line 397; [None] is NaN *)
| PickFiles (getDocument : File -> Completion Pdf.PdfDocument)
    (files : list File)                       (* step 2 upload area *)
| RemoveStagedFile (index : nat)
| AddStudentToQueue
| RemoveSubmission (id0 : uuid)
| BackToSetup                                 (* line 475 *)
| StartGrading (grader : Grader)              (* line 481 *)
| SaveEditing (id0 : uuid) (editName editClass : JSString)
| NewGrading.                                 (* lines 522-528 *)

(** [Math.max(1, parseInt(value) || 1)] *)
Definition typed_pages (parsed : option Z) : nat :=
  let n := match parsed with
           | Some z => if (z =? 0)%Z then 1%Z else z
           | None => 1%Z
           end in
  Z.to_nat (Z.max 1 n).

Definition is_step (s : State) (step : AppStep) : bool :=
  match currentStep s, step with
  | SETUP, SETUP | UPLOAD_STUDENTS, UPLOAD_STUDENTS | GRADING, GRADING => true
  | _, _ => false
  end.

(** The control behind the action is on screen and not disabled. *)
Definition enabled (a : Action) (s : State) : bool :=
  match a with
  | PickReference files =>
      is_step s SETUP && bool_decide (files ≠ [])
  | RemoveReference => bool_decide (is_Some (referenceFile s))
  | NextToUpload => is_step s SETUP && bool_decide (is_Some (referenceFile s))
  | ToggleDevSettings => true
  | SelectModel _ => showDevSettings s
  | CloseToast => bool_decide (is_Some (toastMessage s))
  | ToggleBulkMode => is_step s UPLOAD_STUDENTS
  | TypePagesPerStudent _ => is_step s UPLOAD_STUDENTS && isBulkMode s
  | PickFiles _ files => is_step s UPLOAD_STUDENTS && bool_decide (files ≠ [])
  | RemoveStagedFile index =>
      is_step s UPLOAD_STUDENTS && negb (isBulkMode s)
      && bool_decide (index < length (stagedFiles s))
  | AddStudentToQueue =>
      is_step s UPLOAD_STUDENTS && negb (isBulkMode s)
      && bool_decide (stagedFiles s ≠ [])
  | RemoveSubmission id0 =>
      is_step s UPLOAD_STUDENTS && bool_decide (id0 ∈ id <$> submissions s)
  | BackToSetup => is_step s UPLOAD_STUDENTS
  | StartGrading _ => is_step s UPLOAD_STUDENTS && bool_decide (submissions s ≠ [])
  | SaveEditing id0 _ _ =>
      is_step s GRADING
      && bool_decide (id0 ∈ id <$> filter (fun sub => is_Some (result sub)) (submissions s))
  | NewGrading => is_step s GRADING && negb (isGrading s)
  end.

(** The handler behind the action. *)
Definition handler (a : Action) : M unit :=
  match a with
  | PickReference files => handleReferenceSelect (Some files)
  | RemoveReference => setReferenceFile None ;; setCurrentStep SETUP
  | NextToUpload => setCurrentStep UPLOAD_STUDENTS
  | ToggleDevSettings => cur <- rendered ;; setShowDevSettings (negb (showDevSettings cur))
  | SelectModel m => setModel m
  | CloseToast => setToastMessage None
  | ToggleBulkMode =>
      cur <- rendered ;; setIsBulkMode (negb (isBulkMode cur)) ;; setStagedFiles []
  | TypePagesPerStudent parsed => setPagesPerStudent (typed_pages parsed)
  | PickFiles getDocument files => handleFileSelect getDocument (Some files)
  | RemoveStagedFile index => removeStagedFile index
  | AddStudentToQueue => addStudentToQueue
  | RemoveSubmission id0 => removeSubmission id0
  | BackToSetup => setCurrentStep SETUP
  | StartGrading grader => startGrading grader
  | SaveEditing id0 editName editClass =>
      cur <- rendered ;;
      ResultsTable.saveEditing (submissions cur) updateSubmission id0 editName editClass
  | NewGrading =>
      setSubmissions [] ;; setCurrentStep UPLOAD_STUDENTS ;;
      setIsBulkMode false ;; setPagesPerStudent 1
  end.

(** One user action, its handler followed to its end, on a fresh trace. *)
Definition perform (a : Action) (w : World) : option World :=
  snd <$> handler a (mkWorld (react w) (next_uuid w) []).

(** The queues handed to [setSubmissions] by the last action. *)
Definition published (w : World) : list (list StudentSubmission) :=
  publications (trace w).

(** A restriction on when grading may be started: every record of the
    queue has to be [startable]. *)
Definition grading_allowed (startable : StudentSubmission -> Prop)
    (a : Action) (s : State) : Prop :=
  match a with
  | StartGrading _ => Forall startable (submissions s)
  | _ => True
  end.

(** The worlds the user can bring about, starting from the first render,
    when every handler has ended before the next action and grading is
    only started on queues of [startable] records.  The pages in between,
    with handlers waiting at an [await], are [Live.reachable]. *)
Inductive reachable_when (startable : StudentSubmission -> Prop) : World -> Prop :=
| reachable_initial : reachable_when startable (mkWorld initial 0 [])
| reachable_step a w w' :
    reachable_when startable w ->
    enabled a (react w) = true ->
    grading_allowed startable a (react w) ->
    perform a w = Some w' ->
    reachable_when startable w'.

(** The worlds the user can bring about. *)
Definition reachable : World -> Prop := reachable_when (fun _ => True).

(** A script of user actions, each one checked to be enabled. *)
Definition perform_all (script : list Action) (w : World) : option World :=
  foldl (fun ow a =>
           match ow with
           | Some w => if enabled a (react w) then perform a w else None
           | None => None
           end) (Some w) script.

(** The queues an observer gets to see: the one on screen after an
    action and every one handed to [setSubmissions] during it. *)
Definition observable_when (startable : StudentSubmission -> Prop)
    (queue : list StudentSubmission) : Prop :=
  exists w, reachable_when startable w
            /\ (queue = submissions (react w) \/ queue ∈ published w).

Definition observable : list StudentSubmission -> Prop :=
  observable_when (fun _ => True).

End Ui.

(** ** Vocabulary of the statements *)

(** [chunked p pages chunks]: [chunks] cuts [pages] into consecutive runs of
    [p] pages, the last one holding what is left over. *)
Inductive chunked (p : nat) : list File -> list (list File) -> Prop :=
| chunked_nil : chunked p [] []
| chunked_last l : 0 < length l -> length l <= p -> chunked p l [l]
| chunked_cons l rest cs :
    length l = p -> rest <> [] -> chunked p rest cs -> chunked p (l ++ rest) (l :: cs).

(** ceil(n / p) *)
Definition ceil_div (n p : nat) : nat := (n + p - 1) / p.

(** The size the claim gives the last record. *)
Definition last_size (n p : nat) : nat :=
  if decide (n mod p = 0) then p else n mod p.

(** The world after the events [evs] happened in [w]. *)
Definition after (evs : list App.Event) (w : App.World) : App.World :=
  App.mkWorld (foldl (fun s e => App.apply e s) (App.react w) evs)
    (App.next_uuid w) (App.trace w ++ evs).

(** A record once its grading call has answered with [c]. *)
Definition settle (c : Completion GradingResult) (s : StudentSubmission)
    : StudentSubmission :=
  match c with
  | Returned r => mkSubmission (id s) (files s) completed (Some r) (errorMsg s)
  | Threw e => mkSubmission (id s) (files s) error (result s) (Some (App.error_message e))
  end.

Section RunVocabulary.
Variables (grader : App.Grader) (referenceFile : File) (m : GradingModel).
Variable queue : list StudentSubmission.

(** Record [j] of the queue, graded. *)
Definition graded (j : nat) (s : StudentSubmission) : StudentSubmission :=
  settle (grader j referenceFile (files s) m) s.

(** The queue with its first [j] records graded and the others as they
    were. *)
Definition snapshot_settled (j : nat) : list StudentSubmission :=
  imap graded (take j queue) ++ drop j queue.

(** The queue while record [j] is being graded. *)
Definition snapshot_processing (j : nat) (s : StudentSubmission)
    : list StudentSubmission :=
  imap graded (take j queue) ++ App.with_status processing s :: drop (S j) queue.

(** The toast a graded record raises. *)
Definition ocr_toast (c : Completion GradingResult) : list App.Event :=
  match c with
  | Returned r =>
      if bool_decide (hasOCRIssues r = Some true)
      then [App.SetToastMessage (Some App.ToastOCRIssues)] else []
  | Threw _ => []
  end.

(** Everything the run does for record [j]. *)
Definition record_events (j : nat) (s : StudentSubmission) : list App.Event :=
  [App.SetSubmissions (snapshot_processing j s);
   App.CallGradeSubmission referenceFile (files s) m]
    ++ ocr_toast (grader j referenceFile (files s) m)
    ++ [App.SetSubmissions (snapshot_settled (S j))].

(** Everything a run over the queue does. *)
Definition run_events : list App.Event :=
  [App.SetIsGrading true; App.SetCurrentStep GRADING; App.SetToastMessage None]
    ++ concat (imap record_events queue)
    ++ [App.SetIsGrading false].

(** The status a record ends in. *)
Definition terminal_status (j : nat) (s : StudentSubmission) : Status :=
  match grader j referenceFile (files s) m with
  | Returned _ => completed
  | Threw _ => error
  end.

(** What an observer of record [j] sees, in order: the queue with the
    record in [processing], the grading call, the queue with the record
    settled. *)
Definition record_steps (j : nat) (s : StudentSubmission) : list App.Event :=
  [App.SetSubmissions (snapshot_processing j s);
   App.CallGradeSubmission referenceFile (files s) m;
   App.SetSubmissions (snapshot_settled (S j))].

End RunVocabulary.

(** Publications and grading calls, as opposed to the other state
    updates. *)
Definition grading_step (e : App.Event) : bool :=
  match e with
  | App.SetSubmissions _ | App.CallGradeSubmission _ _ _ => true
  | _ => false
  end.

(** The data model's invariant: [result] is there exactly when the record
    is [completed], [errorMsg] exactly when it is [error]; so neither is
    there on a [pending] or [processing] record, and never both. *)
Definition consistent (s : StudentSubmission) : Prop :=
  (is_Some (result s) <-> status s = completed)
  /\ (is_Some (errorMsg s) <-> status s = error).

(** The part of it that survives grading a queue again. *)
Definition sound (s : StudentSubmission) : Prop :=
  (status s = pending -> result s = None /\ errorMsg s = None)
  /\ (status s = completed -> is_Some (result s))
  /\ (status s = error -> is_Some (errorMsg s)).

(** What every queue on screen satisfies besides [P]: the identifiers are
    distinct draws made before the [n]-th. *)
Definition queue_ok (P : StudentSubmission -> Prop) (n : nat)
    (queue : list StudentSubmission) : Prop :=
  NoDup (id <$> queue) /\ Forall (fun i => i < n) (id <$> queue) /\ Forall P queue.

(** A world all of whose queues, on screen and just published, are
    [queue_ok]. *)
Definition good (P : StudentSubmission -> Prop) (w : App.World) : Prop :=
  queue_ok P (App.next_uuid w) (App.submissions (App.react w))
  /\ Forall (queue_ok P (App.next_uuid w)) (Ui.published w).

(** A record as it is created. *)
Definition fresh (s : StudentSubmission) : Prop :=
  status s = pending /\ result s = None /\ errorMsg s = None.

(** How many records of a queue are settled, the progress bar's
    numerator. *)
Definition settled_count (queue : list StudentSubmission) : nat :=
  length (filter (fun s => status s = completed ∨ status s = error) queue).

(** How many records of a queue have the status [st]. *)
Definition count_status (st : Status) (queue : list StudentSubmission) : nat :=
  length (filter (fun s => status s = st) queue).

(** A field value that is missing, no string, or a string that is empty
    once trimmed. *)
Definition blank_or_not_string (v : option Gemini.JSON) : Prop :=
  match v with
  | Some (Gemini.JStr s) => trim s = []
  | _ => True
  end.

(** Page [i] renders and yields an image. *)
Definition page_renders (pdf : Pdf.PdfDocument) (i : nat) : Prop :=
  exists page blob,
    Pdf.getPage pdf i = Returned page
    /\ Pdf.context2d page = true /\ Pdf.render page = None
    /\ Pdf.toBlob page = Some blob.

(** Page [i] cannot be rendered: the library rejects, or there is no
    drawing context. *)
Definition page_fails (pdf : Pdf.PdfDocument) (i : nat) : Prop :=
  (exists e, Pdf.getPage pdf i = Threw e)
  \/ exists page,
       Pdf.getPage pdf i = Returned page
       /\ (Pdf.context2d page = false \/ exists e, Pdf.render page = Some e).


(** The header line for the question numbers [qs]: three leading columns,
    an answer and a score column for each question, and the feedback. *)
Definition export_columns (qs : list number) : list JSString :=
  [js "Class"; js "Name"; js "Total Score"]
    ++ (qs ≫= fun q => [js "Q" ++ number_toString q ++ js " Ans";
                          js "Q" ++ number_toString q ++ js " Score"])
    ++ [js "Feedback"].

(** A character of a header cell: it is no comma, no tab and no line
    feed. *)
Definition header_char (c : N) : Prop := c <> 44%N /\ c <> 9%N /\ c <> 10%N.

(** ** Sample data for the closed instances *)

Definition page (n : N) : File := mkFile (js "scan_page.jpg") (js "image/jpeg") [n].

Definition key_file : File := mkFile (js "answer_key.jpg") (js "image/jpeg") [0%N].

Definition sample_result (total : number) : GradingResult :=
  mkGradingResult (js "Kim") (Some (js "3-2"))
    [mkScoreItem 1%Z 1%Z (js "3") (js "ok"); mkScoreItem 2%Z 0%Z (js "X") (js "blank")]
    total (js "good") (Some false).

(** A grader that answers every call but the second, which fails. *)
Definition second_fails : App.Grader :=
  fun i _ _ _ =>
    match i with
    | 1 => Threw (ErrorObj (js "Empty response from model"))
    | 0 => Returned (sample_result 10%Z)
    | _ => Returned (sample_result 8%Z)
    end.

(** A grader that answers every call. *)
Definition all_pass : App.Grader := fun _ _ _ _ => Returned (sample_result 10%Z).

(** Three pending records, and the world showing them with the answer key
    loaded. *)
Definition three_pending : list StudentSubmission :=
  [mkSubmission 0 [page 1] pending None None;
   mkSubmission 1 [page 2] pending None None;
   mkSubmission 2 [page 3] pending None None].

(** Two records graded in an earlier run. *)
Definition two_graded : list StudentSubmission :=
  [mkSubmission 0 [page 1] completed (Some (sample_result 10%Z)) None;
   mkSubmission 1 [page 2] completed (Some (sample_result 10%Z)) None].

Definition ready (queue : list StudentSubmission) : App.World :=
  App.mkWorld
    (App.mkState UPLOAD_STUDENTS (Some key_file) queue gemini_3_flash_preview
       false None false [] false 1 false)
    (length queue) [].

(** A PDF loader for scripts that pick no PDF. *)
Definition no_pdf : File -> Completion Pdf.PdfDocument :=
  fun _ => Threw (ErrorObj (js "Invalid PDF structure"))%string.

(** Load the answer key, queue two one-page students, grade them, then
    remove the answer key, load it again and go back to the upload step:
    the graded queue is ready to be graded once more. *)
Definition grade_then_return : list Ui.Action :=
  [Ui.PickReference [key_file]; Ui.NextToUpload;
   Ui.PickFiles no_pdf [page 1]; Ui.AddStudentToQueue;
   Ui.PickFiles no_pdf [page 2]; Ui.AddStudentToQueue;
   Ui.StartGrading all_pass;
   Ui.RemoveReference; Ui.PickReference [key_file]; Ui.NextToUpload].

(** The world that script leads to, and the world after grading is started
    there once more. *)
Definition graded_once : App.World :=
  default (App.mkWorld App.initial 0 [])
    (Ui.perform_all grade_then_return (App.mkWorld App.initial 0 [])).

Definition graded_again : App.World :=
  default (App.mkWorld App.initial 0 [])
    (Ui.perform (Ui.StartGrading all_pass) graded_once).

(** The first queue that second run publishes, and its first record. *)
Definition stale_record : StudentSubmission :=
  mkSubmission 0 [page 1] processing (Some (sample_result 10%Z)) None.

Definition stale_queue : list StudentSubmission :=
  [stale_record; mkSubmission 1 [page 2] completed (Some (sample_result 10%Z)) None].

(** A two-page PDF whose first page the canvas cannot encode ([toBlob]
    hands over [null]); the second page is fine. *)
Definition exams_pdf : File := mkFile (js "exams.pdf") (js "application/pdf") [37%N].

Definition first_page_not_encoded : File -> Completion Pdf.PdfDocument :=
  fun _ =>
    Returned
      (Pdf.mkDocument 2
         (fun i => Returned (Pdf.mkPage true None
                               (match i with 1 => None | _ => Some [N.of_nat i] end)))).

(** A model that answers every request with the text [null]. *)
Definition answers_null : Gemini.Env :=
  Gemini.mkEnv
    (fun _ => Returned (js "data:image/jpeg;base64,AAAA"))
    (fun _ => Returned (Gemini.mkResponse (Some (js "null"))))
    Gemini.parse_literal.

(** A model that answers every request with the text [true]. *)
Definition answers_true : Gemini.Env :=
  Gemini.mkEnv
    (fun _ => Returned (js "data:image/jpeg;base64,AAAA"))
    (fun _ => Returned (Gemini.mkResponse (Some (js "true"))))
    Gemini.parse_literal.

(** Two graded records whose scores name the questions 1, 2 and 5, the
    second one out of order and with question 2 twice, and a record still
    pending. *)
Definition export_sample : list StudentSubmission :=
  [mkSubmission 0 [page 1] completed (Some (sample_result 10%Z)) None;
   mkSubmission 1 [page 2] pending None None;
   mkSubmission 2 [page 3] completed
     (Some (mkGradingResult (js "Lee") None
              [mkScoreItem 5%Z 1%Z (js "4") (js "ok");
               mkScoreItem 2%Z 0%Z [] (js "blank");
               mkScoreItem 2%Z 1%Z (js "1") (js "ok")]
              2%Z (js "fine") None))
     None].

(** ** The specification's readings, for the statements it words otherwise *)

(** The failure's message as the specification has it, where every
    failure carries one: for a thrown [Error] its [message], for any other
    thrown value the value as text. *)
Definition failure_message (e : Thrown) : JSString :=
  match e with
  | ErrorObj message => message
  | NonError tag => tag
  end.

(** A grader whose second call fails the way a [FileReader] does: with
    its event, which is no [Error]. *)
Definition second_unreadable : App.Grader :=
  fun i _ _ _ =>
    match i with
    | 1 => Threw (NonError (js "ProgressEvent"))
    | _ => Returned (sample_result 10%Z)
    end.

(** The field [key] of a parsed response as the specification speaks of
    it: its value where the response is an object that holds it, missing
    for every other response, [null] included. *)
Definition field_of (raw : Gemini.JSON) (key : JSString) : option Gemini.JSON :=
  match raw with
  | Gemini.JObj fields => Gemini.lookup_field key fields
  | _ => None
  end.

(** ** What an observer of a run sees *)

(** The queues published when a record has settled, line 174: each is the
    first one published after an awaited grading call. *)
Fixpoint published_on_settling (answered : bool) (evs : list App.Event)
    : list (list StudentSubmission) :=
  match evs with
  | [] => []
  | App.CallGradeSubmission _ _ _ :: evs' => published_on_settling true evs'
  | App.SetSubmissions queue :: evs' =>
      if answered then queue :: published_on_settling false evs'
      else published_on_settling false evs'
  | _ :: evs' => published_on_settling answered evs'
  end.

(** The queues that get rendered: the state updates a handler makes
    between two [await]s are batched, so the page shows the queue as it is
    when the handler yields at a grading call, and as it is when the
    handler returns.  [cur] is the queue before [evs]. *)
Fixpoint rendered_queues (cur : list StudentSubmission) (evs : list App.Event)
    : list (list StudentSubmission) :=
  match evs with
  | [] => [cur]
  | App.SetSubmissions queue :: evs' => rendered_queues queue evs'
  | App.CallGradeSubmission _ _ _ :: evs' => cur :: rendered_queues cur evs'
  | _ :: evs' => rendered_queues cur evs'
  end.

(** Along [snaps] the progress ratio never decreases. *)
Definition never_decreases (snaps : list (list StudentSubmission)) : Prop :=
  forall k a b,
    snaps !! k = Some a -> snaps !! S k = Some b ->
    exists ra rb,
      App.progress_ratio a = Some ra /\ App.progress_ratio b = Some rb
      /\ (ra <= rb)%Q.

(** ** More vocabulary and sample data *)

(** What page [k] contributes to the result: its image, when the page loads
    and the canvas hands over a blob. *)
Definition page_image (pdf : Pdf.PdfDocument) (pdfName : JSString) (k : nat)
    : option File :=
  match Pdf.getPage pdf k with
  | Returned page =>
      (fun blob => mkFile (Pdf.page_file_name pdfName k) (js "image/jpeg") blob)
        <$> Pdf.toBlob page
  | Threw _ => None
  end.

(** [pat] occurs in [s] at no position. *)
Definition never_occurs (pat s : JSString) : Prop :=
  forall k, starts_with pat (drop k s) = false.

(** A two-page PDF both of whose pages render. *)
Definition both_pages_fine : File -> Completion Pdf.PdfDocument :=
  fun _ =>
    Returned (Pdf.mkDocument 2
                (fun i => Returned (Pdf.mkPage true None (Some [N.of_nat i])))).

(** A two-page PDF whose second page has no drawing context. *)
Definition second_page_no_context : File -> Completion Pdf.PdfDocument :=
  fun _ =>
    Returned (Pdf.mkDocument 2
                (fun i => Returned (Pdf.mkPage (bool_decide (i = 1)) None
                                      (Some [N.of_nat i])))).

(** What holds of the component's state between two user actions. *)
Definition at_rest (s : App.State) : Prop :=
  1 <= App.pagesPerStudent s
  /\ App.isGrading s = false
  /\ App.isProcessingPdf s = false
  /\ (App.currentStep s <> SETUP -> is_Some (App.referenceFile s))
  /\ (App.isBulkMode s = true -> App.stagedFiles s = []).

(** The grading call for record [j] answers with a result that is flagged
    [hasOCRIssues]. *)
Definition flagged (grader : App.Grader) (referenceFile : File) (m : GradingModel)
    (j : nat) (s : StudentSubmission) : bool :=
  match grader j referenceFile (files s) m with
  | Returned r => bool_decide (hasOCRIssues r = Some true)
  | Threw _ => false
  end.

(** The upload step in bulk mode, with [p] pages per student and the
    queue [queue]. *)
Definition bulk_world (p : nat) (queue : list StudentSubmission) : App.World :=
  App.mkWorld
    (App.mkState UPLOAD_STUDENTS (Some key_file) queue gemini_3_flash_preview
       false None false [] true p false)
    (length queue) [].

(** The grading call of a run, made through the service: [App.tsx] calls
    [gradeSubmission] and takes what it returns for a [GradingResult];
    [as_GradingResult] is that unchecked reading. *)
Definition service_grader (env : Gemini.Env)
    (as_GradingResult : Gemini.RawGradingResult -> GradingResult) : App.Grader :=
  fun _ referenceFile files m =>
    match Gemini.gradeSubmission env referenceFile files m with
    | Returned r => Returned (as_GradingResult r)
    | Threw e => Threw e
    end.

(** One such reading, for the closed examples: the feedback where it is a
    string, and no scores. *)
Definition plain_result (r : Gemini.RawGradingResult) : GradingResult :=
  mkGradingResult (Gemini.raw_student_name r) (Some (Gemini.raw_student_class r)) []
    (Gemini.raw_total_score r)
    (match Gemini.raw_feedback r with Gemini.JStr s => s | _ => [] end)
    (Some (Gemini.raw_hasOCRIssues r)).

(** A browser whose [FileReader] fails on every file; it rejects with the
    event, which is no [Error]. *)
Definition unreadable : Gemini.Env :=
  Gemini.mkEnv
    (fun _ => Threw (NonError (js "ProgressEvent")))
    (fun _ => Returned (Gemini.mkResponse (Some (js "true"))))
    Gemini.parse_literal.

(** The score item of [res] that decides the cells of question [q]: the
    last one carrying that number. *)
Definition deciding_item (res : GradingResult) (q : number) : option ScoreItem :=
  last (filter (fun s => q_num s = q) (scores res)).

(** No cell of the result holds a tab or a line feed, the feedback no line
    feed. *)
Definition clean_result (res : GradingResult) : Prop :=
  Forall (fun c => c <> 9%N /\ c <> 10%N) (opt_str_or (student_class res) [])
  /\ Forall (fun c => c <> 9%N /\ c <> 10%N) (student_name res)
  /\ Forall (fun s => Forall (fun c => c <> 9%N /\ c <> 10%N) (student_answer s))
       (scores res)
  /\ Forall (fun c => c <> 10%N) (feedback res).

(** Reading a quoted CSV field back, the way a spreadsheet does: a doubled
    quote stands for one, a single one ends the field. *)
Fixpoint csv_unquote_body (s : JSString) : option JSString :=
  match s with
  | [] => None
  | c :: s' =>
      if (c =? 34)%N then
        match s' with
        | [] => Some []
        | c' :: s'' =>
            if (c' =? 34)%N then (fun t => 34%N :: t) <$> csv_unquote_body s''
            else None
        end
      else (fun t => c :: t) <$> csv_unquote_body s'
  end.

Definition csv_unquote (field : JSString) : option JSString :=
  match field with
  | c :: body => if (c =? 34)%N then csv_unquote_body body else None
  | [] => None
  end.

(** ** services/driveService.ts *)

Module Drive.

(** The module's variables.  [tokenClient] is the client id the token
    client was made for, if there is one. *)
Record State := mkState {
  configuredClientId : JSString;
  configuredAppId : JSString;
  tokenClient : option JSString;
  accessToken : option JSString
}.

Definition initial : State := mkState [] [] None None.

(** [\d] *)
Definition is_digit (c : N) : bool := ((48 <=? c) && (c <=? 57))%N.

(** [clientId.match(/^(\d+)-/)], the first group: [\d+] takes a digit and
    then as many more as it can, giving them back one by one until a
    hyphen follows. *)
Fixpoint match_project_number (s : JSString) : option JSString :=
  match s with
  | c :: s' =>
      if is_digit c then
        match match_project_number s' with
        | Some group => Some (c :: group)
        | None =>
            match s' with
            | h :: _ => if (h =? 45)%N then Some [c] else None
            | [] => None
            end
        end
      else None
  | [] => None
  end.

Definition configureDrive (clientId : JSString) (st : State) : State :=
  let configuredAppId :=
    match match_project_number clientId with
    | Some ((_ :: _) as group) => group
    | _ => []
    end in
  mkState clientId configuredAppId None None.

(** [!!configuredClientId && configuredClientId.trim().length > 0] *)
Definition isDriveConfigured (st : State) : bool :=
  match configuredClientId st with
  | [] => false
  | _ :: _ => bool_decide (0 < length (trim (configuredClientId st)))
  end.

Definition initTokenClient (st : State) : Completion State :=
  match tokenClient st with
  | Some _ => Returned st
  | None =>
      match configuredClientId st with
      | [] => Threw (ErrorObj (js "Client ID not configured"))
      | _ :: _ =>
          Returned (mkState (configuredClientId st) (configuredAppId st)
                      (Some (configuredClientId st)) (accessToken st))
      end
  end.

(** What [fetch] answers: [ok], [statusText] and the body. *)
Record FetchResponse := mkFetchResponse {
  ok : bool;
  statusText : JSString;
  blob : Completion (list N)
}.

(** [fetch(url, { headers: { Authorization } })] *)
Definition Fetch := JSString -> JSString -> Completion FetchResponse.

Definition downloadDriveFile (fetch : Fetch) (st : State)
    (fileId fileName mimeType : JSString) : Completion File :=
  match accessToken st with
  | None | Some [] => Threw (ErrorObj (js "No access token available"))
  | Some ((_ :: _) as token) =>
      match fetch (js "https://www.googleapis.com/drive/v3/files/" ++ fileId
                     ++ js "?alt=media")
                  (js "Bearer " ++ token) with
      | Threw e => Threw e
      | Returned response =>
          if negb (ok response) then
            Threw (ErrorObj (js "Failed to download file: " ++ statusText response))
          else
            match blob response with
            | Threw e => Threw e
            | Returned bytes => Returned (mkFile fileName mimeType bytes)
            end
      end
  end.

(** A document of the picker's answer. *)
Record Doc := mkDoc {
  doc_id : JSString;
  doc_name : JSString;
  doc_mimeType : JSString
}.

(** What the picker calls back with. *)
Inductive PickerData :=
| PICKED (docs : list Doc)
| CANCEL
| OtherAction.

(** What becomes of the promise [openDrivePicker] returned. *)
Inductive Settlement :=
| Resolved (files : list File)
| Rejected (e : Thrown)
| Unsettled.

(** The loop [for (const doc of docs)] of the callback. *)
Fixpoint download_docs (fetch : Fetch) (st : State) (docs : list Doc)
    (files : list File) : Completion (list File) :=
  match docs with
  | [] => Returned files
  | doc :: docs' =>
      match downloadDriveFile fetch st (doc_id doc) (doc_name doc) (doc_mimeType doc) with
      | Returned file => download_docs fetch st docs' (files ++ [file])
      | Threw e => Threw e
      end
  end.

Definition pickerCallback (fetch : Fetch) (st : State) (data : PickerData)
    : Settlement :=
  match data with
  | PICKED docs =>
      match download_docs fetch st docs [] with
      | Returned files => Resolved files
      | Threw e => Rejected e
      end
  | CANCEL => Resolved []
  | OtherAction => Unsettled
  end.

(** What is done to the module's variables from outside. *)
Inductive Op :=
| Configure (clientId : JSString)
| InitTokenClient.

(** One such step; a throwing [initTokenClient] changes nothing. *)
Definition step (st : State) (op : Op) : State :=
  match op with
  | Configure clientId => configureDrive clientId st
  | InitTokenClient =>
      match initTokenClient st with
      | Returned st' => st'
      | Threw _ => st
      end
  end.

End Drive.

(** A download that succeeds for every file but the one named [bad]. *)
Definition fetch_all_but (bad : JSString) : Drive.Fetch :=
  fun url _ =>
    if bool_decide (url = js "https://www.googleapis.com/drive/v3/files/" ++ bad
                            ++ js "?alt=media")
    then Returned (Drive.mkFetchResponse false (js "Not Found") (Returned []))
    else Returned (Drive.mkFetchResponse true (js "OK") (Returned [1%N])).

(** The module's variables once a client id is set and a token is there. *)
Definition signed_in : Drive.State :=
  Drive.mkState (js "1234-abc.apps.googleusercontent.com") (js "1234")
    (Some (js "1234-abc.apps.googleusercontent.com")) (Some (js "token")).

(** The results page shows a queue that is not empty and all of whose
    records are settled. *)
Definition results_ready (s : App.State) : Prop :=
  App.currentStep s = GRADING ->
  App.submissions s <> []
  /\ Forall (fun r => status r = completed \/ status r = error) (App.submissions s).

(** A record holds at least one page. *)
Definition has_pages (s : StudentSubmission) : Prop := files s <> [].

(** [loadGoogleDriveScripts]: the promise and the two flags it waits for. *)
Module DriveScripts.

(** The state of a [Promise<void>]. *)
Inductive Outcome :=
| Pending
| Fulfilled
| Failed (e : Thrown).

Record State := mkState {
  pickerInited : bool;
  gisInited : bool;
  promise : Outcome
}.

(** What happens after the two script elements are appended. *)
Inductive ScriptEvent :=
| GapiClientLoaded            (* the callback of [gapi.load], past its [await] *)
| GisLoaded                   (* [gisScript.onload] *)
| ScriptError (e : Thrown).   (* [onerror] of either script *)

(** A promise keeps its first settlement. *)
Definition settle (outcome : Outcome) (st : State) : State :=
  match promise st with
  | Pending => mkState (pickerInited st) (gisInited st) outcome
  | _ => st
  end.

Definition maybeResolve (st : State) : State :=
  if pickerInited st && gisInited st then settle Fulfilled st else st.

Definition on_event (st : State) (ev : ScriptEvent) : State :=
  match ev with
  | GapiClientLoaded => maybeResolve (mkState true (gisInited st) (promise st))
  | GisLoaded => maybeResolve (mkState (pickerInited st) true (promise st))
  | ScriptError e => settle (Failed e) st
  end.

(** The call itself: with the picker already there it resolves at once
    and appends no script. *)
Definition loadGoogleDriveScripts (picker_present : bool) (pickerInited gisInited : bool)
    (events : list ScriptEvent) : State :=
  if picker_present then mkState pickerInited gisInited Fulfilled
  else foldl on_event (mkState pickerInited gisInited Pending) events.

End DriveScripts.

(** ** The progress figure, count by count *)

(** What the figure [pct] shown for [settled] records out of [total] is
    checked for: it is a percentage, it reads 100 only when every record
    is settled and 0 only when none is, and no integer is nearer to
    [100 * settled / total]. *)
Definition percent_fits (settled total : nat) (pct : Z) : bool :=
  ((0 <=? pct) && (pct <=? 100)
   && Bool.eqb (pct =? 100) (settled =? total)%nat
   && Bool.eqb (pct =? 0) (settled =? 0)%nat
   && (Z.abs (200 * Z.of_nat settled - 2 * Z.of_nat total * pct)
       <=? Z.of_nat total))%Z.

(** The figure fits and does not fall when one more record settles. *)
Definition percent_checked (total settled : nat) : bool :=
  match App.percent_of settled total with
  | Some pct =>
      percent_fits settled total pct
      && (if (settled <? total)%nat then
            match App.percent_of (S settled) total with
            | Some pct' => (pct <=? pct')%Z
            | None => false
            end
          else true)
  | None => false
  end.

(** Every queue of 1 to [bound - 1] records, every count of settled
    records. *)
Definition percent_table_checked (bound : nat) : bool :=
  forallb (fun total => forallb (percent_checked total) (seq 0 (S total)))
    (seq 1 (bound - 1)).

(** A queue of [total] records, the first [settled] of them completed. *)
Definition partly_settled (settled total : nat) : list StudentSubmission :=
  (fun i => mkSubmission i [] (if (i <? settled)%nat then completed else pending)
              None None) <$> seq 0 total.

(** ** The live page

    [startGrading] and the bulk branch of [handleFileSelect] are [async]:
    at an [await] the handler is suspended and the page stays live, so the
    user can act and other suspended handlers and timers can run before it
    goes on.  Here a handler runs from one [await] to the next in one
    step, as JavaScript runs it, and what is suspended waits in the page's
    task list.  Whatever waits may be the next to run, and a call that
    never answers is a task that is never taken up again.  The overlay
    shown while a PDF is converted disables none of the controls under
    it, so the user may act then too. *)

Module Live.
Import App.

(** What waits to run. *)
Inductive Task :=
(* [startGrading] at [await gradeSubmission(...)], line 156, for record
   [i], with what its closure holds *)
| GradingRun (grader : Grader) (referenceFile : File) (m : GradingModel)
    (newSubmissions : list StudentSubmission) (i : nat)
(* [handleFileSelect] at [await convertPdfToImages(file)], line 80 *)
| PdfConversion (getDocument : File -> Completion Pdf.PdfDocument) (file : File)
    (pagesPerStudent : nat)
(* [handleCopyToClipboard] at [await navigator.clipboard.writeText(...)] *)
| ClipboardWrite (written : bool)
(* the [setTimeout] of [showToast], line 59 *)
| ToastTimer.

Record Page := mkPage {
  state : State;          (* what is on screen *)
  uuids : nat;            (* the next [uuidv4()] draw *)
  tasks : list Task       (* what waits, oldest first *)
}.

Definition initial : Page := mkPage App.initial 0 [].

(** A state update. *)
Definition update (e : Event) (p : Page) : Page :=
  mkPage (apply e (state p)) (uuids p) (tasks p).

(** One more task waits. *)
Definition enqueue (t : Task) (p : Page) : Page :=
  mkPage (state p) (uuids p) (tasks p ++ [t]).

(** [showToast], lines 57 to 60, with its timer. *)
Definition showToast (msg : Toast) (p : Page) : Page :=
  enqueue ToastTimer (update (SetToastMessage (Some msg)) p).

(** The head of the loop of lines 150 to 175 and what follows the loop:
    with a record left, mark it, publish, call the grader and wait for
    its answer; with none left, line 177. *)
Definition grading_loop (grader : Grader) (referenceFile : File) (m : GradingModel)
    (i : nat) (newSubmissions : list StudentSubmission) (p : Page) : Page :=
  match newSubmissions !! i with
  | Some s =>
      let newSubmissions := <[i := with_status processing s]> newSubmissions in
      enqueue (GradingRun grader referenceFile m newSubmissions i)
        (update (SetSubmissions newSubmissions) p)
  | None => update (SetIsGrading false) p
  end.

(** [startGrading] up to its first [await]. *)
Definition startGrading (grader : Grader) (p : Page) : Page :=
  match referenceFile (state p), submissions (state p) with
  | Some referenceFile, _ :: _ =>
      let newSubmissions := submissions (state p) in
      grading_loop grader referenceFile (model (state p)) 0 newSubmissions
        (update (SetToastMessage None)
           (update (SetCurrentStep GRADING) (update (SetIsGrading true) p)))
  | _, _ => p
  end.

(** The run goes on once the call for record [i] has answered: lines 158
    to 174, then the loop again. *)
Definition gradeSubmission_answered (grader : Grader) (referenceFile : File)
    (m : GradingModel) (newSubmissions : list StudentSubmission) (i : nat)
    (p : Page) : Page :=
  match newSubmissions !! i with
  | Some cur =>
      match grader i referenceFile (files cur) m with
      | Returned result =>
          let p := if bool_decide (hasOCRIssues result = Some true)
                   then showToast ToastOCRIssues p else p in
          let newSubmissions :=
            <[i := with_result result (with_status completed cur)]> newSubmissions in
          grading_loop grader referenceFile m (S i) newSubmissions
            (update (SetSubmissions newSubmissions) p)
      | Threw e =>
          let newSubmissions :=
            <[i := with_errorMsg (error_message e) (with_status error cur)]>
              newSubmissions in
          grading_loop grader referenceFile m (S i) newSubmissions
            (update (SetSubmissions newSubmissions) p)
      end
  | None => p
  end.

(** [handleFileSelect] up to its [await], or to its end where it has
    none. *)
Definition handleFileSelect (getDocument : File -> Completion Pdf.PdfDocument)
    (files : list File) (p : Page) : Page :=
  match files with
  | [] => p
  | file :: _ =>
      if isBulkMode (state p) then
        if bool_decide (file_type file ≠ js "application/pdf") then
          showToast ToastBulkPdfOnly p
        else
          enqueue (PdfConversion getDocument file (pagesPerStudent (state p)))
            (update (SetIsProcessingPdf true) p)
      else update (SetStagedFiles (stagedFiles (state p) ++ files)) p
  end.

(** The bulk upload goes on once the conversion has answered: lines 82 to
    102.  [None] if the loop of line 84 never ends. *)
Definition convertPdfToImages_answered
    (getDocument : File -> Completion Pdf.PdfDocument) (file : File)
    (pagesPerStudent : nat) (p : Page) : option Page :=
  match Pdf.convertPdfToImages getDocument file with
  | Returned images =>
      match split_students (length images) images pagesPerStudent 0 []
              (mkWorld (state p) (uuids p) []) with
      | Some (newSubmissions, w) =>
          let p := mkPage (state p) (next_uuid w) (tasks p) in
          let p := update (SetSubmissions (submissions (state p) ++ newSubmissions)) p in
          let p := showToast (ToastPdfDone (length newSubmissions)) p in
          Some (update (SetIsProcessingPdf false) p)
      | None => None
      end
  | Threw _ =>
      Some (update (SetIsProcessingPdf false) (showToast ToastPdfFailed p))
  end.

(** A handler that neither awaits nor starts a timer. *)
Definition run_handler (h : M unit) (p : Page) : option Page :=
  match h (mkWorld (state p) (uuids p) []) with
  | Some (_, w) => Some (mkPage (react w) (next_uuid w) (tasks p))
  | None => None
  end.

(** The handler behind a control, up to its first [await]. *)
Definition click (a : Ui.Action) (p : Page) : option Page :=
  match a with
  | Ui.StartGrading grader => Some (startGrading grader p)
  | Ui.PickFiles getDocument files => Some (handleFileSelect getDocument files p)
  | _ => run_handler (Ui.handler a) p
  end.

(** The two export buttons of the results table are on screen with the
    table and enabled while a record is completed. *)
Definition export_enabled (s : State) : bool :=
  Ui.is_step s GRADING
  && bool_decide (ResultsTable.completedSubmissions (submissions s) ≠ []).

(** What goes on when the task [t] is taken up again. *)
Definition resume (t : Task) (p : Page) : option Page :=
  match t with
  | GradingRun grader referenceFile m newSubmissions i =>
      Some (gradeSubmission_answered grader referenceFile m newSubmissions i p)
  | PdfConversion getDocument file pagesPerStudent =>
      convertPdfToImages_answered getDocument file pagesPerStudent p
  | ClipboardWrite written =>
      Some (showToast (if written then ToastCopied else ToastCopyFailed) p)
  | ToastTimer => Some (update (SetToastMessage None) p)
  end.

(** What can happen next on the page: the user works a control, or one of
    the waiting tasks is taken up again, its call answered or its six
    seconds over. *)
Inductive Happening :=
| Click (a : Ui.Action)
| ExportCSV
| CopyToClipboard (written : bool)
| Resume (k : nat).

Definition step (h : Happening) (p : Page) : option Page :=
  match h with
  | Click a => if Ui.enabled a (state p) then click a p else None
  | ExportCSV =>
      if export_enabled (state p) then Some (showToast ToastCsvDownloaded p)
      else None
  | CopyToClipboard written =>
      if export_enabled (state p) then Some (enqueue (ClipboardWrite written) p)
      else None
  | Resume k =>
      match tasks p !! k with
      | Some t => resume t (mkPage (state p) (uuids p) (delete k (tasks p)))
      | None => None
      end
  end.

(** The pages that can come about, starting from the first render. *)
Inductive reachable : Page -> Prop :=
| reachable_initial : reachable initial
| reachable_step h p p' : reachable p -> step h p = Some p' -> reachable p'.

(** A script of happenings, one after the other. *)
Definition happen_all (script : list Happening) (p : Page) : option Page :=
  foldl (fun op h => match op with Some p => step h p | None => None end)
    (Some p) script.

(** The task last put to wait is the next to run. *)
Definition resume_last (p : Page) : option Page :=
  step (Resume (length (tasks p) - 1)) p.

Fixpoint resume_last_times (n : nat) (p : Page) : option Page :=
  match n with
  | 0 => Some p
  | S n' =>
      match resume_last p with
      | Some p' => resume_last_times n' p'
      | None => None
      end
  end.

Definition is_run (t : Task) : Prop :=
  match t with GradingRun _ _ _ _ _ => True | _ => False end.

Definition is_conversion (t : Task) : Prop :=
  match t with PdfConversion _ _ _ => True | _ => False end.

(** What a waiting task holds is in order when [n] identifiers have been
    drawn: a run's copy of the queue has distinct identifiers, all drawn
    before, and the record it waits for exists; a conversion holds a page
    count of at least one. *)
Definition task_ok (n : nat) (t : Task) : Prop :=
  match t with
  | GradingRun _ _ _ newSubmissions i =>
      queue_ok (fun _ => True) n newSubmissions /\ i < length newSubmissions
  | PdfConversion _ _ pagesPerStudent => 1 <= pagesPerStudent
  | ClipboardWrite _ | ToastTimer => True
  end.

(** What every page that comes about satisfies. *)
Record invariant (p : Page) : Prop := mkInvariant {
  pages_positive : 1 <= pagesPerStudent (state p);
  reference_present :
    currentStep (state p) <> SETUP -> is_Some (referenceFile (state p));
  staging_empty : isBulkMode (state p) = true -> stagedFiles (state p) = [];
  grading_has_run : isGrading (state p) = true -> Exists is_run (tasks p);
  processing_has_conversion :
    isProcessingPdf (state p) = true -> Exists is_conversion (tasks p);
  toast_has_timer : is_Some (toastMessage (state p)) -> ToastTimer ∈ tasks p;
  queue_in_order : queue_ok (fun _ => True) (uuids p) (submissions (state p));
  tasks_in_order : Forall (task_ok (uuids p)) (tasks p)
}.

End Live.

(** ** A run that nothing interrupts *)

Section UninterruptedRun.
Variables (grader : App.Grader) (referenceFile : File) (m : GradingModel).
Variable queue : list StudentSubmission.
Variable p : Live.Page.

(** The timers started by the answers to the calls for the records [l]:
    one for each answer with the OCR flag up. *)
Definition toast_timers (l : list StudentSubmission) : list Live.Task :=
  concat (imap (fun j s => if flagged grader referenceFile m j s
                           then [Live.ToastTimer] else []) l).

(** What the run has done when it waits for the answer for record [j]. *)
Definition events_before (j : nat) (s : StudentSubmission) : list App.Event :=
  [App.SetIsGrading true; App.SetCurrentStep GRADING; App.SetToastMessage None]
    ++ concat (imap (record_events grader referenceFile m queue) (take j queue))
    ++ [App.SetSubmissions (snapshot_processing grader referenceFile m queue j s)].

(** The page while the run, started on [p], waits for the answer for
    record [j], nothing else having happened since the start. *)
Definition awaiting (j : nat) (s : StudentSubmission) : Live.Page :=
  Live.mkPage
    (App.react (after (events_before j s)
                  (App.mkWorld (Live.state p) (Live.uuids p) [])))
    (Live.uuids p)
    (Live.tasks p ++ toast_timers (take j queue)
       ++ [Live.GradingRun grader referenceFile m
             (snapshot_processing grader referenceFile m queue j s) j]).

(** The page when that run is over. *)
Definition run_over : Live.Page :=
  Live.mkPage
    (App.react (after (run_events grader referenceFile m queue)
                  (App.mkWorld (Live.state p) (Live.uuids p) [])))
    (Live.uuids p)
    (Live.tasks p ++ toast_timers queue).

End UninterruptedRun.

(** ** Sample pages *)

(** The page a script of happenings leads to from the first render. *)
Definition page_after (script : list Live.Happening) : Live.Page :=
  default Live.initial (Live.happen_all script Live.initial).

(** The answer key loaded and two one-page students queued. *)
Definition queue_two : list Live.Happening :=
  [Live.Click (Ui.PickReference [key_file]); Live.Click Ui.NextToUpload;
   Live.Click (Ui.PickFiles no_pdf [page 1]); Live.Click Ui.AddStudentToQueue;
   Live.Click (Ui.PickFiles no_pdf [page 2]); Live.Click Ui.AddStudentToQueue].

Definition two_queued : Live.Page := page_after queue_two.

(** Grading started on them: the run waits for its first answer. *)
Definition first_call_pending : Live.Page :=
  page_after (queue_two ++ [Live.Click (Ui.StartGrading all_pass)]).

(** The first answer is in and the run waits for the second. *)
Definition second_call_pending : Live.Page :=
  page_after (queue_two ++ [Live.Click (Ui.StartGrading all_pass); Live.Resume 0]).

(** With the first call still pending the user removes the answer key,
    loads it again and is back at the upload step. *)
Definition swap_reference : list Live.Happening :=
  [Live.Click Ui.RemoveReference; Live.Click (Ui.PickReference [key_file]);
   Live.Click Ui.NextToUpload].

Definition back_at_upload : Live.Page :=
  page_after (queue_two ++ [Live.Click (Ui.StartGrading all_pass)] ++ swap_reference).

(** A second run started there, then both answers to the first run: the
    first run is over, the second still waits for its first answer. *)
Definition first_of_two_runs_over : Live.Page :=
  page_after (queue_two ++ [Live.Click (Ui.StartGrading all_pass)] ++ swap_reference
                ++ [Live.Click (Ui.StartGrading all_pass); Live.Resume 0; Live.Resume 1]).

(** In bulk mode an image is refused, then a two-page PDF is picked and
    converted: the second toast is up and both timers wait. *)
Definition two_toasts : Live.Page :=
  page_after
    [Live.Click (Ui.PickReference [key_file]); Live.Click Ui.NextToUpload;
     Live.Click Ui.ToggleBulkMode;
     Live.Click (Ui.PickFiles both_pages_fine [page 1]);
     Live.Click (Ui.PickFiles both_pages_fine [exams_pdf]);
     Live.Resume 1].
(** * Theorems *)

(** ** Handlers as state transformers *)

Section Handlers.
Import App.
Local Open Scope handler_scope.

Lemma bind_Some {A B} (m : M A) (k : A -> M B) w a w' :
  m w = Some (a, w') -> bind m k w = k a w'.
Proof. unfold bind. by intros ->. Qed.

End Handlers.

(** ** The student segmenter (C2) *)

Section Segmenter.
Import App.
Local Open Scope handler_scope.

Lemma ceil_div_small n p : 0 < n -> n <= p -> ceil_div n p = 1.
Proof.
  intros Hn Hp. unfold ceil_div.
  symmetry. apply (Nat.div_unique _ _ _ (n - 1)); lia.
Qed.

Lemma ceil_div_step n p : 0 < p -> 0 < n -> ceil_div (p + n) p = S (ceil_div n p).
Proof.
  intros Hp Hn. unfold ceil_div.
  replace (p + n + p - 1) with ((n + p - 1) + 1 * p) by lia.
  rewrite Nat.div_add by lia. lia.
Qed.

Lemma last_size_small n p : 0 < n -> n <= p -> last_size n p = n.
Proof.
  intros Hn Hp. unfold last_size.
  destruct (decide (n = p)) as [->|Hne].
  - rewrite Nat.Div0.mod_same. by rewrite decide_True.
  - rewrite Nat.mod_small by lia. rewrite decide_False; lia.
Qed.

Lemma last_size_step n p : 0 < p -> last_size (p + n) p = last_size n p.
Proof.
  intros Hp. unfold last_size.
  replace (p + n) with (n + 1 * p) by lia.
  by rewrite Nat.Div0.mod_add.
Qed.

Lemma chunked_nonempty p l cs : chunked p l cs -> l <> [] -> cs <> [].
Proof. by destruct 1. Qed.

Lemma chunked_of_nil p cs : chunked p [] cs -> cs = [].
Proof.
  intros H. remember [] as l eqn:E.
  destruct H as [|l Hl1 Hl2|l rest cs Hl Hrest Hcs]; subst.
  - done.
  - simpl in Hl1. lia.
  - by apply app_eq_nil in E as [_ ?].
Qed.

(** What a cut into runs of [p] looks like, in numbers. *)
Lemma chunked_shape p l cs :
  0 < p -> chunked p l cs ->
  length cs = ceil_div (length l) p
  /\ concat cs = l
  /\ (forall j c, j + 1 < length cs -> cs !! j = Some c -> length c = p)
  /\ (forall c, last cs = Some c -> length c = last_size (length l) p).
Proof.
  intros Hp. induction 1 as [|l Hl1 Hl2|l rest cs Hl Hrest Hcs IH].
  - split_and!; try done.
    unfold ceil_div. simpl. symmetry. apply Nat.div_small. lia.
  - split_and!.
    + by rewrite ceil_div_small.
    + simpl. by rewrite app_nil_r.
    + simpl. intros j c Hj. lia.
    + simpl. intros c [= <-]. by rewrite last_size_small.
  - destruct IH as (IH1 & IH2 & IH3 & IH4).
    assert (0 < length rest) by (destruct rest; simpl; [done | lia]).
    assert (cs <> []) as Hne by eauto using chunked_nonempty.
    split_and!.
    + rewrite length_app, Hl, ceil_div_step by lia. simpl. by rewrite IH1.
    + simpl. by rewrite IH2.
    + intros [|j] c Hj Hc; simpl in *.
      * by injection Hc as <-.
      * apply (IH3 j); [lia | done].
    + intros c Hc. rewrite length_app, Hl, last_size_step by lia.
      apply IH4. destruct cs; [done | exact Hc].
Qed.

Lemma slice_take_drop {A} (l : list A) i p : slice l i (i + p) = take p (drop i l).
Proof. unfold slice. f_equal. lia. Qed.

(** The loop cuts what is left of the pages from index [i] on, drawing
    one identifier per record. *)
Lemma split_students_from p images :
  0 < p ->
  forall fuel i acc w,
    length images - i <= fuel ->
    exists recs,
      split_students fuel images p i acc w
        = Some (acc ++ recs,
                mkWorld (react w) (next_uuid w + length recs) (trace w))
      /\ chunked p (drop i images) (files <$> recs)
      /\ Forall fresh recs
      /\ id <$> recs = seq (next_uuid w) (length recs).
Proof.
  intros Hp fuel. induction fuel as [|fuel IH]; intros i acc w Hfuel.
  - exists []. simpl. rewrite decide_False by lia.
    rewrite drop_ge by lia. rewrite app_nil_r, Nat.add_0_r.
    repeat split; try constructor. by destruct w.
  - simpl. destruct (decide (i < length images)) as [Hi|Hi].
    + rewrite slice_take_drop.
      assert (0 < length (take p (drop i images))) as Hlen
        by (rewrite length_take, length_drop; lia).
      rewrite decide_True by done.
      unfold bind at 1. simpl.
      set (r := mkSubmission (next_uuid w) (take p (drop i images)) pending None None).
      set (w1 := mkWorld (react w) (S (next_uuid w)) (trace w)).
      destruct (IH (i + p) (acc ++ [r]) w1) as (recs & Hrun & Hch & Hall & Hids);
        [lia|].
      exists (r :: recs). rewrite Hrun. simpl.
      replace (acc ++ r :: recs) with ((acc ++ [r]) ++ recs)
        by (rewrite <- app_assoc; done).
      replace (next_uuid w + S (length recs)) with (S (next_uuid w + length recs))
        by lia.
      repeat split; try done.
      * destruct (decide (length images <= i + p)) as [Hend|Hmore].
        -- rewrite drop_ge in Hch by lia.
           apply chunked_of_nil, fmap_nil_inv in Hch. subst recs. simpl.
           rewrite take_ge by (rewrite length_drop; lia).
           apply chunked_last; rewrite length_drop; lia.
        -- rewrite <- (take_drop p (drop i images)) at 1.
           apply chunked_cons.
           ++ rewrite length_take, length_drop. lia.
           ++ rewrite drop_drop. intros Hnil.
              apply (f_equal length) in Hnil. rewrite length_drop in Hnil.
              simpl in Hnil. lia.
           ++ rewrite drop_drop. exact Hch.
      * constructor; [done | exact Hall].
      * f_equal. exact Hids.
    + exists []. rewrite drop_ge by lia. rewrite app_nil_r, Nat.add_0_r.
      repeat split; try constructor. by destruct w.
Qed.

End Segmenter.

Section SegmenterClaims.
Import App.

(** C2 (amended).  For every positive [p] and every sequence of [n] page
    images the split returns, and it returns ceil(n/p) records, each
    [pending]; every record but the last holds exactly [p] pages, the last
    holds [n mod p] pages (or [p] when [n mod p = 0]); the records' pages,
    concatenated in record order, are the original sequence; [n = 0] gives
    no record, and [0 < n < p] gives exactly one record holding every
    page. *)
Theorem C2_split_students (images : list File) (p : nat) (w : World) :
  0 < p ->
  exists records w',
    split_students (length images) images p 0 [] w = Some (records, w')
    /\ length records = ceil_div (length images) p
    /\ Forall (fun r => status r = pending) records
    /\ (forall j r, j + 1 < length records -> records !! j = Some r ->
          length (files r) = p)
    /\ (forall r, last records = Some r ->
          length (files r) = last_size (length images) p)
    /\ concat (files <$> records) = images
    /\ (length images = 0 -> records = [])
    /\ (0 < length images -> length images < p ->
          exists r, records = [r] /\ files r = images).
Proof.
  intros Hp.
  destruct (split_students_from p images Hp (length images) 0 [] w)
    as (recs & Hrun & Hch & Hall & _); [lia|].
  rewrite drop_0 in Hch.
  destruct (chunked_shape p images (files <$> recs) Hp Hch)
    as (Hlen & Hcat & Hfull & Hlast).
  rewrite length_fmap in Hlen.
  exists recs. eexists. split; [exact Hrun|].
  split_and!.
  - exact Hlen.
  - eapply Forall_impl; [exact Hall|]. by intros r (? & _).
  - intros j r Hj Hr. apply (Hfull j).
    + by rewrite length_fmap.
    + by rewrite list_lookup_fmap, Hr.
  - intros r Hr. apply Hlast. by rewrite fmap_last, Hr.
  - exact Hcat.
  - intros Hn. apply nil_length_inv.
    rewrite Hlen, Hn. unfold ceil_div. apply Nat.div_small. lia.
  - intros Hn Hlt.
    rewrite ceil_div_small in Hlen by lia.
    destruct recs as [|r [|r' recs]]; simpl in Hlen; try lia.
    exists r. split; [done|].
    simpl in Hcat. by rewrite app_nil_r in Hcat.
Qed.

Lemma C2_split_students_witness :
  exists records w',
    split_students 3 [page 1; page 2; page 3] 2 0 [] (mkWorld initial 0 [])
      = Some (records, w')
    /\ length records = ceil_div 3 2
    /\ Forall (fun r => status r = pending) records
    /\ (forall j r, j + 1 < length records -> records !! j = Some r ->
          length (files r) = 2)
    /\ (forall r, last records = Some r -> length (files r) = last_size 3 2)
    /\ concat (files <$> records) = [page 1; page 2; page 3]
    /\ (3 = 0 -> records = [])
    /\ (0 < 3 -> 3 < 2 -> exists r, records = [r] /\ files r = [page 1; page 2; page 3]).
Proof.
  exact (C2_split_students [page 1; page 2; page 3] 2 (mkWorld initial 0 [])
           (Nat.lt_0_succ 1)).
Defined.

(** Five pages, two per student: records of 2, 2 and 1 pages. *)
Example split_five_by_two :
  (fst <$> split_students 5 [page 1; page 2; page 3; page 4; page 5] 2 0 []
             (mkWorld initial 0 []))
  = Some [mkSubmission 0 [page 1; page 2] pending None None;
          mkSubmission 1 [page 3; page 4] pending None None;
          mkSubmission 2 [page 5] pending None None].
Proof. reflexivity. Qed.

(** C2 as stated fails where it says that [p > n] always gives exactly
    one record: with no page at all and [p = 1] there is no record. *)
Lemma C2_counterexample :
  ~ (forall (images : list File) (p : nat) (w : World),
       0 < p -> length images < p ->
       exists r w',
         split_students (length images) images p 0 [] w = Some ([r], w')
         /\ files r = images).
Proof.
  intros H.
  destruct (H [] 1 (mkWorld initial 0 [])) as (r & w' & Hrun & _);
    [simpl; lia | simpl; lia |].
  discriminate Hrun.
Qed.

End SegmenterClaims.

(** ** The grading run (C1, C3, C8, C10) *)

Section GradingRun.
Import App.
Local Open Scope handler_scope.

Lemma after_nil w : after [] w = w.
Proof. destruct w. unfold after. simpl. by rewrite app_nil_r. Qed.

Lemma after_app evs1 evs2 w : after (evs1 ++ evs2) w = after evs2 (after evs1 w).
Proof. unfold after. simpl. by rewrite foldl_app, app_assoc. Qed.

Lemma emit_after e w : emit e w = Some (tt, after [e] w).
Proof. reflexivity. Qed.

Variables (grader : Grader) (referenceFile : File) (m : GradingModel).
Variable queue : list StudentSubmission.

Abbreviation settled_upto := (snapshot_settled grader referenceFile m queue).
Abbreviation processing_at := (snapshot_processing grader referenceFile m queue).
Abbreviation events_of := (record_events grader referenceFile m queue).

Lemma snapshot_settled_lookup i s :
  queue !! i = Some s -> settled_upto i !! i = Some s.
Proof.
  intros Hs. unfold snapshot_settled.
  pose proof (lookup_lt_Some _ _ _ Hs) as Hi.
  rewrite lookup_app_r; rewrite length_imap, length_take; [|lia].
  replace (i - i `min` length queue) with 0 by lia.
  by rewrite lookup_drop, Nat.add_0_r.
Qed.

Lemma snapshot_settled_lookup_None i :
  length queue <= i -> settled_upto i !! i = None.
Proof.
  intros Hi. apply lookup_ge_None.
  unfold snapshot_settled. rewrite length_app, length_imap, length_take, length_drop.
  lia.
Qed.

Lemma insert_processing i s :
  queue !! i = Some s ->
  <[i := with_status processing s]> (settled_upto i) = processing_at i s.
Proof.
  intros Hs. unfold snapshot_settled, snapshot_processing.
  pose proof (lookup_lt_Some _ _ _ Hs) as Hi.
  rewrite insert_app_r_alt; rewrite length_imap, length_take; [|lia].
  replace (i - i `min` length queue) with 0 by lia.
  by rewrite (drop_S _ _ _ Hs).
Qed.

Lemma insert_settled i s x :
  queue !! i = Some s ->
  x = graded grader referenceFile m i s ->
  <[i := x]> (processing_at i s) = settled_upto (S i).
Proof.
  intros Hs ->. unfold snapshot_settled, snapshot_processing.
  pose proof (lookup_lt_Some _ _ _ Hs) as Hi.
  rewrite insert_app_r_alt; rewrite length_imap, length_take; [|lia].
  replace (i - i `min` length queue) with 0 by lia.
  rewrite (take_S_r _ _ _ Hs), imap_app. simpl.
  rewrite length_take. replace (i `min` length queue + 0) with i by lia.
  by rewrite <- app_assoc.
Qed.

Lemma after_cons e evs w : after (e :: evs) w = after evs (after [e] w).
Proof. apply (after_app [e] evs). Qed.

Lemma events_from_unfold i s :
  queue !! i = Some s ->
  concat (imap (fun k => events_of (i + k)) (drop i queue))
  = events_of i s ++ concat (imap (fun k => events_of (S i + k)) (drop (S i) queue)).
Proof.
  intros Hs. rewrite (drop_S _ _ _ Hs), imap_cons. cbn [concat].
  rewrite Nat.add_0_r. f_equal. f_equal.
  apply imap_ext. intros k y _. unfold compose.
  by replace (i + S k) with (S i + k) by lia.
Qed.

(** The two ends of one iteration: publish the settled record, go on. *)
Lemma iteration_end fuel i s x w :
  (forall i w,
      length queue - i <= fuel ->
      grading_loop fuel grader referenceFile m i (settled_upto i) w
      = Some (tt, after (concat (imap (fun k => events_of (i + k)) (drop i queue))) w)) ->
  length queue - S i <= fuel ->
  queue !! i = Some s ->
  x = graded grader referenceFile m i s ->
  (setSubmissions (<[i := x]> (processing_at i s)) ;;
   grading_loop fuel grader referenceFile m (S i) (<[i := x]> (processing_at i s)))
    w
  = Some (tt, after (concat (imap (fun k => events_of (S i + k)) (drop (S i) queue)))
                (after [SetSubmissions (settled_upto (S i))] w)).
Proof.
  intros IH Hfuel Hs Hx. rewrite (insert_settled _ _ _ Hs Hx).
  unfold setSubmissions. erewrite bind_Some by apply emit_after.
  by rewrite IH.
Qed.

(** From record [i] on, the loop does for each record what
    [record_events] lists, and returns. *)
Lemma grading_loop_from fuel :
  forall i w,
    length queue - i <= fuel ->
    grading_loop fuel grader referenceFile m i (settled_upto i) w
    = Some (tt, after (concat (imap (fun k => events_of (i + k)) (drop i queue))) w).
Proof.
  induction fuel as [|fuel IH]; intros i w Hfuel.
  - cbn [grading_loop]. rewrite snapshot_settled_lookup_None by lia.
    rewrite drop_ge by lia. cbn. by rewrite after_nil.
  - cbn [grading_loop]. destruct (queue !! i) as [s|] eqn:Hs.
    + rewrite (snapshot_settled_lookup _ _ Hs).
      rewrite (insert_processing _ _ Hs).
      rewrite (events_from_unfold _ _ Hs), after_app.
      unfold record_events.
      change ([SetSubmissions (processing_at i s);
               CallGradeSubmission referenceFile (files s) m] ++ ?t)
        with (SetSubmissions (processing_at i s)
                :: CallGradeSubmission referenceFile (files s) m :: t).
      rewrite 2!after_cons, after_app.
      unfold setSubmissions at 1. erewrite bind_Some by apply emit_after.
      unfold await_gradeSubmission.
      erewrite bind_Some; [|erewrite bind_Some by apply emit_after; reflexivity].
      cbn [files with_status].
      set (w1 := after _ (after _ w)).
      destruct (grader i referenceFile (files s) m) as [r|e] eqn:Hg.
      * cbn [ocr_toast].
        destruct (bool_decide (hasOCRIssues r = Some true)).
        -- erewrite bind_Some;
             [|erewrite bind_Some by (unfold showToast, setToastMessage; apply emit_after);
               reflexivity].
           apply iteration_end; [done | lia | done |].
           unfold graded, settle. by rewrite Hg.
        -- erewrite bind_Some; [|reflexivity]. rewrite after_nil.
           apply iteration_end; [done | lia | done |].
           unfold graded, settle. by rewrite Hg.
      * erewrite bind_Some; [|reflexivity]. cbn [ocr_toast]. rewrite after_nil.
        apply iteration_end; [done | lia | done |].
        unfold graded, settle. by rewrite Hg.
    + pose proof (lookup_ge_None_1 _ _ Hs).
      rewrite snapshot_settled_lookup_None by lia.
      rewrite drop_ge by lia. cbn. by rewrite after_nil.
Qed.

End GradingRun.

Section GradingRunFacts.
Import App.
Local Open Scope handler_scope.

Lemma publications_app evs1 evs2 :
  publications (evs1 ++ evs2) = publications evs1 ++ publications evs2.
Proof. apply omap_app. Qed.

(** The queue on screen is the one published last. *)
Lemma submissions_after evs w :
  submissions (react (after evs w))
  = default (submissions (react w)) (last (publications evs)).
Proof.
  unfold after. cbn [react]. generalize (react w) as s.
  induction evs as [|e evs IH]; intros s; [done|].
  cbn [foldl]. rewrite IH.
  destruct e as [| |subs| | | | | | | | |]; try done.
  change (publications (SetSubmissions subs :: evs)) with (subs :: publications evs).
  destruct (publications evs) as [|x l] eqn:E; [done|].
  change (last (subs :: x :: l)) with (last (x :: l)).
  destruct (last (x :: l)) eqn:El; [done|].
  by apply last_None in El.
Qed.

Lemma publications_concat_imap {A} (f : nat -> A -> list Event)
    (g : nat -> A -> list (list StudentSubmission)) (l : list A) :
  (forall j x, publications (f j x) = g j x) ->
  publications (concat (imap f l)) = concat (imap g l).
Proof.
  revert f g. induction l as [|x l IH]; intros f g H; [done|].
  rewrite !imap_cons. cbn [concat]. rewrite publications_app, H. f_equal.
  apply IH. intros j y. apply H.
Qed.

Variables (grader : Grader) (ref : File) (m : GradingModel).
Variable queue : list StudentSubmission.

Lemma snapshot_settled_0 : snapshot_settled grader ref m queue 0 = queue.
Proof. unfold snapshot_settled. by rewrite take_0, drop_0. Qed.

Lemma snapshot_settled_all :
  snapshot_settled grader ref m queue (length queue)
  = imap (graded grader ref m) queue.
Proof.
  unfold snapshot_settled. by rewrite firstn_all, drop_all, app_nil_r.
Qed.

(** A run with a reference file and a queue that is not empty returns,
    having done what [run_events] lists. *)
Lemma startGrading_runs w :
  referenceFile (react w) = Some ref ->
  model (react w) = m ->
  submissions (react w) = queue ->
  queue <> [] ->
  startGrading grader w = Some (tt, after (run_events grader ref m queue) w).
Proof.
  intros Href Hm Hq Hne.
  unfold run_events. rewrite 2!after_app.
  rewrite (after_cons (SetIsGrading true)), (after_cons (SetCurrentStep GRADING)).
  unfold startGrading, rendered.
  cbn [bind]. rewrite Href, Hm, Hq.
  destruct queue as [|s0 q0] eqn:Eq; [done|]. rewrite <- Eq in *.
  unfold setIsGrading, setCurrentStep, setToastMessage.
  do 3 (erewrite bind_Some by apply emit_after).
  set (w1 := after _ (after _ (after _ w))).
  pose proof (grading_loop_from grader ref m queue (length queue) 0 w1) as Hloop.
  rewrite snapshot_settled_0, drop_0 in Hloop.
  erewrite bind_Some by (apply Hloop; lia).
  apply emit_after.
Qed.

Lemma publications_ocr_toast c : publications (ocr_toast c) = [].
Proof. destruct c as [r|e]; cbn; [|done]. by case_bool_decide. Qed.

Lemma publications_records l :
  publications (concat (imap (record_events grader ref m queue) l))
  = concat (imap (fun j s => [snapshot_processing grader ref m queue j s;
                              snapshot_settled grader ref m queue (S j)]) l).
Proof.
  apply publications_concat_imap. intros j s. unfold record_events.
  rewrite !publications_app, publications_ocr_toast. done.
Qed.

(** What a run publishes: for each record in turn the queue with that
    record in [processing], then the queue with it settled. *)
Lemma publications_run :
  publications (run_events grader ref m queue)
  = concat (imap (fun j s => [snapshot_processing grader ref m queue j s;
                              snapshot_settled grader ref m queue (S j)]) queue).
Proof.
  unfold run_events. rewrite !publications_app, publications_records.
  cbn. by rewrite app_nil_r.
Qed.

End GradingRunFacts.

Section GradingClaims.
Import App.

Lemma startGrading_returns_at_once (grader : Grader) (w : World) :
  referenceFile (react w) = None \/ submissions (react w) = [] ->
  startGrading grader w = Some (tt, w).
Proof.
  intros H. unfold startGrading, rendered, bind.
  destruct H as [-> | ->]; [done|].
  by destruct (referenceFile (react w)).
Qed.

(** C10.  Invoked with no reference file or with an empty queue,
    [startGrading] returns at once and nothing has changed: no record, no
    step, no flag, and the trace has no new event, so no grading call was
    made and [isGrading] was never set. *)
Theorem C10_startGrading_noop (grader : Grader) (w : World) :
  referenceFile (react w) = None \/ submissions (react w) = [] ->
  startGrading grader w = Some (tt, w).
Proof.
  intros [Href | Hqueue]; unfold startGrading, rendered, bind.
  - by rewrite Href.
  - rewrite Hqueue. by destruct (referenceFile (react w)).
Qed.

Lemma C10_startGrading_noop_witness :
  startGrading all_pass (mkWorld initial 0 []) = Some (tt, mkWorld initial 0 []).
Proof.
  apply (C10_startGrading_noop all_pass (mkWorld initial 0 [])).
  left. reflexivity.
Defined.

Lemma last_concat_pairs {A B} (P Q : nat -> A -> B) (l : list A) :
  l <> [] ->
  exists s, last l = Some s
    /\ last (concat (imap (fun j s => [P j s; Q j s]) l)) = Some (Q (length l - 1) s).
Proof.
  destruct l as [|x l] using rev_ind; [done|]. intros _.
  exists x. rewrite last_snoc. split; [done|].
  rewrite imap_app, concat_app. cbn [imap concat].
  rewrite app_nil_r, length_app. cbn [length].
  replace (length l + 1 - 1) with (length l + 0) by lia.
  change [P (length l + 0) x; Q (length l + 0) x]
    with ([P (length l + 0) x] ++ [Q (length l + 0) x]).
  by rewrite !app_assoc, last_snoc.
Qed.

(** After a run over a queue that is not empty, the screen shows every
    record graded. *)
Lemma startGrading_final (grader : Grader) (w : World) (ref : File) :
  referenceFile (react w) = Some ref ->
  submissions (react w) <> [] ->
  exists w',
    startGrading grader w = Some (tt, w')
    /\ trace w' = trace w
         ++ run_events grader ref (model (react w)) (submissions (react w))
    /\ submissions (react w')
       = imap (graded grader ref (model (react w))) (submissions (react w)).
Proof.
  intros Href Hne. eexists. split; [by apply startGrading_runs|].
  split; [done|].
  rewrite submissions_after, publications_run.
  destruct (last_concat_pairs
              (snapshot_processing grader ref (model (react w)) (submissions (react w)))
              (fun j _ => snapshot_settled grader ref (model (react w))
                            (submissions (react w)) (S j))
              (submissions (react w)) Hne) as (s & _ & ->).
  cbn [default].
  replace (S (length (submissions (react w)) - 1))
    with (length (submissions (react w)))
    by (destruct (submissions (react w)); [done | cbn; lia]).
  apply snapshot_settled_all.
Qed.

Lemma call_in_run (grader : Grader) (ref : File) (m : GradingModel)
    (queue : list StudentSubmission) j s :
  queue !! j = Some s ->
  CallGradeSubmission ref (files s) m ∈ run_events grader ref m queue.
Proof.
  intros Hs. unfold run_events.
  apply elem_of_app. right. apply elem_of_app. left.
  apply list_elem_of_In, in_concat.
  exists (record_events grader ref m queue j s). split.
  - apply list_elem_of_In, elem_of_lookup_imap. eauto.
  - apply list_elem_of_In. unfold record_events. set_solver.
Qed.

(** C1 (amended).  A queue of pending records, a reference file, and a
    grading call that fails for record [k] only: the run returns; record
    [k] is in [error], with the failure's message in [errorMsg] when the
    failure is an [Error] and the text 'Unknown error' when it is any
    other thrown value; every other record is [completed] with the result
    its call returned; and every record, those after [k] included, had its
    grading call. *)
Theorem C1_single_failure (grader : Grader) (w : World) (ref : File)
    (k : nat) (e : Thrown) :
  referenceFile (react w) = Some ref ->
  Forall (fun s => status s = pending) (submissions (react w)) ->
  k < length (submissions (react w)) ->
  (forall j s, submissions (react w) !! j = Some s ->
     if decide (j = k)
     then grader j ref (files s) (model (react w)) = Threw e
     else exists r, grader j ref (files s) (model (react w)) = Returned r) ->
  exists w',
    startGrading grader w = Some (tt, w')
    /\ length (submissions (react w')) = length (submissions (react w))
    /\ forall j s, submissions (react w) !! j = Some s ->
         exists s',
           submissions (react w') !! j = Some s'
           /\ id s' = id s /\ files s' = files s
           /\ CallGradeSubmission ref (files s) (model (react w)) ∈ trace w'
           /\ if decide (j = k)
              then status s' = error
                   /\ errorMsg s'
                      = Some (match e with
                              | ErrorObj message => message
                              | NonError _ => js "Unknown error"
                              end)
              else status s' = completed
                   /\ exists r, grader j ref (files s) (model (react w)) = Returned r
                                /\ result s' = Some r.
Proof.
  intros Href _ Hk Hgr.
  destruct (startGrading_final grader w ref Href) as (w' & Hrun & Htr & Hfin).
  { intros Hnil. rewrite Hnil in Hk. cbn in Hk. lia. }
  exists w'. split; [done|]. rewrite Hfin. split; [apply length_imap|].
  intros j s Hs. specialize (Hgr j s Hs).
  exists (graded grader ref (model (react w)) j s).
  rewrite list_lookup_imap, Hs. split; [done|].
  unfold graded, settle.
  split_and!.
  - by destruct (grader j ref (files s) (model (react w))).
  - by destruct (grader j ref (files s) (model (react w))).
  - rewrite Htr. apply elem_of_app. right. by eapply call_in_run.
  - destruct (decide (j = k)) as [->|Hne].
    + rewrite Hgr. split; [done|]. by destruct e.
    + destruct Hgr as [r Hr]. rewrite Hr. eauto.
Qed.

Lemma C1_single_failure_witness :
  exists w',
    startGrading second_fails (ready three_pending) = Some (tt, w')
    /\ status <$> submissions (react w') = [completed; error; completed].
Proof.
  destruct (C1_single_failure second_fails (ready three_pending) key_file 1
              (ErrorObj (js "Empty response from model")))
    as (w' & Hrun & _ & _).
  - reflexivity.
  - repeat constructor.
  - cbn. lia.
  - intros j s Hs.
    destruct j as [|[|[|j]]]; cbn in Hs; try discriminate; injection Hs as <-;
      case_decide; try lia; cbn; eauto.
  - exists w'. split; [exact Hrun|].
    cbv in Hrun. by injection Hrun as <-.
Defined.

(** C1 as stated fails for a failure that is no [Error], such as the
    event a [FileReader] rejects with: what is stored then is 'Unknown
    error', the same for every such failure, and not what the failure
    carries. *)
Lemma C1_counterexample :
  ~ (forall (grader : Grader) (w : World) (ref : File) (k : nat) (e : Thrown),
       referenceFile (react w) = Some ref ->
       Forall (fun s => status s = pending) (submissions (react w)) ->
       k < length (submissions (react w)) ->
       (forall j s, submissions (react w) !! j = Some s ->
          if decide (j = k)
          then grader j ref (files s) (model (react w)) = Threw e
          else exists r, grader j ref (files s) (model (react w)) = Returned r) ->
       exists w' s',
         startGrading grader w = Some (tt, w')
         /\ submissions (react w') !! k = Some s'
         /\ status s' = error
         /\ errorMsg s' = Some (failure_message e)).
Proof.
  intros Hclaim.
  destruct (Hclaim second_unreadable (ready three_pending) key_file 1
              (NonError (js "ProgressEvent")))
    as (w' & s' & Hrun & Hs' & _ & Hmsg).
  - reflexivity.
  - repeat constructor.
  - cbn. lia.
  - intros j s Hs.
    destruct j as [|[|[|j]]]; cbn in Hs; try discriminate; injection Hs as <-;
      case_decide; try lia; cbn; eauto.
  - vm_compute in Hrun. injection Hrun as <-.
    vm_compute in Hs'. injection Hs' as <-.
    vm_compute in Hmsg. discriminate.
Qed.

End GradingClaims.

Section SequentialRun.
Import App.

Lemma filter_concat_imap {A} (keep : Event -> bool) (f g : nat -> A -> list Event)
    (l : list A) :
  (forall j x, List.filter keep (f j x) = g j x) ->
  List.filter keep (concat (imap f l)) = concat (imap g l).
Proof.
  revert f g. induction l as [|x l IH]; intros f g H; [done|].
  rewrite !imap_cons. cbn [concat]. rewrite List.filter_app, H. f_equal.
  apply IH. intros j y. apply H.
Qed.

Lemma filter_ocr_toast c : List.filter grading_step (ocr_toast c) = [].
Proof. destruct c as [r|e]; cbn; [|done]. by case_bool_decide. Qed.

Variables (grader : Grader) (ref : File) (m : GradingModel).
Variable queue : list StudentSubmission.

Lemma grading_steps_run :
  List.filter grading_step (run_events grader ref m queue)
  = concat (imap (record_steps grader ref m queue) queue).
Proof.
  unfold run_events. rewrite !List.filter_app. cbn [List.filter grading_step].
  rewrite app_nil_r. cbn [app].
  apply filter_concat_imap. intros j s. unfold record_events, record_steps.
  rewrite !List.filter_app, filter_ocr_toast. done.
Qed.

Lemma status_graded j s :
  status (graded grader ref m j s) = terminal_status grader ref m j s.
Proof.
  unfold graded, settle, terminal_status.
  by destruct (grader j ref (files s) m).
Qed.

Lemma statuses_graded (l : list StudentSubmission) :
  status <$> imap (graded grader ref m) l = imap (terminal_status grader ref m) l.
Proof.
  rewrite fmap_imap. apply imap_ext. intros j s _. apply status_graded.
Qed.

Lemma statuses_processing j s :
  status <$> snapshot_processing grader ref m queue j s
  = imap (terminal_status grader ref m) (take j queue)
      ++ processing :: (status <$> drop (S j) queue).
Proof.
  unfold snapshot_processing. by rewrite fmap_app, statuses_graded.
Qed.

Lemma statuses_settled j :
  status <$> snapshot_settled grader ref m queue j
  = imap (terminal_status grader ref m) (take j queue) ++ (status <$> drop j queue).
Proof.
  unfold snapshot_settled. by rewrite fmap_app, statuses_graded.
Qed.

End SequentialRun.

Section SequentialClaim.
Import App.

(** C3.  The run works through the queue in order, one record at a time:
    its publications and grading calls are, for record 1, then record 2,
    and so on, the queue with that record in [processing], then the
    record's grading call, then the queue with the record in its terminal
    status; in each of these queues the records before it have their
    terminal statuses and the records after it the status they had. *)
Theorem C3_sequential_run (grader : Grader) (w : World) (ref : File) :
  referenceFile (react w) = Some ref ->
  submissions (react w) <> [] ->
  exists w' evs,
    startGrading grader w = Some (tt, w')
    /\ trace w' = trace w ++ evs
    /\ List.filter grading_step evs
       = concat (imap (record_steps grader ref (model (react w))
                         (submissions (react w)))
                   (submissions (react w)))
    /\ forall j s,
         submissions (react w) !! j = Some s ->
         status <$> snapshot_processing grader ref (model (react w))
                      (submissions (react w)) j s
         = imap (terminal_status grader ref (model (react w)))
             (take j (submissions (react w)))
             ++ processing :: (status <$> drop (S j) (submissions (react w)))
         /\ status <$> snapshot_settled grader ref (model (react w))
                         (submissions (react w)) (S j)
            = imap (terminal_status grader ref (model (react w)))
                (take (S j) (submissions (react w)))
                ++ (status <$> drop (S j) (submissions (react w))).
Proof.
  intros Href Hne.
  destruct (startGrading_final grader w ref Href Hne) as (w' & Hrun & Htr & _).
  exists w', (run_events grader ref (model (react w)) (submissions (react w))).
  split_and!; try done.
  - apply grading_steps_run.
  - intros j s _. split; [apply statuses_processing | apply statuses_settled].
Qed.

Lemma C3_sequential_run_witness :
  exists w' evs,
    startGrading second_fails (ready three_pending) = Some (tt, w')
    /\ trace w' = evs
    /\ (fun e => match e with
                 | SetSubmissions subs => inl (status <$> subs)
                 | _ => inr tt
                 end) <$> List.filter grading_step evs
       = [inl [processing; pending; pending]; inr tt;
          inl [completed; pending; pending];
          inl [completed; processing; pending]; inr tt;
          inl [completed; error; pending];
          inl [completed; error; processing]; inr tt;
          inl [completed; error; completed]].
Proof.
  destruct (C3_sequential_run second_fails (ready three_pending) key_file)
    as (w' & evs & Hrun & Htr & Hsteps & _).
  - reflexivity.
  - discriminate.
  - exists w', evs. split; [exact Hrun|]. split; [exact Htr|].
    rewrite Hsteps. reflexivity.
Defined.

End SequentialClaim.

(** ** Progress (C8) *)

Section Progress.
Import App.

Lemma settled_count_split (l : list StudentSubmission) :
  settled_count l = count_status completed l + count_status error l.
Proof.
  unfold settled_count, count_status.
  induction l as [|s l IH]; [done|].
  rewrite !filter_cons.
  destruct (status s); repeat case_decide;
    try (exfalso; intuition congruence); cbn; lia.
Qed.

(** The bar's ratio is the claim's formula. *)
Lemma progress_ratio_formula (l : list StudentSubmission) :
  l <> [] ->
  progress_ratio l
  = Some (Z.of_nat (count_status completed l + count_status error l)
          # Pos.of_nat (length l)).
Proof.
  intros Hne. unfold progress_ratio.
  destruct l as [|s l]; [done|]. cbn [length].
  by rewrite <- settled_count_split.
Qed.

Lemma settled_count_app l1 l2 :
  settled_count (l1 ++ l2) = settled_count l1 + settled_count l2.
Proof. unfold settled_count. by rewrite filter_app, length_app. Qed.

Lemma settled_count_all l :
  Forall (fun s => status s = completed \/ status s = error) l ->
  settled_count l = length l.
Proof.
  unfold settled_count. induction 1 as [|s l Hs Hl IH]; [done|].
  rewrite filter_cons, decide_True by done. cbn. by rewrite IH.
Qed.

Lemma settled_count_none l :
  Forall (fun s => status s <> completed /\ status s <> error) l ->
  settled_count l = 0.
Proof.
  unfold settled_count. induction 1 as [|s l Hs Hl IH]; [done|].
  rewrite filter_cons, decide_False by tauto. done.
Qed.

Lemma pairs_monotone {A B} (c : B -> nat) (P Q : nat -> A -> B) (l : list A) :
  (forall j s, l !! j = Some s -> c (P j s) = j /\ c (Q j s) = S j) ->
  (forall x, x ∈ concat (imap (fun j s => [P j s; Q j s]) l) -> c x <= length l)
  /\ (forall k a b,
        concat (imap (fun j s => [P j s; Q j s]) l) !! k = Some a ->
        concat (imap (fun j s => [P j s; Q j s]) l) !! S k = Some b ->
        c a <= c b).
Proof.
  induction l as [|s l IH] using rev_ind; intros H.
  - split; [by intros x Hx%elem_of_nil | done].
  - destruct IH as [IH1 IH2].
    { intros j y Hy. apply H. by apply lookup_app_l_Some. }
    destruct (H (length l) s) as [HP HQ]; [apply list_lookup_middle; done|].
    rewrite imap_app, concat_app. cbn [imap concat]. rewrite app_nil_r.
    rewrite Nat.add_0_r, length_app. cbn [length].
    set (L := concat (imap (fun j s => [P j s; Q j s]) l)) in *.
    split.
    + intros x [Hx|Hx]%elem_of_app.
      * specialize (IH1 x Hx). lia.
      * apply elem_of_cons in Hx as [->|Hx]; [lia|].
        apply list_elem_of_singleton in Hx as ->. lia.
    + intros k a b [Ha|[Hk Ha]]%lookup_app_Some [Hb|[Hk' Hb]]%lookup_app_Some.
      * by eapply IH2.
      * apply lookup_lt_Some in Ha as Hlt.
        replace (S k - length L) with 0 in Hb by lia.
        injection Hb as <-. rewrite HP. apply IH1.
        eapply list_elem_of_lookup_2. exact Ha.
      * apply lookup_lt_Some in Hb. lia.
      * replace (S k - length L) with (S (k - length L)) in Hb by lia.
        destruct (k - length L) as [|[|n]]; cbn in Ha, Hb; try done.
        injection Ha as <-. injection Hb as <-. lia.
Qed.

Variables (grader : Grader) (ref : File) (m : GradingModel).
Variable queue : list StudentSubmission.

Lemma length_snapshot_settled j :
  length (snapshot_settled grader ref m queue j) = length queue.
Proof.
  unfold snapshot_settled.
  rewrite length_app, length_imap, length_take, length_drop. lia.
Qed.

Lemma length_snapshot_processing j s :
  queue !! j = Some s ->
  length (snapshot_processing grader ref m queue j s) = length queue.
Proof.
  intros Hs%lookup_lt_Some. unfold snapshot_processing.
  rewrite length_app, length_imap, length_take. cbn [length].
  rewrite length_drop. lia.
Qed.

Lemma graded_all_settled (l : list StudentSubmission) :
  Forall (fun s => status s = completed \/ status s = error)
    (imap (graded grader ref m) l).
Proof.
  apply Forall_forall. intros x (j & s & -> & _)%elem_of_lookup_imap.
  rewrite status_graded. unfold terminal_status.
  destruct (grader j ref (files s) m); auto.
Qed.

Lemma settled_count_drop_step j :
  settled_count (drop j queue) <= 1 + settled_count (drop (S j) queue).
Proof.
  destruct (queue !! j) as [s|] eqn:Hs.
  - rewrite (drop_S _ _ _ Hs). change (s :: ?l) with ([s] ++ l).
    rewrite settled_count_app. unfold settled_count at 1.
    pose proof (length_filter (fun s => status s = completed \/ status s = error) [s]).
    cbn in *. lia.
  - rewrite !drop_ge by (apply lookup_ge_None in Hs; lia). cbn. lia.
Qed.

Lemma settled_count_settled_upto j :
  j <= length queue ->
  settled_count (snapshot_settled grader ref m queue j)
  = j + settled_count (drop j queue).
Proof.
  intros Hj. unfold snapshot_settled.
  rewrite settled_count_app, settled_count_all by apply graded_all_settled.
  rewrite length_imap, length_take. lia.
Qed.

Lemma settled_count_processing_at j s :
  queue !! j = Some s ->
  settled_count (snapshot_processing grader ref m queue j s)
  = j + settled_count (drop (S j) queue).
Proof.
  intros Hs. pose proof (lookup_lt_Some _ _ _ Hs).
  unfold snapshot_processing.
  rewrite settled_count_app, settled_count_all by apply graded_all_settled.
  rewrite length_imap, length_take.
  change (with_status processing s :: ?l) with ([with_status processing s] ++ l).
  rewrite settled_count_app.
  replace (settled_count [with_status processing s]) with 0; [lia|].
  unfold settled_count. rewrite filter_cons_False; [done|]. cbn. intuition congruence.
Qed.

Hypothesis none_settled :
  Forall (fun s => status s <> completed /\ status s <> error) queue.

Lemma settled_count_settled j :
  j <= length queue ->
  settled_count (snapshot_settled grader ref m queue j) = j.
Proof.
  intros Hj. unfold snapshot_settled.
  rewrite settled_count_app, settled_count_all by apply graded_all_settled.
  rewrite settled_count_none by (by apply Forall_drop).
  rewrite length_imap, length_take. lia.
Qed.

Lemma settled_count_processing j s :
  queue !! j = Some s ->
  settled_count (snapshot_processing grader ref m queue j s) = j.
Proof.
  intros Hs. pose proof (lookup_lt_Some _ _ _ Hs).
  unfold snapshot_processing.
  rewrite settled_count_app, settled_count_all by apply graded_all_settled.
  rewrite settled_count_none.
  - rewrite length_imap, length_take. lia.
  - constructor; [by cbn | by apply Forall_drop].
Qed.

End Progress.

Section ProgressClaim.
Import App.

Lemma progress_ratio_count (l : list StudentSubmission) :
  l <> [] ->
  progress_ratio l = Some (Z.of_nat (settled_count l) # Pos.of_nat (length l)).
Proof. intros Hne. unfold progress_ratio. by destruct l. Qed.

Lemma Qle_same_denominator (a b : nat) (d : positive) :
  a <= b -> (Z.of_nat a # d <= Z.of_nat b # d)%Q.
Proof. intros Hab. unfold Qle. cbn. nia. Qed.

Lemma Qeq_full (n : nat) : n <> 0 -> (Z.of_nat n # Pos.of_nat n == 1)%Q.
Proof.
  intros Hn. unfold Qeq. cbn.
  assert (Z.pos (Pos.of_nat n) = Z.of_nat n) as ->
    by (rewrite <- (positive_nat_Z (Pos.of_nat n)), Nat2Pos.id; done).
  lia.
Qed.

Lemma reachable_perform_all script w w' :
  Ui.reachable w -> Ui.perform_all script w = Some w' -> Ui.reachable w'.
Proof.
  unfold Ui.perform_all. revert w.
  induction script as [|a script IH]; intros w Hw Hrun.
  - cbn in Hrun. by injection Hrun as <-.
  - cbn [foldl] in Hrun.
    destruct (Ui.enabled a (react w)) eqn:Hen.
    + destruct (Ui.perform a w) as [w1|] eqn:Hp.
      * eapply IH; [|exact Hrun].
        eapply Ui.reachable_step; [exact Hw | exact Hen | | exact Hp].
        destruct a; cbn; try done. by apply Forall_true.
      * exfalso. clear -Hrun. induction script; cbn in Hrun; [done | auto].
    + exfalso. clear -Hrun. induction script; cbn in Hrun; [done | auto].
Qed.

(** Scanning the events of a run record by record. *)
Lemma scan_records {A B} (F : list Event -> list B) (f : nat -> A -> list Event)
    (g : nat -> A -> B) (l : list A) :
  (forall j x rest, F (f j x ++ rest) = g j x :: F rest) ->
  forall rest, F (concat (imap f l) ++ rest) = imap g l ++ F rest.
Proof.
  revert f g. induction l as [|x l IH]; intros f g Hf rest; [done|].
  cbn [imap concat]. rewrite <- app_assoc, Hf.
  rewrite (IH (f ∘ S) (g ∘ S)) by (intros; apply Hf). done.
Qed.

Lemma last_imap {A B} (h : nat -> A -> B) (l : list A) :
  last (imap h l) = h (length l - 1) <$> last l.
Proof.
  induction l as [|x l IH] using rev_ind; [done|].
  rewrite imap_app. cbn [imap]. rewrite !last_snoc, length_app. cbn.
  by replace (length l + 1 - 1) with (length l + 0) by lia.
Qed.

Lemma rendered_records {A} (f : nat -> A -> list Event)
    (g h : nat -> A -> list StudentSubmission) (l : list A) :
  (forall j x cur rest,
      rendered_queues cur (f j x ++ rest) = g j x :: rendered_queues (h j x) rest) ->
  forall cur rest,
    rendered_queues cur (concat (imap f l) ++ rest)
    = imap g l ++ rendered_queues (default cur (last (imap h l))) rest.
Proof.
  revert f g h. induction l as [|x l IH]; intros f g h Hf cur rest; [done|].
  cbn [imap concat]. rewrite <- app_assoc, Hf.
  rewrite (IH (f ∘ S) (g ∘ S) (h ∘ S)) by (intros; apply Hf).
  cbn [app]. do 2 f_equal. by destruct (imap (h ∘ S) l) eqn:Himap using rev_ind;
    [|rewrite app_comm_cons, !last_snoc].
Qed.

Section RunSnapshots.

Variables (grader : Grader) (ref : File) (m : GradingModel).
Variable queue : list StudentSubmission.

Lemma published_on_settling_run :
  published_on_settling false (run_events grader ref m queue)
  = imap (fun j _ => snapshot_settled grader ref m queue (S j)) queue.
Proof.
  unfold run_events. cbn [app published_on_settling].
  rewrite (scan_records (published_on_settling false) _
             (fun j _ => snapshot_settled grader ref m queue (S j))).
  - cbn. by rewrite app_nil_r.
  - intros j x rest. unfold record_events, ocr_toast.
    destruct (grader j ref (files x) m); [case_bool_decide|]; reflexivity.
Qed.

Lemma rendered_queues_run :
  queue <> [] ->
  rendered_queues queue (run_events grader ref m queue)
  = imap (snapshot_processing grader ref m queue) queue
      ++ [snapshot_settled grader ref m queue (length queue)].
Proof.
  intros Hne. unfold run_events. cbn [app rendered_queues].
  rewrite (rendered_records _ (snapshot_processing grader ref m queue)
             (fun j _ => snapshot_settled grader ref m queue (S j))).
  - f_equal. rewrite last_imap. cbn [rendered_queues].
    destruct (last queue) eqn:Hlast; [|by apply last_None in Hlast].
    cbn. do 2 f_equal. destruct queue; [done | cbn; lia].
  - intros j x cur rest. unfold record_events, ocr_toast.
    destruct (grader j ref (files x) m); [case_bool_decide|]; reflexivity.
Qed.

(** A list of queues of the original size along which the number of
    settled records never decreases. *)
Lemma never_decreases_counts (snaps : list (list StudentSubmission)) :
  queue <> [] ->
  (forall snap, snap ∈ snaps -> length snap = length queue) ->
  (forall k a b,
      snaps !! k = Some a -> snaps !! S k = Some b ->
      settled_count a <= settled_count b) ->
  never_decreases snaps.
Proof.
  intros Hne Hsize Hcount k a b Ha Hb.
  pose proof (Hsize a (list_elem_of_lookup_2 _ _ _ Ha)) as Hla.
  pose proof (Hsize b (list_elem_of_lookup_2 _ _ _ Hb)) as Hlb.
  assert (forall snap : list StudentSubmission,
            length snap = length queue -> snap <> []) as Hnonnil.
  { intros snap Hl ->. by destruct queue. }
  do 2 eexists. rewrite !progress_ratio_count by auto.
  split; [done|]. split; [done|]. rewrite Hla, Hlb.
  apply Qle_same_denominator. by eapply Hcount.
Qed.

Lemma settling_never_decreases :
  queue <> [] ->
  never_decreases (imap (fun j _ => snapshot_settled grader ref m queue (S j)) queue).
Proof.
  intros Hne. apply never_decreases_counts; [done|..].
  - intros snap (j & s & -> & _)%elem_of_lookup_imap. apply length_snapshot_settled.
  - intros k a b. rewrite !list_lookup_imap.
    destruct (queue !! k) as [s|] eqn:Hs; [|done].
    destruct (queue !! S k) as [s'|] eqn:Hs'; [|done].
    intros [= <-] [= <-]. apply lookup_lt_Some in Hs, Hs'.
    rewrite !settled_count_settled_upto by lia.
    pose proof (settled_count_drop_step queue (S k)). lia.
Qed.

Lemma rendering_never_decreases :
  queue <> [] ->
  never_decreases
    (imap (snapshot_processing grader ref m queue) queue
       ++ [snapshot_settled grader ref m queue (length queue)]).
Proof.
  intros Hne. apply never_decreases_counts; [done|..].
  - intros snap [(j & s & -> & Hs)%elem_of_lookup_imap | ->%list_elem_of_singleton]%elem_of_app.
    + by apply length_snapshot_processing.
    + apply length_snapshot_settled.
  - intros k a b Ha Hb.
    assert (k < length queue) as Hk.
    { apply lookup_lt_Some in Hb. rewrite length_app, length_imap in Hb. cbn in Hb. lia. }
    rewrite lookup_app_l in Ha by (by rewrite length_imap).
    rewrite list_lookup_imap in Ha.
    destruct (queue !! k) as [s|] eqn:Hs; [|done]. injection Ha as <-.
    rewrite settled_count_processing_at by done.
    destruct (decide (S k < length queue)) as [Hlt|Hge].
    + rewrite lookup_app_l in Hb by (by rewrite length_imap).
      rewrite list_lookup_imap in Hb.
      destruct (queue !! S k) as [s'|] eqn:Hs'; [|done]. injection Hb as <-.
      rewrite settled_count_processing_at by done.
      pose proof (settled_count_drop_step queue (S k)). lia.
    + rewrite lookup_app_r in Hb by (rewrite length_imap; lia).
      rewrite length_imap in Hb. replace (S k - length queue) with 0 in Hb by lia.
      injection Hb as <-. rewrite settled_count_settled_upto by done.
      rewrite !drop_ge by lia. cbn. lia.
Qed.

End RunSnapshots.

(** C8.  In a run over any queue: every published queue has the size of
    the original one and its progress ratio is (count of [completed] +
    count of [error]) / total; one queue is published after each record
    settles, and along these the ratio never decreases; nor does it along
    the queues that get rendered, one at each awaited grading call and one
    at the end; when no record was settled at the start it does not even
    between two state updates of the same tick; and when the run has
    returned the ratio is 1. *)
Theorem C8_progress (grader : Grader) (w : World) (ref : File) :
  referenceFile (react w) = Some ref ->
  submissions (react w) <> [] ->
  exists w' evs,
    startGrading grader w = Some (tt, w')
    /\ trace w' = trace w ++ evs
    /\ (forall snap,
          snap ∈ publications evs ->
          length snap = length (submissions (react w))
          /\ progress_ratio snap
             = Some (Z.of_nat (count_status completed snap + count_status error snap)
                     # Pos.of_nat (length (submissions (react w)))))
    /\ length (published_on_settling false evs) = length (submissions (react w))
    /\ never_decreases (published_on_settling false evs)
    /\ never_decreases (rendered_queues (submissions (react w)) evs)
    /\ (Forall (fun s => status s <> completed /\ status s <> error)
          (submissions (react w)) ->
        never_decreases (publications evs))
    /\ exists r, progress_ratio (submissions (react w')) = Some r /\ (r == 1)%Q.
Proof.
  intros Href Hne.
  destruct (startGrading_final grader w ref Href Hne) as (w' & Hrun & Htr & Hfin).
  set (m := model (react w)) in *. set (queue := submissions (react w)) in *.
  assert (0 < length queue) as Hlen by (destruct queue; [done | cbn; lia]).
  exists w', (run_events grader ref m queue).
  split; [done|]. split; [done|].
  rewrite published_on_settling_run, rendered_queues_run, publications_run by done.
  assert (forall snap,
            snap ∈ concat (imap (fun j s =>
              [snapshot_processing grader ref m queue j s;
               snapshot_settled grader ref m queue (S j)]) queue) ->
            length snap = length queue) as Hsize.
  { intros snap Hin%list_elem_of_In%in_concat.
    destruct Hin as (pair & Hpair%list_elem_of_In & Hsnap%list_elem_of_In).
    apply elem_of_lookup_imap in Hpair as (j & s & -> & Hs).
    apply elem_of_cons in Hsnap as [->|Hsnap].
    - by apply length_snapshot_processing.
    - apply list_elem_of_singleton in Hsnap as ->. apply length_snapshot_settled. }
  assert (forall snap : list StudentSubmission,
            length snap = length queue -> snap <> []) as Hnonnil.
  { intros snap Hl ->. cbn in Hl. lia. }
  split_and!.
  - intros snap Hin. pose proof (Hsize snap Hin) as Hl. split; [done|].
    rewrite progress_ratio_formula by auto. by rewrite Hl.
  - apply length_imap.
  - by apply settling_never_decreases.
  - by apply rendering_never_decreases.
  - intros Hfresh. apply (never_decreases_counts queue); [done | exact Hsize |].
    destruct (pairs_monotone settled_count
                (snapshot_processing grader ref m queue)
                (fun j _ => snapshot_settled grader ref m queue (S j)) queue)
      as [_ Hmono]; [|exact Hmono].
    intros j s Hs. split.
    + by apply settled_count_processing.
    + apply settled_count_settled; [done|]. apply lookup_lt_Some in Hs. lia.
  - eexists. rewrite Hfin, progress_ratio_count.
    + split; [done|].
      rewrite settled_count_all by apply graded_all_settled.
      rewrite length_imap. apply Qeq_full. lia.
    + intros Hnil%(f_equal length). rewrite length_imap in Hnil. cbn in Hnil. lia.
Qed.

Lemma C8_progress_witness :
  exists w',
    startGrading all_pass (ready two_graded) = Some (tt, w')
    /\ progress_ratio <$> published_on_settling false (trace w')
       = [Some (2 # 2); Some (2 # 2)]%Q
    /\ progress_ratio <$> rendered_queues two_graded (trace w')
       = [Some (1 # 2); Some (1 # 2); Some (2 # 2)]%Q
    /\ never_decreases (published_on_settling false (trace w'))
    /\ never_decreases (rendered_queues two_graded (trace w')).
Proof.
  destruct (C8_progress all_pass (ready two_graded) key_file)
    as (w' & evs & Hrun & Htrace & _ & _ & Hsettled & Hrendered & _).
  - reflexivity.
  - discriminate.
  - exists w'. split; [exact Hrun|].
    change (trace w' = evs) in Htrace. rewrite Htrace.
    split_and!; [| | exact Hsettled | exact Hrendered];
      rewrite <- Htrace; cbv in Hrun; injection Hrun as <-; vm_compute; reflexivity.
Defined.

(** Between two state updates of one tick the ratio can dip: in a run
    over a queue that holds settled records (grade a queue, go back, grade
    it again) the update that settles the first record puts it at 2/2 and
    the next one, which sets the second record to [processing], at 1/2.
    Both are made before the run yields, and only the second is
    rendered. *)
Example regrade_publications :
  Ui.perform_all grade_then_return (mkWorld initial 0 []) = Some graded_once
  /\ submissions (react graded_once) = two_graded
  /\ Ui.perform (Ui.StartGrading all_pass) graded_once = Some graded_again
  /\ progress_ratio <$> Ui.published graded_again
     = [Some (1 # 2); Some (2 # 2); Some (1 # 2); Some (2 # 2)]%Q
  /\ progress_ratio <$> rendered_queues two_graded (trace graded_again)
     = [Some (1 # 2); Some (1 # 2); Some (2 # 2)]%Q.
Proof. split_and!; vm_compute; reflexivity. Qed.

End ProgressClaim.

(** ** The data model's invariant (C5) *)

Section QueueInvariant.
Import App.

Variable P : StudentSubmission -> Prop.
Variable startable : StudentSubmission -> Prop.

Hypothesis P_fresh : forall s, fresh s -> P s.
Hypothesis P_edit : forall s r, P s -> is_Some (result s) -> P (with_result r s).
Hypothesis P_processing : forall s, P s -> startable s -> P (with_status processing s).
Hypothesis P_settle : forall s c, P s -> startable s -> P (settle c s).

Lemma queue_ok_nil n : queue_ok P n [].
Proof. repeat split; constructor. Qed.

Lemma queue_ok_mono n n' q : n <= n' -> queue_ok P n q -> queue_ok P n' q.
Proof.
  intros Hn (Hnd & Hlt & HP). repeat split; try done.
  eapply Forall_impl; [exact Hlt|]. cbn. lia.
Qed.

Lemma Forall_filter_keep {A} (R Q : A -> Prop) `{forall x, Decision (Q x)} (l : list A) :
  Forall R l -> Forall R (filter Q l).
Proof.
  rewrite !Forall_forall. intros HR x [_ Hx]%list_elem_of_filter. auto.
Qed.

Lemma queue_ok_filter (Q : StudentSubmission -> Prop) `{forall s, Decision (Q s)} n q :
  queue_ok P n q -> queue_ok P n (filter Q q).
Proof.
  intros (Hnd & Hlt & HP). repeat split.
  - apply (sublist_NoDup (id <$> filter Q q) (id <$> q)); [exact Hnd|].
    apply fmap_sublist, sublist_filter.
  - apply Forall_fmap. apply Forall_fmap in Hlt. by apply Forall_filter_keep.
  - by apply Forall_filter_keep.
Qed.

Lemma queue_ok_app_fresh n q new :
  queue_ok P n q ->
  Forall fresh new ->
  id <$> new = seq n (length new) ->
  queue_ok P (n + length new) (q ++ new).
Proof.
  intros (Hnd & Hlt & HP) Hfresh Hids. repeat split.
  - rewrite fmap_app, Hids. apply NoDup_app. split; [done|]. split.
    + intros i Hi Hseq. rewrite Forall_forall in Hlt. specialize (Hlt i Hi).
      apply elem_of_seq in Hseq. lia.
    + apply NoDup_seq.
  - rewrite fmap_app, Hids. apply Forall_app. split.
    + eapply Forall_impl; [exact Hlt|]. cbn. lia.
    + apply Forall_forall. intros i Hi%elem_of_seq. lia.
  - apply Forall_app. split; [done|]. eapply Forall_impl; [exact Hfresh|]. auto.
Qed.

Lemma queue_ok_edit n q id0 i sub r :
  queue_ok P n q ->
  list_find (fun s => id s = id0) q = Some (i, sub) ->
  is_Some (result sub) ->
  queue_ok P n ((fun s => if decide (id s = id0) then with_result r s else s) <$> q).
Proof.
  intros (Hnd & Hlt & HP) (Hi & Hid & _)%list_find_Some Hres.
  assert (id <$> ((fun s => if decide (id s = id0) then with_result r s else s) <$> q)
          = id <$> q) as Hids.
  { rewrite <- list_fmap_compose. apply list_fmap_ext. intros j s _. cbn.
    by case_decide. }
  repeat split; rewrite ?Hids; try done.
  apply Forall_fmap, Forall_lookup. intros j s Hs. cbn.
  rewrite Forall_lookup in HP. specialize (HP j s Hs).
  case_decide as Hj; [|done]. apply P_edit; [done|].
  assert (j = i) as ->.
  { eapply NoDup_lookup; [exact Hnd| |]; rewrite list_lookup_fmap.
    - by rewrite Hs.
    - rewrite Hi. cbn. congruence. }
  rewrite Hi in Hs. by injection Hs as <-.
Qed.

Section Run.

Variables (grader : Grader) (ref : File) (m : GradingModel).
Variable queue : list StudentSubmission.

Lemma ids_graded (l : list StudentSubmission) :
  id <$> imap (graded grader ref m) l = id <$> l.
Proof.
  rewrite fmap_imap, <- imap_const. apply imap_ext. intros j s _. cbn.
  unfold graded, settle. by destruct (grader j ref (files s) m).
Qed.

Lemma ids_settled j : id <$> snapshot_settled grader ref m queue j = id <$> queue.
Proof.
  unfold snapshot_settled. rewrite fmap_app, ids_graded, <- fmap_app.
  by rewrite take_drop.
Qed.

Lemma ids_processing j s :
  queue !! j = Some s ->
  id <$> snapshot_processing grader ref m queue j s = id <$> queue.
Proof.
  intros Hs. unfold snapshot_processing. rewrite fmap_app, ids_graded.
  rewrite <- (take_drop j queue) at 3. rewrite fmap_app, (drop_S _ _ _ Hs). done.
Qed.

Hypothesis can_start : Forall startable queue.

Lemma P_graded (l : list StudentSubmission) :
  Forall P l -> Forall startable l -> Forall P (imap (graded grader ref m) l).
Proof.
  intros HP Hst. apply Forall_lookup. intros j x.
  rewrite list_lookup_imap. destruct (l !! j) as [s|] eqn:Hs; [|done].
  intros [= <-]. unfold graded. apply P_settle.
  - by eapply Forall_lookup_1.
  - by eapply Forall_lookup_1.
Qed.

Lemma queue_ok_settled n j :
  queue_ok P n queue -> queue_ok P n (snapshot_settled grader ref m queue j).
Proof.
  intros (Hnd & Hlt & HP). repeat split; rewrite ?ids_settled; try done.
  unfold snapshot_settled. apply Forall_app. split.
  - apply P_graded; by apply Forall_take.
  - by apply Forall_drop.
Qed.

Lemma queue_ok_processing n j s :
  queue !! j = Some s ->
  queue_ok P n queue -> queue_ok P n (snapshot_processing grader ref m queue j s).
Proof.
  intros Hs (Hnd & Hlt & HP). repeat split; rewrite ?ids_processing; try done.
  unfold snapshot_processing. apply Forall_app. split.
  - apply P_graded; by apply Forall_take.
  - constructor.
    + apply P_processing; by eapply Forall_lookup_1.
    + by apply Forall_drop.
Qed.

End Run.

Lemma split_students_fresh images p fuel :
  forall i acc w out w',
    split_students fuel images p i acc w = Some (out, w') ->
    exists new,
      out = acc ++ new
      /\ Forall fresh new
      /\ id <$> new = seq (next_uuid w) (length new)
      /\ w' = mkWorld (react w) (next_uuid w + length new) (trace w).
Proof.
  induction fuel as [|fuel IH]; intros i acc w out w'; cbn [split_students];
    (destruct (decide (i < length images)) as [Hi|Hi];
     [|intros [= <- <-]; exists []; rewrite app_nil_r, Nat.add_0_r;
       split_and!; try done; by destruct w]).
  - discriminate.
  - destruct (decide (0 < length (slice images i (i + p)))) as [Hpos|Hpos].
    + unfold App.bind at 1. cbn. intros Hrun.
      apply IH in Hrun as (new & -> & Hfresh & Hids & ->). cbn in *.
      eexists (_ :: new). rewrite <- app_assoc. split; [reflexivity|].
      split_and!.
      * constructor; [done | exact Hfresh].
      * cbn. by rewrite Hids.
      * f_equal. cbn. lia.
    + unfold App.bind at 1. cbn. intros Hrun. by apply IH in Hrun.
Qed.

Lemma good_after n s evs :
  queue_ok P n (submissions s) ->
  Forall (queue_ok P n) (publications evs) ->
  good P (after evs (mkWorld s n [])).
Proof.
  intros Hq Hpub. split; [|exact Hpub].
  rewrite submissions_after. cbn [react next_uuid after].
  destruct (last (publications evs)) as [q|] eqn:Hlast; [|done].
  cbn. rewrite Forall_forall in Hpub. apply Hpub.
  apply last_Some in Hlast as [l ->]. set_solver.
Qed.

(** The handler's result is [after evs] of the start world with [n']
    identifiers drawn. *)
Ltac settle_action n' evs :=
  match goal with
  | |- good _ ?w' =>
      match goal with
      | H : queue_ok _ _ (submissions ?s) |- _ =>
          change w' with (after evs (mkWorld s n' []))
      end
  end;
  apply good_after.

Ltac quiet_action evs :=
  intros [= <-];
  match goal with
  | H : queue_ok _ ?n (submissions _) |- _ => settle_action n evs
  end;
  [assumption | repeat constructor].

Lemma handler_good a s n w' :
  queue_ok P n (submissions s) ->
  Ui.enabled a s = true ->
  Ui.grading_allowed startable a s ->
  Ui.handler a (mkWorld s n []) = Some (tt, w') ->
  good P w'.
Proof.
  intros Hq Hen Hgate.
  destruct a as [fs| | | |m0| | |parsed|getDocument fs|index| |id0| |grader
                |id0 editName editClass|]; cbn [Ui.handler].
  - (* PickReference *)
    destruct fs as [|f fs]; cbn.
    + quiet_action (@nil Event).
    + quiet_action [SetReferenceFile (Some f)].
  - quiet_action [SetReferenceFile None; SetCurrentStep SETUP].
  - quiet_action [SetCurrentStep UPLOAD_STUDENTS].
  - quiet_action [SetShowDevSettings (negb (showDevSettings s))].
  - quiet_action [SetModel m0].
  - quiet_action [SetToastMessage None].
  - quiet_action [SetIsBulkMode (negb (isBulkMode s)); SetStagedFiles []].
  - quiet_action [SetPagesPerStudent (Ui.typed_pages parsed)].
  - (* PickFiles *)
    unfold handleFileSelect. destruct fs as [|file rest].
    { quiet_action (@nil Event). }
    cbn [App.bind rendered react]. destruct (isBulkMode s) eqn:Hbulk.
    2:{ quiet_action [SetStagedFiles (stagedFiles s ++ file :: rest)]. }
    case_bool_decide.
    { quiet_action [SetToastMessage (Some ToastBulkPdfOnly)]. }
    unfold setIsProcessingPdf at 1. erewrite bind_Some by apply emit_after.
    destruct (Pdf.convertPdfToImages getDocument file) as [images|e].
    2:{ quiet_action [SetIsProcessingPdf true; SetToastMessage (Some ToastPdfFailed);
                      SetIsProcessingPdf false]. }
    unfold App.bind at 1. unfold App.bind at 1.
    destruct (split_students _ _ _ _ _ _) as [[out w2]|] eqn:Hsplit; [|discriminate].
    apply split_students_fresh in Hsplit as (new & -> & Hfresh & Hids & ->).
    cbn. intros [= <-].
    settle_action (n + length new)
      [SetIsProcessingPdf true; SetSubmissions (submissions s ++ new);
       SetToastMessage (Some (ToastPdfDone (length new))); SetIsProcessingPdf false].
    + eapply queue_ok_mono; [|exact Hq]. lia.
    + apply Forall_singleton. by apply queue_ok_app_fresh.
  - quiet_action [SetStagedFiles (delete index (stagedFiles s))].
  - (* AddStudentToQueue *)
    unfold addStudentToQueue. cbn [App.bind rendered react].
    destruct (stagedFiles s) as [|f staged] eqn:Hstaged.
    { quiet_action (@nil Event). }
    cbn. intros [= <-].
    settle_action (S n)
      [SetSubmissions
         (submissions s ++ [mkSubmission n (f :: staged) pending None None]);
       SetStagedFiles []].
    + eapply queue_ok_mono; [|exact Hq]. lia.
    + apply Forall_singleton.
      replace (S n) with (n + length [mkSubmission n (f :: staged) pending None None])
        by (cbn; lia).
      apply queue_ok_app_fresh; [done | by repeat constructor | done].
  - (* RemoveSubmission *)
    intros [= <-].
    settle_action n [SetSubmissions (filter (fun r => id r <> id0) (submissions s))].
    + done.
    + apply Forall_singleton. by apply queue_ok_filter.
  - quiet_action [SetCurrentStep SETUP].
  - (* StartGrading *)
    destruct (referenceFile s) as [ref|] eqn:Href.
    2:{ rewrite startGrading_returns_at_once by (left; exact Href).
        quiet_action (@nil Event). }
    destruct (decide (submissions s = [])) as [Hnil|Hne].
    { rewrite startGrading_returns_at_once by (right; exact Hnil).
      quiet_action (@nil Event). }
    rewrite (startGrading_runs grader ref (model s) (submissions s)) by done.
    intros [= <-]. apply good_after; [done|].
    rewrite publications_run. apply Forall_forall.
    intros snap Hin%list_elem_of_In%in_concat.
    destruct Hin as (pair & Hpair%list_elem_of_In & Hsnap%list_elem_of_In).
    apply elem_of_lookup_imap in Hpair as (j & r & -> & Hr).
    apply elem_of_cons in Hsnap as [->|Hsnap].
    + by apply queue_ok_processing.
    + apply list_elem_of_singleton in Hsnap as ->. by apply queue_ok_settled.
  - (* SaveEditing *)
    cbn [App.bind rendered react]. unfold ResultsTable.saveEditing.
    destruct (list_find _ _) as [[i sub]|] eqn:Hfind.
    2:{ quiet_action (@nil Event). }
    destruct (result sub) as [r|] eqn:Hres.
    2:{ quiet_action (@nil Event). }
    intros [= <-].
    settle_action n
      [SetSubmissions
         ((fun r0 => if decide (id r0 = id0)
                     then with_result
                            (mkGradingResult editName (Some editClass) (scores r)
                               (total_score r) (feedback r) (hasOCRIssues r)) r0
                     else r0) <$> submissions s)].
    + done.
    + apply Forall_singleton. eapply queue_ok_edit; [done | exact Hfind |].
      by rewrite Hres.
  - (* NewGrading *)
    intros [= <-].
    settle_action n [SetSubmissions []; SetCurrentStep UPLOAD_STUDENTS;
                     SetIsBulkMode false; SetPagesPerStudent 1].
    + done.
    + apply Forall_singleton, queue_ok_nil.
Qed.

(** Every world reached by starting grading on [startable] queues only is
    [good]. *)
Lemma reachable_good w : Ui.reachable_when startable w -> good P w.
Proof.
  induction 1 as [|a w w' Hw IH Hen Hgate Hperform].
  - split; [apply queue_ok_nil | constructor].
  - unfold Ui.perform in Hperform.
    destruct (Ui.handler a _) as [[[] w1]|] eqn:Hh; [|discriminate].
    cbn in Hperform. injection Hperform as <-.
    destruct IH as [Hq _]. by eapply handler_good.
Qed.

(** ... and so is every queue an observer sees. *)
Lemma observable_P queue :
  Ui.observable_when startable queue -> Forall P queue.
Proof.
  intros (w & Hw & Hq). apply reachable_good in Hw as [Hs Hpub].
  destruct Hq as [->|Hin].
  - by destruct Hs as (_ & _ & ?).
  - rewrite Forall_forall in Hpub. by destruct (Hpub _ Hin) as (_ & _ & ?).
Qed.

End QueueInvariant.

Section InvariantClaim.
Import App.

Lemma fresh_consistent s : fresh s -> consistent s.
Proof.
  intros (Hst & Hres & Herr). unfold consistent. rewrite Hst, Hres, Herr.
  split; split; (by intros []) || done.
Qed.

Lemma pending_consistent s :
  consistent s -> status s = pending -> result s = None /\ errorMsg s = None.
Proof.
  intros [Hres Herr] Hst. rewrite Hst in Hres, Herr. split.
  - destruct (result s); [|done].
    assert (pending = completed) by (apply Hres; eauto). discriminate.
  - destruct (errorMsg s); [|done].
    assert (pending = error) by (apply Herr; eauto). discriminate.
Qed.

Lemma consistent_edit s r :
  consistent s -> is_Some (result s) -> consistent (with_result r s).
Proof.
  intros [Hres Herr] Hsome. split; cbn; [|done].
  split; [intros _; by apply Hres | by eauto].
Qed.

Lemma consistent_processing s :
  consistent s -> status s = pending -> consistent (with_status processing s).
Proof.
  intros Hc Hst. destruct (pending_consistent s Hc Hst) as [Hres Herr].
  unfold consistent. cbn. rewrite Hres, Herr.
  split; split; (by intros []) || done.
Qed.

Lemma consistent_settle s c :
  consistent s -> status s = pending -> consistent (settle c s).
Proof.
  intros Hc Hst. destruct (pending_consistent s Hc Hst) as [Hres Herr].
  unfold consistent. destruct c as [r|e]; cbn; rewrite ?Hres, ?Herr;
    split; split; (by intros []) || done || eauto.
Qed.

Lemma fresh_sound s : fresh s -> sound s.
Proof.
  intros (Hst & Hres & Herr). unfold sound. rewrite Hst. split_and!; done.
Qed.

Lemma sound_edit s r : sound s -> is_Some (result s) -> sound (with_result r s).
Proof.
  intros (Hp & Hc & He) [r0 Hr0]. unfold sound. cbn. split_and!; eauto.
  intros Hst. destruct (Hp Hst) as [Hnone _]. congruence.
Qed.

Lemma sound_processing s : sound s -> True -> sound (with_status processing s).
Proof. intros _ _. unfold sound. cbn. split_and!; done. Qed.

Lemma sound_settle s c : sound s -> True -> sound (settle c s).
Proof.
  intros _ _. unfold sound. destruct c as [r|e]; cbn; split_and!; eauto; done.
Qed.

(** C5 (amended).  At every point reachable through the app's operations
    (creation, grading runs and their published queues, edit, removal,
    reset) every record satisfies: [pending] implies that [result] and
    [errorMsg] are both absent, [completed] implies that [result] is
    present, [error] implies that [errorMsg] is present.  As long as
    grading is only ever started on queues all of whose records are
    [pending], every record moreover satisfies the full invariant: [result]
    is present exactly when the status is [completed], [errorMsg] exactly
    when it is [error], and both are absent on [pending] and [processing]
    records. *)
Theorem C5_record_invariant :
  (forall queue, Ui.observable queue -> Forall sound queue)
  /\ (forall queue,
        Ui.observable_when (fun s => status s = pending) queue ->
        Forall consistent queue).
Proof.
  split; intros queue Hobs.
  - eapply (observable_P sound (fun _ => True)); eauto using
      fresh_sound, sound_edit, sound_processing, sound_settle.
  - eapply (observable_P consistent (fun s => status s = pending)); eauto using
      fresh_consistent, consistent_edit, consistent_processing, consistent_settle.
Qed.

Lemma graded_once_reachable : Ui.reachable graded_once.
Proof.
  apply (reachable_perform_all grade_then_return (mkWorld initial 0 []));
    [apply Ui.reachable_initial|].
  vm_compute. reflexivity.
Qed.

Lemma graded_again_reachable : Ui.reachable graded_again.
Proof.
  apply (Ui.reachable_step _ (Ui.StartGrading all_pass) graded_once).
  - apply graded_once_reachable.
  - vm_compute. reflexivity.
  - by apply Forall_true.
  - vm_compute. reflexivity.
Qed.

Lemma C5_record_invariant_witness : Forall sound (submissions (react graded_again)).
Proof.
  apply (proj1 C5_record_invariant).
  exists graded_again. split; [apply graded_again_reachable | by left].
Defined.

(** C5 as stated fails: the user can grade a queue, go back to the upload
    step and start grading again; the first queue that second run publishes
    holds a record in [processing] that still carries the [result] of the
    first run. *)
Lemma C5_counterexample :
  Ui.perform_all grade_then_return (mkWorld initial 0 []) = Some graded_once
  /\ Ui.enabled (Ui.StartGrading all_pass) (react graded_once) = true
  /\ Ui.perform (Ui.StartGrading all_pass) graded_once = Some graded_again
  /\ Ui.published graded_again !! 0 = Some stale_queue
  /\ Ui.observable stale_queue
  /\ stale_queue !! 0 = Some stale_record
  /\ status stale_record = processing
  /\ is_Some (result stale_record)
  /\ ~ consistent stale_record.
Proof.
  split; [vm_compute; reflexivity|]. split; [vm_compute; reflexivity|].
  split; [vm_compute; reflexivity|].
  assert (Ui.published graded_again !! 0 = Some stale_queue) as Hpub
    by (vm_compute; reflexivity).
  split; [exact Hpub|]. split.
  { exists graded_again. split; [apply graded_again_reachable|].
    right. eapply list_elem_of_lookup_2. exact Hpub. }
  split; [reflexivity|]. split; [reflexivity|]. split; [by eexists|].
  intros [Hres _]. cbn in Hres.
  assert (processing = completed) by (apply Hres; eauto). discriminate.
Qed.

End InvariantClaim.

(** ** The page rasterizer (C4) *)

Section Rasterizer.
Import Pdf.

Variables (pdf : PdfDocument) (pdfName : JSString).

(** When every page renders and yields an image, the loop returns one
    file per page, in page order. *)
Lemma convert_pages_all_render todo :
  forall i imageFiles,
    (forall k, i <= k < i + todo -> page_renders pdf k) ->
    exists new,
      convert_pages pdf pdfName todo i imageFiles = Returned (imageFiles ++ new)
      /\ file_name <$> new = page_file_name pdfName <$> seq i todo.
Proof.
  induction todo as [|todo IH]; intros i imageFiles Hall.
  - exists []. by rewrite app_nil_r.
  - destruct (Hall i) as (page & blob & Hget & Hctx & Hrender & Hblob); [lia|].
    cbn [convert_pages]. rewrite Hget, Hctx, Hrender, Hblob.
    destruct (IH (S i) (imageFiles ++
                [mkFile (page_file_name pdfName i) (js "image/jpeg") blob]))
      as (new & -> & Hnames).
    { intros k Hk. apply Hall. lia. }
    eexists (_ :: new). rewrite <- app_assoc. split; [reflexivity|].
    cbn. by rewrite Hnames.
Qed.

(** A page that cannot be rendered makes the loop throw. *)
Lemma convert_pages_page_fails todo :
  forall i imageFiles k,
    i <= k < i + todo -> page_fails pdf k ->
    exists e, convert_pages pdf pdfName todo i imageFiles = Threw e.
Proof.
  induction todo as [|todo IH]; intros i imageFiles k Hk Hfail; [lia|].
  cbn [convert_pages].
  destruct (getPage pdf i) as [page|e] eqn:Hget; [|eauto].
  destruct (context2d page) eqn:Hctx; [|eauto].
  destruct (render page) as [e|] eqn:Hrender; [eauto|].
  destruct (decide (k = i)) as [->|Hne].
  - destruct Hfail as [[e He]|(page' & Hget' & [Hc|[e He]])]; congruence.
  - apply (IH (S i) _ k); [lia | done].
Qed.

End Rasterizer.

Section RasterizerClaim.
Import Pdf.

(** A PDF all of whose [n] pages render and yield an image gives exactly
    [n] files, in page order; and a page that cannot be rendered, because
    the library rejects or there is no drawing context, fails the whole
    conversion. *)
Lemma convertPdfToImages_sound getDocument pdfFile pdf :
  getDocument pdfFile = Returned pdf ->
  ((forall k, 1 <= k <= numPages pdf -> page_renders pdf k) ->
     exists imageFiles,
       convertPdfToImages getDocument pdfFile = Returned imageFiles
       /\ length imageFiles = numPages pdf
       /\ file_name <$> imageFiles
          = page_file_name (file_name pdfFile) <$> seq 1 (numPages pdf))
  /\ (forall k, 1 <= k <= numPages pdf -> page_fails pdf k ->
        exists e, convertPdfToImages getDocument pdfFile = Threw e).
Proof.
  intros Hdoc. unfold convertPdfToImages. rewrite Hdoc. split.
  - intros Hall.
    destruct (convert_pages_all_render pdf (file_name pdfFile) (numPages pdf) 1 [])
      as (new & Hrun & Hnames).
    { intros k Hk. apply Hall. lia. }
    exists new. split; [exact Hrun|]. split; [|exact Hnames].
    apply (f_equal length) in Hnames. by rewrite !length_fmap, length_seq in Hnames.
  - intros k Hk Hfail. apply (convert_pages_page_fails _ _ _ _ _ k); [lia | done].
Qed.

(** C4.  The conversion is to give one file per page or fail.  On this
    two-page PDF, whose first page the canvas cannot encode, it returns
    instead, with the one file of page 2. *)
Theorem C4_unencoded_page_is_dropped :
  convertPdfToImages first_page_not_encoded exams_pdf
  = Returned [mkFile (js "exams_page_2.jpg") (js "image/jpeg") [2%N]].
Proof. reflexivity. Qed.

End RasterizerClaim.

(** ** Response normalization (C6, C7) *)

Section Normalization.
Import Gemini.

Lemma get_not_null raw key : raw <> JNull -> exists v, get raw key = Returned v.
Proof. destruct raw; intros Hraw; cbn; eauto. done. Qed.

Lemma missing_or_empty_blank v : blank_or_not_string v -> missing_or_empty v = true.
Proof.
  unfold missing_or_empty. intros Hblank.
  destruct v as [raw|]; [|done].
  destruct raw as [| | |s| |];
    try (cbn [is_string negb]; rewrite orb_true_r; reflexivity).
  cbn [is_blank]. cbn in Hblank.
  rewrite (bool_decide_eq_true_2 _ Hblank). apply orb_true_r.
Qed.

(** What the inner [try] makes of a parsed value that is not [null]. *)
Lemma parse_and_normalize_value env responseText raw :
  JSON_parse env responseText = Returned raw ->
  raw <> JNull ->
  exists name cls total fb sc,
    get raw (js "student_name") = Returned name
    /\ get raw (js "student_class") = Returned cls
    /\ get raw (js "total_score") = Returned total
    /\ get raw (js "feedback") = Returned fb
    /\ get raw (js "scores") = Returned sc
    /\ parse_and_normalize env responseText
       = Returned
           {| raw_student_name :=
                if missing_or_empty name then NO_NAME else string_of name;
              raw_student_class :=
                if missing_or_empty cls then NO_CLASS else string_of cls;
              raw_total_score := match total with Some (JNum z) => z | _ => 0%Z end;
              raw_feedback := or_else fb (JStr NO_FEEDBACK);
              raw_scores := match sc with Some (JArr items) => items | _ => [] end;
              raw_hasOCRIssues := missing_or_empty name || missing_or_empty cls |}.
Proof.
  intros Hparse Hraw.
  destruct (get_not_null raw (js "student_name") Hraw) as [name Hname].
  destruct (get_not_null raw (js "student_class") Hraw) as [cls Hcls].
  destruct (get_not_null raw (js "total_score") Hraw) as [total Htotal].
  destruct (get_not_null raw (js "feedback") Hraw) as [fb Hfb].
  destruct (get_not_null raw (js "scores") Hraw) as [sc Hsc].
  exists name, cls, total, fb, sc. split_and!; try done.
  unfold parse_and_normalize. rewrite Hparse. cbn [bind]. rewrite Hname. cbn [bind].
  destruct (missing_or_empty name); rewrite Hcls; cbn [bind];
    destruct (missing_or_empty cls); rewrite Htotal, Hfb, Hsc; reflexivity.
Qed.

Lemma parse_and_normalize_null env responseText :
  JSON_parse env responseText = Returned JNull ->
  parse_and_normalize env responseText = Threw (ErrorObj (js "TypeError")).
Proof. intros Hparse. unfold parse_and_normalize. by rewrite Hparse. Qed.

Lemma parse_and_normalize_syntax env responseText e :
  JSON_parse env responseText = Threw e ->
  parse_and_normalize env responseText = Threw e.
Proof. intros Hparse. unfold parse_and_normalize. by rewrite Hparse. Qed.

Lemma gradeSubmission_response env referenceFile studentFiles modelName response :
  ask_model env referenceFile studentFiles modelName = Returned response ->
  gradeSubmission env referenceFile studentFiles modelName
  = grade_response env response.
Proof.
  intros Hask. unfold gradeSubmission. rewrite Hask. cbn [bind].
  by destruct (grade_response env response).
Qed.

Lemma get_field_of raw key : raw <> JNull -> get raw key = Returned (field_of raw key).
Proof. by destruct raw. Qed.

(** C6 (amended).  When the response parses to a value other than [null]
    and its [student_name] is missing, no string, or a string that is
    empty or all whitespace, [gradeSubmission] returns a result whose name
    is the placeholder and whose [hasOCRIssues] is true; likewise for
    [student_class] and its placeholder. *)
Theorem C6_missing_name_or_class env referenceFile studentFiles modelName
    response responseText raw :
  ask_model env referenceFile studentFiles modelName = Returned response ->
  text response = Some responseText ->
  responseText <> [] ->
  JSON_parse env responseText = Returned raw ->
  raw <> JNull ->
  (blank_or_not_string (field_of raw (js "student_name")) ->
   exists r,
     gradeSubmission env referenceFile studentFiles modelName = Returned r
     /\ raw_student_name r = NO_NAME /\ raw_hasOCRIssues r = true)
  /\ (blank_or_not_string (field_of raw (js "student_class")) ->
      exists r,
        gradeSubmission env referenceFile studentFiles modelName = Returned r
        /\ raw_student_class r = NO_CLASS /\ raw_hasOCRIssues r = true).
Proof.
  intros Hask Htext Hne Hparse Hraw.
  rewrite (gradeSubmission_response _ _ _ _ _ Hask).
  unfold grade_response. rewrite Htext.
  destruct responseText as [|c t]; [done|].
  destruct (parse_and_normalize_value env (c :: t) raw Hparse Hraw)
    as (name & cls & total & fb & sc & Hn & Hc & _ & _ & _ & ->).
  rewrite get_field_of in Hn, Hc by done.
  injection Hn as <-. injection Hc as <-.
  split; intros Hblank; (eexists; split; [reflexivity|]);
    cbn [raw_student_name raw_student_class raw_hasOCRIssues];
    rewrite (missing_or_empty_blank _ Hblank).
  - done.
  - split; [done | apply orb_true_r].
Qed.

Lemma C6_missing_name_or_class_witness :
  exists r,
    gradeSubmission answers_true key_file [page 1] gemini_3_flash_preview = Returned r
    /\ raw_student_name r = NO_NAME /\ raw_hasOCRIssues r = true.
Proof.
  destruct (C6_missing_name_or_class answers_true key_file [page 1]
              gemini_3_flash_preview (mkResponse (Some (js "true"))) (js "true")
              (JBool true)) as [Hname _].
  - reflexivity.
  - reflexivity.
  - discriminate.
  - reflexivity.
  - discriminate.
  - apply Hname. exact I.
Defined.

(** C6 as stated fails on the response text [null]: it parses, the parsed
    value has no [student_name], and the call throws instead of returning
    the placeholder. *)
Lemma C6_counterexample :
  ~ (forall env referenceFile studentFiles modelName response responseText raw,
       ask_model env referenceFile studentFiles modelName = Returned response ->
       text response = Some responseText ->
       responseText <> [] ->
       JSON_parse env responseText = Returned raw ->
       blank_or_not_string (field_of raw (js "student_name")) ->
       exists r,
         gradeSubmission env referenceFile studentFiles modelName = Returned r
         /\ raw_student_name r = NO_NAME /\ raw_hasOCRIssues r = true).
Proof.
  intros Hclaim.
  destruct (Hclaim answers_null key_file [page 1] gemini_3_flash_preview
              (mkResponse (Some (js "null"))) (js "null") JNull)
    as (r & Hrun & _); [reflexivity | reflexivity | discriminate | reflexivity
                        | exact I |].
  vm_compute in Hrun. discriminate.
Qed.

End Normalization.

Section HardFailures.
Import Gemini.

Lemma grade_response_throws env response :
  (exists e, grade_response env response = Threw e)
  <-> text response = None
      \/ text response = Some []
      \/ (exists t e, text response = Some t /\ JSON_parse env t = Threw e)
      \/ (exists t, text response = Some t /\ JSON_parse env t = Returned JNull).
Proof.
  unfold grade_response. destruct (text response) as [[|c t]|] eqn:Htext.
  - split; [auto | eauto].
  - destruct (JSON_parse env (c :: t)) as [raw|e] eqn:Hparse.
    + assert (raw = JNull \/ raw <> JNull) as [->|Hraw]
        by (destruct raw; auto; right; discriminate).
      * rewrite (parse_and_normalize_null _ _ Hparse).
        split; [eauto 7 | eauto].
      * destruct (parse_and_normalize_value _ _ _ Hparse Hraw)
          as (? & ? & ? & ? & ? & _ & _ & _ & _ & _ & ->).
        split; [by intros [e He] |].
        intros [H|[H|[(t' & e & [= <-] & He)|(t' & [= <-] & He)]]];
          try discriminate; congruence.
    + rewrite (parse_and_normalize_syntax _ _ _ Hparse). split; [eauto 7 | eauto].
  - split; [auto | eauto].
Qed.

(** C7 (amended).  [gradeSubmission] raises an error exactly when the
    request fails before the model has answered, when the response has no
    text or an empty one, when the text does not parse as JSON, or when it
    parses to [null].  Any other parsed value, an object or not, gives a
    complete result: [total_score] is the response's when that is a number
    and 0 otherwise, [scores] is the response's when that is an array and
    empty otherwise, [feedback] is the placeholder when the response's is
    missing or falsy, and the response's own value, of whatever type,
    otherwise. *)
Theorem C7_hard_failures env referenceFile studentFiles modelName :
  ((exists e, gradeSubmission env referenceFile studentFiles modelName = Threw e)
   <-> (exists e, ask_model env referenceFile studentFiles modelName = Threw e)
       \/ exists response,
            ask_model env referenceFile studentFiles modelName = Returned response
            /\ (text response = None
                \/ text response = Some []
                \/ (exists t e, text response = Some t /\ JSON_parse env t = Threw e)
                \/ (exists t, text response = Some t
                              /\ JSON_parse env t = Returned JNull)))
  /\ (forall response t raw,
        ask_model env referenceFile studentFiles modelName = Returned response ->
        text response = Some t -> t <> [] ->
        JSON_parse env t = Returned raw -> raw <> JNull ->
        exists r total fb sc,
          gradeSubmission env referenceFile studentFiles modelName = Returned r
          /\ get raw (js "total_score") = Returned total
          /\ get raw (js "feedback") = Returned fb
          /\ get raw (js "scores") = Returned sc
          /\ (forall z, total = Some (JNum z) -> raw_total_score r = z)
          /\ ((forall z, total <> Some (JNum z)) -> raw_total_score r = 0%Z)
          /\ (forall items, sc = Some (JArr items) -> raw_scores r = items)
          /\ ((forall items, sc <> Some (JArr items)) -> raw_scores r = [])
          /\ (truthy fb = false -> raw_feedback r = JStr NO_FEEDBACK)
          /\ (forall v, fb = Some v -> truthy fb = true -> raw_feedback r = v)).
Proof.
  split.
  - destruct (ask_model env referenceFile studentFiles modelName)
      as [response|e] eqn:Hask.
    + rewrite (gradeSubmission_response _ _ _ _ _ Hask), grade_response_throws.
      split.
      * intros H. right. exists response. done.
      * intros [[e He]|(response' & [= <-] & H)]; [discriminate | done].
    + unfold gradeSubmission. rewrite Hask. cbn [bind]. split; eauto.
  - intros response t raw Hask Htext Hne Hparse Hraw.
    rewrite (gradeSubmission_response _ _ _ _ _ Hask).
    unfold grade_response. rewrite Htext. destruct t as [|c t]; [done|].
    destruct (parse_and_normalize_value _ _ _ Hparse Hraw)
      as (name & cls & total & fb & sc & _ & _ & Htotal & Hfb & Hsc & ->).
    eexists _, total, fb, sc. split; [reflexivity|].
    split; [done|]. split; [done|]. split; [done|]. cbn.
    split_and!.
    + by intros z ->.
    + intros Hnum. destruct total as [[]|]; try done. by destruct (Hnum z).
    + by intros items ->.
    + intros Harr. destruct sc as [[]|]; try done. by destruct (Harr items).
    + intros Hfalsy. unfold or_else. by rewrite Hfalsy.
    + intros v -> Htruthy. unfold or_else. by rewrite Htruthy.
Qed.

Lemma C7_hard_failures_witness :
  gradeSubmission answers_true key_file [page 1] gemini_3_flash_preview
  = Returned (mkRaw NO_NAME NO_CLASS 0%Z (JStr NO_FEEDBACK) [] true).
Proof.
  destruct (C7_hard_failures answers_true key_file [page 1] gemini_3_flash_preview)
    as [_ Hvalue].
  destruct (Hvalue (mkResponse (Some (js "true"))) (js "true") (JBool true))
    as (r & _ & _ & _ & Hr & _);
    [reflexivity | reflexivity | discriminate | reflexivity | discriminate |].
  rewrite Hr. cbv in Hr. by injection Hr as <-.
Defined.

(** C7 as stated fails on the response text [null]: it parses, and the
    call still ends in the parse error. *)
Lemma C7_counterexample :
  ask_model answers_null key_file [page 1] gemini_3_flash_preview
  = Returned (mkResponse (Some (js "null")))
  /\ JSON_parse answers_null (js "null") = Returned JNull
  /\ gradeSubmission answers_null key_file [page 1] gemini_3_flash_preview
     = Threw (ErrorObj (js "Failed to parse grading results from model response.")).
Proof. split_and!; reflexivity. Qed.

End HardFailures.

(** ** Export (C9) *)

Section QuestionNumbers.
Import ResultsTable.










End QuestionNumbers.

Section ExportText.
Import ResultsTable.

Lemma uint_chars d :
  Forall header_char (js (DecimalString.NilEmpty.string_of_uint d)).
Proof.
  induction d; cbn; constructor; (done || (unfold header_char; lia)).
Qed.

Lemma number_toString_chars z : Forall header_char (number_toString z).
Proof.
  unfold number_toString, DecimalString.NilZero.string_of_int.
  destruct (Z.to_int z) as [d|d].
  - unfold DecimalString.NilZero.string_of_uint.
    destruct d; try apply uint_chars. cbn. constructor; [unfold header_char; lia | done].
  - change (Forall header_char
              (45%N :: js (DecimalString.NilZero.string_of_uint d))).
    constructor; [unfold header_char; lia|].
    unfold DecimalString.NilZero.string_of_uint.
    destruct d; try apply uint_chars. cbn. constructor; [unfold header_char; lia | done].
Qed.

Ltac literal_chars :=
  cbn; repeat (constructor; [unfold header_char; lia|]); constructor.

Lemma question_header_chars q (suffix : JSString) :
  Forall header_char suffix ->
  Forall header_char (js "Q" ++ number_toString q ++ suffix).
Proof.
  intros Hs. apply Forall_app. split; [literal_chars|].
  apply Forall_app. split; [apply number_toString_chars | exact Hs].
Qed.

Lemma export_columns_chars qs : Forall (Forall header_char) (export_columns qs).
Proof.
  unfold export_columns. apply Forall_app. split.
  { repeat (constructor; [literal_chars|]). constructor. }
  apply Forall_app. split.
  - induction qs as [|q qs IH]; [constructor|].
    rewrite bind_cons. apply Forall_app. split; [|exact IH].
    repeat (constructor; [apply question_header_chars; literal_chars|]). constructor.
  - repeat (constructor; [literal_chars|]). constructor.
Qed.

Lemma split_no_sep sep cell : Forall (fun c => c <> sep) cell -> split sep cell = [cell].
Proof.
  induction 1 as [|c cell Hc Hcell IH]; [done|].
  cbn. rewrite (proj2 (N.eqb_neq c sep)) by done. by rewrite IH.
Qed.

Lemma split_cell_sep sep cell rest :
  Forall (fun c => c <> sep) cell ->
  split sep (cell ++ [sep] ++ rest) = cell :: split sep rest.
Proof.
  induction 1 as [|c cell Hc Hcell IH].
  - cbn. by rewrite N.eqb_refl.
  - cbn. rewrite (proj2 (N.eqb_neq c sep)) by done.
    cbn in IH. by rewrite IH.
Qed.

(** Splitting a joined line gives the cells back when no cell holds the
    separator. *)
Lemma split_join sep cells :
  cells <> [] ->
  Forall (Forall (fun c => c <> sep)) cells ->
  split sep (join [sep] cells) = cells.
Proof.
  intros Hne Hcells. induction Hcells as [|cell cells Hcell Hcells IH]; [done|].
  destruct cells as [|cell' cells].
  - cbn. by apply split_no_sep.
  - change (join [sep] (cell :: cell' :: cells))
      with (cell ++ [sep] ++ join [sep] (cell' :: cells)).
    rewrite split_cell_sep by done. by rewrite IH.
Qed.






End ExportText.

Section ExportClaim.
Import ResultsTable.


Lemma export_columns_nonempty qs : export_columns qs <> [].
Proof. done. Qed.



(** The header line of the sample's CSV text, cell by cell, and the cells
    of its two rows on the clipboard. *)
Example export_sample_header :
  (fun text => split 44 <$> head (split 10 text)) <$> handleExportCSV export_sample
  = Some (Some [[0xFEFF%N] ++ js "Class"; js "Name"; js "Total Score";
                js "Q1 Ans"; js "Q1 Score"; js "Q2 Ans"; js "Q2 Score";
                js "Q5 Ans"; js "Q5 Score"; js "Feedback"]).
Proof. vm_compute. reflexivity. Qed.

Example export_sample_rows :
  (fun text => split 9 <$> drop 1 (split 10 text)) <$> handleCopyToClipboard export_sample
  = Some [[js "3-2"; js "Kim"; js "10"; js "3"; js "1"; js "X"; js "0";
           js "-"; js "0"; js "good"];
          [[]; js "Lee"; js "2"; js "-"; js "0"; js "1"; js "1";
           js "4"; js "1"; js "fine"]].
Proof. vm_compute. reflexivity. Qed.

End ExportClaim.


(** * Further properties *)

(** ** The page rasterizer *)

Section RasterizerFacts.
Import Pdf.

Lemma convert_pages_returned pdf pdfName todo :
  forall i imageFiles out,
    convert_pages pdf pdfName todo i imageFiles = Returned out ->
    out = imageFiles ++ omap (page_image pdf pdfName) (seq i todo).
Proof.
  induction todo as [|todo IH]; intros i imageFiles out; cbn [convert_pages seq].
  - intros [= <-]. by rewrite app_nil_r.
  - change (omap ?f (i :: ?l))
      with (match f i with Some y => y :: omap f l | None => omap f l end).
    unfold page_image at 1.
    destruct (getPage pdf i) as [page|e]; [|discriminate].
    destruct (context2d page); [|discriminate].
    destruct (render page); [discriminate|].
    intros Hrun%IH. rewrite Hrun. destruct (toBlob page) as [blob|]; cbn.
    + by rewrite <- app_assoc.
    + done.
Qed.

Lemma length_omap_le {A B} (f : A -> option B) (l : list A) :
  length (omap f l) <= length l.
Proof.
  induction l as [|x l IH]; [done|].
  change (omap f (x :: l))
    with (match f x with Some y => y :: omap f l | None => omap f l end).
  destruct (f x); cbn; lia.
Qed.

(** X1: whenever the conversion returns, its files are the images of exactly
    the pages for which the canvas handed over a blob, in page order, named
    after their page and of type image/jpeg; so there are never more files
    than pages. *)
Theorem convertPdfToImages_returned getDocument pdfFile pdf imageFiles :
  getDocument pdfFile = Returned pdf ->
  convertPdfToImages getDocument pdfFile = Returned imageFiles ->
  imageFiles
  = omap (page_image pdf (file_name pdfFile)) (seq 1 (numPages pdf))
  /\ length imageFiles <= numPages pdf
  /\ Forall (fun f => file_type f = js "image/jpeg") imageFiles.
Proof.
  intros Hdoc. unfold convertPdfToImages. rewrite Hdoc.
  intros ->%convert_pages_returned. cbn [app]. split; [done|]. split.
  - etrans; [apply length_omap_le|]. by rewrite length_seq.
  - apply Forall_forall. intros f (k & _ & Hk)%list_elem_of_omap.
    unfold page_image in Hk. destruct (getPage pdf k) as [page|]; [|done].
    destruct (toBlob page); [|done]. by injection Hk as <-.
Qed.

Lemma convertPdfToImages_returned_witness :
  convertPdfToImages first_page_not_encoded exams_pdf
  = Returned (omap (page_image
                      (mkDocument 2
                         (fun i => Returned (mkPage true None
                            (match i with 1 => None | _ => Some [N.of_nat i] end))))
                      (file_name exams_pdf)) (seq 1 2))
  /\ length [mkFile (js "exams_page_2.jpg") (js "image/jpeg") [2%N]] <= 2.
Proof.
  destruct (convertPdfToImages_returned first_page_not_encoded exams_pdf
              (mkDocument 2
                 (fun i => Returned (mkPage true None
                    (match i with 1 => None | _ => Some [N.of_nat i] end))))
              [mkFile (js "exams_page_2.jpg") (js "image/jpeg") [2%N]]
              eq_refl eq_refl) as (Heq & Hlen & _).
  split; [|exact Hlen]. reflexivity.
Defined.

Lemma convert_pages_Threw pdf pdfName todo :
  forall i imageFiles e,
    convert_pages pdf pdfName todo i imageFiles = Threw e ->
    exists k, i <= k < i + todo /\ page_fails pdf k.
Proof.
  induction todo as [|todo IH]; intros i imageFiles e; cbn [convert_pages]; [done|].
  destruct (getPage pdf i) as [page|e0] eqn:Hpage.
  2:{ intros _. exists i. split; [lia|]. left. by eexists. }
  destruct (context2d page) eqn:Hcontext.
  2:{ intros _. exists i. split; [lia|]. right. exists page. split; [done | by left]. }
  destruct (render page) as [e0|] eqn:Hrender.
  { intros _. exists i. split; [lia|]. right. exists page. split; [done|]. right. by eexists. }
  intros (k & Hk & Hfail)%IH. exists k. split; [lia | done].
Qed.

(** X2: the conversion throws exactly when the PDF cannot be loaded or one
    of its pages cannot be loaded, drawn on or rendered; a PDF all of
    whose pages render and encode gives one image per page, named after
    the PDF and the page number, in page order. *)
Theorem convertPdfToImages_outcomes getDocument pdfFile :
  ((exists e, convertPdfToImages getDocument pdfFile = Threw e)
   <-> (exists e, getDocument pdfFile = Threw e)
       \/ exists pdf k,
            getDocument pdfFile = Returned pdf
            /\ 1 <= k <= numPages pdf /\ page_fails pdf k)
  /\ (forall pdf,
        getDocument pdfFile = Returned pdf ->
        (forall k, 1 <= k <= numPages pdf -> page_renders pdf k) ->
        exists imageFiles,
          convertPdfToImages getDocument pdfFile = Returned imageFiles
          /\ length imageFiles = numPages pdf
          /\ file_name <$> imageFiles
             = page_file_name (file_name pdfFile) <$> seq 1 (numPages pdf)).
Proof.
  unfold convertPdfToImages. split.
  - destruct (getDocument pdfFile) as [pdf|e0] eqn:Hdoc.
    2:{ split; [intros _; left | intros _]; by eexists. }
    split.
    + intros [e (k & Hk & Hfail)%convert_pages_Threw]. right.
      exists pdf, k. split_and!; [done | lia | lia | done].
    + intros [[e [=]]|(pdf0 & k & [= <-] & Hk & Hfail)].
      apply (convert_pages_page_fails _ _ _ _ _ k); [lia | done].
  - intros pdf -> Hall.
    destruct (convert_pages_all_render pdf (file_name pdfFile) (numPages pdf) 1 [])
      as (new & Hrun & Hnames).
    { intros k Hk. apply Hall. lia. }
    exists new. split; [exact Hrun|]. split; [|exact Hnames].
    apply (f_equal length) in Hnames. by rewrite !length_fmap, length_seq in Hnames.
Qed.

Lemma convertPdfToImages_outcomes_witness :
  (exists imageFiles,
      convertPdfToImages both_pages_fine exams_pdf = Returned imageFiles
      /\ length imageFiles = 2
      /\ file_name <$> imageFiles = [js "exams_page_1.jpg"; js "exams_page_2.jpg"])
  /\ exists e, convertPdfToImages second_page_no_context exams_pdf = Threw e.
Proof.
  split.
  - destruct (convertPdfToImages_outcomes both_pages_fine exams_pdf) as [_ Hall].
    apply (Hall (mkDocument 2
                   (fun i => Returned (mkPage true None (Some [N.of_nat i])))));
      [reflexivity|].
    intros k Hk. do 2 eexists. by split_and!.
  - destruct (convertPdfToImages_outcomes second_page_no_context exams_pdf)
      as [[_ Hfail] _].
    apply Hfail. right. eexists. exists 2. split; [reflexivity|].
    split; [cbn; lia|]. right. eexists. split; [reflexivity|]. by left.
Defined.

Lemma starts_with_app pat rest : starts_with pat (pat ++ rest) = true.
Proof. induction pat as [|c pat IH]; [done|]. cbn. by rewrite N.eqb_refl. Qed.

Lemma starts_with_length pat s : starts_with pat s = true -> take (length pat) s = pat.
Proof.
  revert s. induction pat as [|c pat IH]; intros [|d s]; cbn; try done.
  intros [->%N.eqb_eq Hs]%andb_prop. by rewrite IH.
Qed.

Lemma replace_first_unfold pat rep s :
  replace_first pat rep s
  = if starts_with pat s then rep ++ drop (length pat) s
    else match s with
         | [] => []
         | c :: s' => c :: replace_first pat rep s'
         end.
Proof. by destruct s. Qed.

(** [replace] with a string pattern rewrites the first occurrence, and only
    it. *)
Lemma replace_first_at pat rep before rest :
  (forall k, k < length before -> starts_with pat (drop k (before ++ pat ++ rest)) = false) ->
  replace_first pat rep (before ++ pat ++ rest) = before ++ rep ++ rest.
Proof.
  induction before as [|c before IH]; intros Hnot.
  - cbn [app]. rewrite replace_first_unfold, starts_with_app.
    by rewrite drop_app_length.
  - pose proof (Hnot 0 ltac:(cbn; lia)) as H0. rewrite drop_0 in H0.
    rewrite replace_first_unfold, H0. cbn [app]. f_equal. apply IH.
    intros k Hk. apply (Hnot (S k)). cbn. lia.
Qed.

Lemma replace_first_never pat rep s :
  never_occurs pat s -> replace_first pat rep s = s.
Proof.
  induction s as [|c s IH]; intros Hnever.
  - pose proof (Hnever 0) as H0. rewrite drop_0 in H0.
    by rewrite replace_first_unfold, H0.
  - pose proof (Hnever 0) as H0. rewrite drop_0 in H0.
    rewrite replace_first_unfold, H0. f_equal. apply IH.
    intros k. apply (Hnever (S k)).
Qed.

(** X3: the page images take the PDF's name without its extension: for a name
    [base.pdf] whose base holds no dot, page [i] is named
    [base_page_i.jpg]; a name in which [.pdf] occurs nowhere (an upper-case
    extension, say) is kept whole. *)
Theorem page_file_name_extension (base pdfName : JSString) (i : nat) :
  (Forall (fun c => c <> 46%N) base ->
     page_file_name (base ++ js ".pdf") i
     = base ++ js "_page_" ++ number_toString (Z.of_nat i) ++ js ".jpg")
  /\ (never_occurs (js ".pdf") pdfName ->
        page_file_name pdfName i
        = pdfName ++ js "_page_" ++ number_toString (Z.of_nat i) ++ js ".jpg").
Proof.
  unfold page_file_name. split.
  - intros Hbase.
    rewrite <- (app_nil_r (base ++ js ".pdf")), <- app_assoc.
    rewrite (replace_first_at (js ".pdf") [] base []); [by rewrite !app_nil_r|].
    intros k Hk. rewrite drop_app_le by lia.
    destruct (drop k base) as [|c rest] eqn:Hdrop.
    { apply (f_equal length) in Hdrop. rewrite length_drop in Hdrop. cbn in Hdrop. lia. }
    assert (c <> 46%N) as Hc.
    { rewrite Forall_forall in Hbase. apply Hbase.
      apply (list_elem_of_lookup_2 _ k). rewrite <- (Nat.add_0_r k), <- lookup_drop.
      by rewrite Hdrop. }
    change (js ".pdf") with (46%N :: js "pdf"). cbn [app starts_with].
    by rewrite (proj2 (N.eqb_neq 46 c)).
  - intros Hnever. by rewrite replace_first_never.
Qed.

Lemma page_file_name_extension_witness :
  page_file_name (js "exams" ++ js ".pdf") 3 = js "exams_page_3.jpg"
  /\ page_file_name (js "SCAN.PDF") 3 = js "SCAN.PDF_page_3.jpg".
Proof.
  destruct (page_file_name_extension (js "exams") (js "SCAN.PDF") 3) as [Hbase Hwhole].
  split.
  - rewrite Hbase; [reflexivity|]. cbn. repeat (constructor; [lia|]). constructor.
  - rewrite Hwhole; [reflexivity|]. intros k.
    do 9 (destruct k as [|k]; [reflexivity|]). by destruct k.
Defined.

End RasterizerFacts.

(** ** The component between two actions *)

Section AtRest.
Import App.
Local Open Scope handler_scope.

(** With a positive page count it ends within [length images] rounds. *)
Lemma split_students_returns images p acc w :
  0 < p ->
  exists recs,
    split_students (length images) images p 0 acc w
    = Some (acc ++ recs, mkWorld (react w) (next_uuid w + length recs) (trace w))
    /\ chunked p images (files <$> recs)
    /\ Forall fresh recs
    /\ id <$> recs = seq (next_uuid w) (length recs).
Proof.
  intros Hp.
  destruct (split_students_from p images Hp (length images) 0 acc w ltac:(lia))
    as (recs & Hrun & Hchunks & Hfresh & Hids).
  exists recs. by rewrite drop_0 in Hchunks.
Qed.

(** The state updates of a grading run leave all but the queue, the
    toast, the step and the busy flag alone. *)
Lemma react_after_records (evs : list Event) (s : State) :
  Forall (fun e => match e with
                   | SetSubmissions _ | CallGradeSubmission _ _ _
                   | SetToastMessage _ => True
                   | _ => False
                   end) evs ->
  let s' := foldl (fun s e => apply e s) s evs in
  currentStep s' = currentStep s /\ referenceFile s' = referenceFile s
  /\ model s' = model s /\ isGrading s' = isGrading s
  /\ isProcessingPdf s' = isProcessingPdf s /\ stagedFiles s' = stagedFiles s
  /\ isBulkMode s' = isBulkMode s /\ pagesPerStudent s' = pagesPerStudent s
  /\ showDevSettings s' = showDevSettings s.
Proof.
  intros Hevs. revert s. induction Hevs as [|e evs He _ IH]; intros s; [done|].
  cbn [foldl]. specialize (IH (apply e s)). cbn zeta in *.
  destruct e; try done; exact IH.
Qed.

Lemma record_events_kinds grader ref m queue (l : list StudentSubmission) :
  Forall (fun e => match e with
                   | SetSubmissions _ | CallGradeSubmission _ _ _
                   | SetToastMessage _ => True
                   | _ => False
                   end)
    (concat (imap (record_events grader ref m queue) l)).
Proof.
  apply Forall_concat, Forall_forall. intros evs Hin.
  apply elem_of_lookup_imap in Hin as (j & s & -> & _).
  unfold record_events, ocr_toast.
  repeat (apply Forall_app; split); try by repeat constructor.
  destruct (grader _ _ _ _); [case_bool_decide|]; by repeat constructor.
Qed.

(** The state a grading run ends in, but for its queue and its toast. *)
Lemma react_after_run grader ref m queue w :
  let s' := react (after (run_events grader ref m queue) w) in
  currentStep s' = GRADING /\ referenceFile s' = referenceFile (react w)
  /\ model s' = model (react w) /\ isGrading s' = false
  /\ isProcessingPdf s' = isProcessingPdf (react w)
  /\ stagedFiles s' = stagedFiles (react w)
  /\ isBulkMode s' = isBulkMode (react w)
  /\ pagesPerStudent s' = pagesPerStudent (react w)
  /\ showDevSettings s' = showDevSettings (react w).
Proof.
  unfold run_events. rewrite !after_app. cbn [after react foldl apply].
  match goal with
  | |- context [foldl _ ?s0 (concat ?evs)] =>
      pose proof (react_after_records (concat evs) s0
                    (record_events_kinds grader ref m queue queue)) as H
  end.
  cbn zeta in *. cbn [currentStep referenceFile model isGrading isProcessingPdf
                      stagedFiles isBulkMode pagesPerStudent showDevSettings] in *.
  intuition.
Qed.

Lemma typed_pages_positive parsed : 1 <= Ui.typed_pages parsed.
Proof. unfold Ui.typed_pages. destruct parsed as [z|]; [destruct (z =? 0)%Z|]; lia. Qed.

Lemma is_step_eq s step : Ui.is_step s step = true <-> currentStep s = step.
Proof. unfold Ui.is_step. destruct (currentStep s), step; intuition congruence. Qed.

(** An enabled action leaves the component at rest again. *)
Lemma handler_at_rest a s n w' :
  at_rest s ->
  Ui.enabled a s = true ->
  Ui.handler a (mkWorld s n []) = Some (tt, w') ->
  at_rest (react w').
Proof.
  intros (Hp & Hg & Hpdf & Href & Hbulk) Hen.
  destruct a as [fs| | | |m0| | |parsed|getDocument fs|index| |id0| |grader
                |id0 editName editClass|]; cbn [Ui.handler Ui.enabled] in *;
    repeat match goal with
           | H : _ && _ = true |- _ => apply andb_true_iff in H as [? ?]
           | H : Ui.is_step _ _ = true |- _ => apply is_step_eq in H
           | H : bool_decide _ = true |- _ => apply bool_decide_eq_true in H
           | H : negb _ = true |- _ => apply negb_true_iff in H
           end.
  - destruct fs as [|f fs]; intros [= <-]; cbn; unfold at_rest; cbn; solve [intuition eauto].
  - intros [= <-]. unfold at_rest; cbn; solve [intuition eauto].
  - intros [= <-]. unfold at_rest; cbn; solve [intuition eauto].
  - intros [= <-]. unfold at_rest; cbn; solve [intuition eauto].
  - intros [= <-]. unfold at_rest; cbn; solve [intuition eauto].
  - intros [= <-]. unfold at_rest; cbn; solve [intuition eauto].
  - intros [= <-]. unfold at_rest; cbn; solve [intuition eauto].
  - intros [= <-]. unfold at_rest; cbn. pose proof (typed_pages_positive parsed).
    solve [intuition eauto].
  - unfold handleFileSelect. destruct fs as [|file rest]; [done|].
    cbn [App.bind rendered react]. destruct (isBulkMode s) eqn:Hmode.
    2:{ intros [= <-]. unfold at_rest; cbn. solve [intuition congruence]. }
    case_bool_decide.
    { intros [= <-]. unfold at_rest; cbn. solve [intuition eauto]. }
    unfold setIsProcessingPdf at 1. erewrite bind_Some by apply emit_after.
    destruct (Pdf.convertPdfToImages getDocument file) as [images|e].
    2:{ intros [= <-]. unfold at_rest; cbn. solve [intuition eauto]. }
    unfold App.bind at 1. unfold App.bind at 1.
    destruct (split_students _ _ _ _ _ _) as [[out w2]|] eqn:Hsplit; [|discriminate].
    apply split_students_fresh in Hsplit as (new & -> & _ & _ & ->).
    cbn. intros [= <-]. unfold at_rest; cbn. solve [intuition eauto].
  - intros [= <-]. unfold at_rest; cbn. solve [intuition congruence].
  - unfold addStudentToQueue. cbn [App.bind rendered react].
    destruct (stagedFiles s) as [|f staged] eqn:Hstaged; [done|].
    cbn. intros [= <-]. unfold at_rest; cbn. solve [intuition eauto].
  - intros [= <-]. unfold at_rest; cbn. solve [intuition eauto].
  - intros [= <-]. unfold at_rest; cbn. solve [intuition eauto].
  - destruct (referenceFile s) as [ref|] eqn:Hr.
    2:{ destruct Href as [? [=]]. congruence. }
    rewrite (startGrading_runs grader ref (model s) (submissions s)) by done.
    intros [= <-].
    pose proof (react_after_run grader ref (model s) (submissions s) (mkWorld s n []))
      as (Hstep & Hrf & _ & Hgr & Hpp & Hst & Hbm & Hps & _).
    cbn [react] in *. unfold at_rest.
    rewrite Hrf, Hgr, Hpp, Hst, Hbm, Hps, Hr. solve [intuition eauto].
  - cbn [App.bind rendered react]. unfold ResultsTable.saveEditing.
    destruct (list_find _ _) as [[i sub]|]; [|by intros [= <-]].
    destruct (result sub); intros [= <-]; [|done].
    unfold at_rest; cbn. solve [intuition eauto].
  - intros [= <-]. unfold at_rest; cbn.
    assert (is_Some (referenceFile s)) by (apply Href; congruence).
    split_and!; [lia | done..].
Qed.

Lemma at_rest_invariant w : Ui.reachable w -> at_rest (react w).
Proof.
  induction 1 as [|a w w' Hw IH Hen _ Hperform].
  - unfold at_rest; cbn. by split_and!.
  - unfold Ui.perform in Hperform.
    destruct (Ui.handler a _) as [[[] w1]|] eqn:Hh; [|discriminate].
    cbn in Hperform. injection Hperform as <-. by eapply handler_at_rest.
Qed.

End AtRest.

(** ** Filling the queue *)

Section Queue.
Import App.
Local Open Scope handler_scope.

(** X9: a bulk upload appends one pending record per run of pages, under
    fresh identifiers, and reports their number. *)
Theorem bulk_upload_adds_students getDocument file rest images w :
  isBulkMode (react w) = true ->
  file_type file = js "application/pdf" ->
  0 < pagesPerStudent (react w) ->
  Pdf.convertPdfToImages getDocument file = Returned images ->
  exists recs w',
    handleFileSelect getDocument (Some (file :: rest)) w = Some (tt, w')
    /\ submissions (react w') = submissions (react w) ++ recs
    /\ length recs = ceil_div (length images) (pagesPerStudent (react w))
    /\ concat (files <$> recs) = images
    /\ Forall fresh recs
    /\ id <$> recs = seq (next_uuid w) (length recs)
    /\ next_uuid w' = next_uuid w + length recs
    /\ toastMessage (react w') = Some (ToastPdfDone (length recs))
    /\ isProcessingPdf (react w') = false
    /\ stagedFiles (react w') = stagedFiles (react w)
    /\ trace w' = trace w
         ++ [SetIsProcessingPdf true;
             SetSubmissions (submissions (react w) ++ recs);
             SetToastMessage (Some (ToastPdfDone (length recs)));
             SetIsProcessingPdf false].
Proof.
  intros Hbulk Htype Hp Himages.
  unfold handleFileSelect. cbn [App.bind rendered]. rewrite Hbulk, Htype.
  rewrite bool_decide_false by (intros H; by apply H).
  unfold setIsProcessingPdf at 1. erewrite bind_Some by apply emit_after.
  rewrite Himages. unfold App.bind at 1. unfold App.bind at 1.
  match goal with
  | |- context [split_students _ images ?p 0 [] ?w0] =>
      destruct (split_students_returns images p [] w0 Hp)
        as (recs & -> & Hchunks & Hfresh & Hids)
  end.
  destruct (chunked_shape _ _ _ Hp Hchunks) as (Hlen & Hconcat & _).
  rewrite length_fmap in Hlen.
  exists recs. eexists. split; [reflexivity|].
  cbn. split_and!; try done. by rewrite <- !app_assoc.
Qed.

Lemma bulk_upload_adds_students_witness :
  exists recs w',
    handleFileSelect both_pages_fine (Some [exams_pdf]) (bulk_world 1 [])
      = Some (tt, w')
    /\ submissions (react w') = recs
    /\ length recs = 2
    /\ toastMessage (react w') = Some (ToastPdfDone 2).
Proof.
  assert (exists images,
            Pdf.convertPdfToImages both_pages_fine exams_pdf = Returned images
            /\ length images = 2) as (images & Himages & Hlen).
  { eexists. split; [vm_compute; reflexivity | reflexivity]. }
  destruct (bulk_upload_adds_students both_pages_fine exams_pdf [] images
              (bulk_world 1 []) eq_refl eq_refl ltac:(cbn; lia) Himages)
    as (recs & w' & Hrun & Hsubs & Hcount & _ & _ & _ & _ & Htoast & _).
  rewrite Hlen in Hcount. change (ceil_div 2 _) with 2 in Hcount.
  exists recs, w'. split_and!; [exact Hrun | exact Hsubs | exact Hcount |].
  by rewrite Htoast, Hcount.
Defined.

(** X10: a bulk upload of anything but a PDF, or of a PDF that cannot be
    rasterized, leaves the queue alone and says so. *)
Theorem bulk_upload_rejects getDocument file rest w :
  isBulkMode (react w) = true ->
  (file_type file <> js "application/pdf" ->
     handleFileSelect getDocument (Some (file :: rest)) w
     = Some (tt, after [SetToastMessage (Some ToastBulkPdfOnly)] w))
  /\ (file_type file = js "application/pdf" ->
      forall e,
        Pdf.convertPdfToImages getDocument file = Threw e ->
        handleFileSelect getDocument (Some (file :: rest)) w
        = Some (tt, after [SetIsProcessingPdf true;
                           SetToastMessage (Some ToastPdfFailed);
                           SetIsProcessingPdf false] w)).
Proof.
  intros Hbulk. split.
  - intros Htype. unfold handleFileSelect. cbn [App.bind rendered].
    rewrite Hbulk, bool_decide_true by done. reflexivity.
  - intros Htype e Hfail. unfold handleFileSelect. cbn [App.bind rendered].
    rewrite Hbulk, Htype, bool_decide_false by (intros H; by apply H).
    unfold setIsProcessingPdf at 1. erewrite bind_Some by apply emit_after.
    rewrite Hfail. unfold showToast, setToastMessage, setIsProcessingPdf, emit, after.
    cbn. by rewrite <- !app_assoc.
Qed.

Lemma bulk_upload_rejects_witness :
  handleFileSelect no_pdf (Some [key_file]) (bulk_world 1 [])
  = Some (tt, after [SetToastMessage (Some ToastBulkPdfOnly)] (bulk_world 1 [])).
Proof.
  by apply (bulk_upload_rejects no_pdf key_file [] (bulk_world 1 []) eq_refl).
Defined.

(** X11: in standard mode the files picked in several goes are staged in
    order, without being rasterized, and confirmed as one pending record. *)
Theorem staged_files_make_one_submission getDocument getDocument' fs1 fs2 w :
  isBulkMode (react w) = false ->
  stagedFiles (react w) ++ fs1 ++ fs2 <> [] ->
  exists w1 w2 w3,
    handleFileSelect getDocument (Some fs1) w = Some (tt, w1)
    /\ handleFileSelect getDocument' (Some fs1) w = Some (tt, w1)
    /\ handleFileSelect getDocument (Some fs2) w1 = Some (tt, w2)
    /\ stagedFiles (react w2) = stagedFiles (react w) ++ fs1 ++ fs2
    /\ submissions (react w2) = submissions (react w)
    /\ addStudentToQueue w2 = Some (tt, w3)
    /\ submissions (react w3)
       = submissions (react w)
           ++ [mkSubmission (next_uuid w) (stagedFiles (react w) ++ fs1 ++ fs2)
                 pending None None]
    /\ stagedFiles (react w3) = []
    /\ next_uuid w3 = S (next_uuid w).
Proof.
  intros Hbulk Hne.
  assert (forall gd fs w0,
            isBulkMode (react w0) = false ->
            exists w0',
              handleFileSelect gd (Some fs) w0 = Some (tt, w0')
              /\ stagedFiles (react w0') = stagedFiles (react w0) ++ fs
              /\ submissions (react w0') = submissions (react w0)
              /\ isBulkMode (react w0') = false
              /\ next_uuid w0' = next_uuid w0
              /\ forall gd', handleFileSelect gd' (Some fs) w0 = Some (tt, w0'))
    as Hstage.
  { intros gd fs w0 Hb. unfold handleFileSelect. destruct fs as [|f fs].
    - exists w0. by rewrite app_nil_r.
    - cbn [App.bind rendered]. rewrite Hb. eexists. split; [reflexivity|]. by cbn. }
  destruct (Hstage getDocument fs1 w Hbulk)
    as (w1 & Hrun1 & Hst1 & Hsub1 & Hb1 & Hn1 & Hany).
  destruct (Hstage getDocument fs2 w1 Hb1) as (w2 & Hrun2 & Hst2 & Hsub2 & _ & Hn2 & _).
  rewrite Hst1, <- app_assoc in Hst2. rewrite Hsub1 in Hsub2. rewrite Hn1 in Hn2.
  exists w1, w2. unfold addStudentToQueue. cbn [App.bind rendered].
  rewrite Hst2. destruct (stagedFiles (react w) ++ fs1 ++ fs2) as [|f staged] eqn:Hall;
    [done|].
  eexists. split_and!; [done | apply Hany | done | done | done | reflexivity | ..];
    cbn; by rewrite ?Hsub2, ?Hn2.
Qed.

Lemma staged_files_make_one_submission_witness :
  exists w3,
    (handleFileSelect no_pdf (Some [page 1]) (mkWorld initial 0 []) ≫= fun '(_, w1) =>
     handleFileSelect no_pdf (Some [exams_pdf; page 2]) w1 ≫= fun '(_, w2) =>
     addStudentToQueue w2) = Some (tt, w3)
    /\ submissions (react w3)
       = [mkSubmission 0 [page 1; exams_pdf; page 2] pending None None].
Proof.
  destruct (staged_files_make_one_submission no_pdf no_pdf [page 1]
              [exams_pdf; page 2] (mkWorld initial 0 []) eq_refl ltac:(done))
    as (w1 & w2 & w3 & Hrun1 & _ & Hrun2 & _ & _ & Hadd & Hsubs & _).
  exists w3. rewrite Hrun1. cbn [mbind option_bind]. rewrite Hrun2.
  cbn [mbind option_bind]. split; [exact Hadd | exact Hsubs].
Defined.

Lemma filter_keeps_all {A} (Q : A -> Prop) `{forall x, Decision (Q x)} (l : list A) :
  Forall Q l -> filter Q l = l.
Proof.
  induction 1 as [|x l Hx _ IH]; [done|].
  by rewrite filter_cons_True, IH.
Qed.

(** A queue with distinct identifiers, cut at the record named [id0]. *)
Lemma queue_cut (queue : list StudentSubmission) id0 :
  NoDup (id <$> queue) ->
  id0 ∈ id <$> queue ->
  exists before sub behind,
    queue = before ++ sub :: behind /\ id sub = id0
    /\ Forall (fun s => id s <> id0) before
    /\ Forall (fun s => id s <> id0) behind.
Proof.
  intros Hnodup (sub & -> & Hin)%list_elem_of_fmap.
  apply list_elem_of_split in Hin as (before & behind & ->).
  exists before, sub, behind. rewrite fmap_app, fmap_cons in Hnodup.
  apply NoDup_app in Hnodup as (_ & Hcross & [Hnot _]%NoDup_cons).
  split_and!; try done; apply Forall_forall; intros s Hs Heq.
  - apply (Hcross (id s)); [by apply list_elem_of_fmap_2|].
    rewrite Heq. apply list_elem_of_here.
  - apply Hnot. rewrite <- Heq. by apply list_elem_of_fmap_2.
Qed.

End Queue.

(** ** The grading service *)

Section Service.
Import Gemini.

(** X15: [fileToBase64] hands over what follows the comma of the data URL;
    a URL without a comma gives [undefined], a failed read is passed on. *)
Theorem fileToBase64_payload env file :
  (forall header payload,
      readAsDataURL env file = Returned (header ++ [44%N] ++ payload) ->
      Forall (fun c => c <> 44%N) header ->
      Forall (fun c => c <> 44%N) payload ->
      fileToBase64 env file = Returned (Some payload))
  /\ (forall dataUrl,
        readAsDataURL env file = Returned dataUrl ->
        Forall (fun c => c <> 44%N) dataUrl ->
        fileToBase64 env file = Returned None)
  /\ (forall e, readAsDataURL env file = Threw e -> fileToBase64 env file = Threw e).
Proof.
  unfold fileToBase64. split_and!.
  - intros header payload -> Hheader Hpayload. cbn [bind].
    by rewrite split_cell_sep, split_no_sep.
  - intros dataUrl -> Hclean. cbn [bind]. by rewrite split_no_sep.
  - by intros e ->.
Qed.

Lemma fileToBase64_payload_witness :
  fileToBase64 answers_true key_file = Returned (Some (js "AAAA")).
Proof.
  destruct (fileToBase64_payload answers_true key_file) as (Hpayload & _).
  apply (Hpayload (js "data:image/jpeg;base64") (js "AAAA")); [reflexivity | |];
    cbn; repeat (constructor; [lia|]); constructor.
Defined.

Lemma image_parts_Returned env studentFiles datas :
  Forall2 (fun f d => fileToBase64 env f = Returned d) studentFiles datas ->
  image_parts env studentFiles
  = Returned (zip_with (fun f d => InlineData (file_type f) d) studentFiles datas).
Proof.
  induction 1 as [|f d fs ds Hf _ IH]; [done|].
  cbn [image_parts zip_with]. by rewrite Hf, IH.
Qed.

Lemma image_parts_Threw env studentFiles file e :
  file ∈ studentFiles ->
  fileToBase64 env file = Threw e ->
  exists e', image_parts env studentFiles = Threw e'.
Proof.
  intros Hin Hfile. induction studentFiles as [|f fs IH].
  - by apply not_elem_of_nil in Hin.
  - cbn [image_parts]. destruct (fileToBase64 env f) as [d|e0] eqn:Hf; [|by eexists].
    apply elem_of_cons in Hin as [->|Hin]; [congruence|].
    destruct (IH Hin) as [e' ->]. by eexists.
Qed.

(** X16: the request names the model chosen and holds the instructions, the
    reference and then the student's pages in order, each with the type of
    its file; a file that cannot be read fails the call. *)
Theorem ask_model_request env referenceFile studentFiles modelName :
  (forall referenceBase64 datas,
      fileToBase64 env referenceFile = Returned referenceBase64 ->
      Forall2 (fun f d => fileToBase64 env f = Returned d) studentFiles datas ->
      ask_model env referenceFile studentFiles modelName
      = generateContent env
          (mkRequest modelName
             (PromptText :: InlineData (file_type referenceFile) referenceBase64
                :: zip_with (fun f d => InlineData (file_type f) d)
                     studentFiles datas)))
  /\ (forall e,
        fileToBase64 env referenceFile = Threw e ->
        ask_model env referenceFile studentFiles modelName = Threw e)
  /\ (forall file e,
        file ∈ studentFiles ->
        fileToBase64 env file = Threw e ->
        exists e', ask_model env referenceFile studentFiles modelName = Threw e').
Proof.
  unfold ask_model. split_and!.
  - intros referenceBase64 datas -> Hpages.
    by rewrite (image_parts_Returned _ _ _ Hpages).
  - by intros e ->.
  - intros file e Hin Hfile.
    destruct (fileToBase64 env referenceFile) as [d|e0]; [|by eexists].
    cbn [bind]. destruct (image_parts_Threw _ _ _ _ Hin Hfile) as [e' ->]. by eexists.
Qed.

Lemma ask_model_request_witness :
  ask_model answers_true key_file [page 1; page 2] gemini_3_pro_preview
  = generateContent answers_true
      (mkRequest gemini_3_pro_preview
         [PromptText;
          InlineData (js "image/jpeg") (Some (js "AAAA"));
          InlineData (js "image/jpeg") (Some (js "AAAA"));
          InlineData (js "image/jpeg") (Some (js "AAAA"))]).
Proof.
  destruct (ask_model_request answers_true key_file [page 1; page 2]
              gemini_3_pro_preview) as (Hrequest & _).
  apply (Hrequest (Some (js "AAAA")) [Some (js "AAAA"); Some (js "AAAA")]);
    [reflexivity|]. by repeat constructor.
Defined.

Lemma missing_or_empty_false v :
  missing_or_empty v = false <-> exists s, v = Some (JStr s) /\ trim s <> [].
Proof.
  unfold missing_or_empty, is_blank, is_string, truthy. split.
  - destruct v as [[| | |s| |]|]; cbn; try (destruct b); try done;
      try (destruct (negb _); done).
    destruct s as [|c s]; [done|]. cbn. case_bool_decide; [done|]. by eexists.
  - intros (s & -> & Hs). destruct s as [|c s]; [done|].
    cbn. by rewrite bool_decide_false.
Qed.

(** X17: a result never comes back with a blank name or class; one read from
    the response is kept as it stands, untrimmed, and the warning flag is
    down exactly when both were read. *)
Theorem normalized_name_and_class env responseText r :
  parse_and_normalize env responseText = Returned r ->
  trim (raw_student_name r) <> []
  /\ trim (raw_student_class r) <> []
  /\ exists raw name cls,
       JSON_parse env responseText = Returned raw
       /\ get raw (js "student_name") = Returned name
       /\ get raw (js "student_class") = Returned cls
       /\ (forall s, name = Some (JStr s) -> trim s <> [] -> raw_student_name r = s)
       /\ (forall s, cls = Some (JStr s) -> trim s <> [] -> raw_student_class r = s)
       /\ (raw_hasOCRIssues r = false
           <-> (exists s, name = Some (JStr s) /\ trim s <> [])
               /\ (exists s, cls = Some (JStr s) /\ trim s <> [])).
Proof.
  intros Hrun.
  destruct (JSON_parse env responseText) as [raw|e] eqn:Hparse.
  2:{ by rewrite (parse_and_normalize_syntax _ _ _ Hparse) in Hrun. }
  assert (raw = JNull \/ raw <> JNull) as [->|Hraw]
    by (destruct raw; (by left) || by right).
  { by rewrite (parse_and_normalize_null _ _ Hparse) in Hrun. }
  destruct (parse_and_normalize_value _ _ _ Hparse Hraw)
    as (name & cls & total & fb & sc & Hname & Hcls & _ & _ & _ & Hvalue).
  rewrite Hvalue in Hrun. injection Hrun as <-. cbn [raw_student_name
    raw_student_class raw_hasOCRIssues].
  split_and!.
  - destruct (missing_or_empty name) eqn:Hm; [by vm_compute|].
    apply missing_or_empty_false in Hm as (s & -> & Hs). exact Hs.
  - destruct (missing_or_empty cls) eqn:Hm; [by vm_compute|].
    apply missing_or_empty_false in Hm as (s & -> & Hs). exact Hs.
  - exists raw, name, cls. split_and!; try done.
    + intros s -> Hs. by rewrite (proj2 (missing_or_empty_false _)) by eauto.
    + intros s -> Hs. by rewrite (proj2 (missing_or_empty_false _)) by eauto.
    + rewrite orb_false_iff, !missing_or_empty_false. reflexivity.
Qed.

Lemma normalized_name_and_class_witness :
  exists r,
    parse_and_normalize answers_true (js "true") = Returned r
    /\ trim (raw_student_name r) <> [] /\ trim (raw_student_class r) <> [].
Proof.
  eexists. split; [vm_compute; reflexivity|].
  destruct (normalized_name_and_class answers_true (js "true") _ eq_refl)
    as (Hname & Hclass & _).
  split; [exact Hname | exact Hclass].
Defined.

End Service.

(** ** A run through the grading service *)

Section ServiceRun.
Import Gemini.

Variables (env : Env) (as_GradingResult : RawGradingResult -> GradingResult).

Lemma gradeSubmission_asks env0 referenceFile studentFiles modelName e :
  ask_model env0 referenceFile studentFiles modelName = Threw e ->
  gradeSubmission env0 referenceFile studentFiles modelName = Threw e.
Proof. unfold gradeSubmission. by intros ->. Qed.

(** The record a run through the service leaves at position [j]. *)
Lemma service_run_record w ref j s :
  App.referenceFile (App.react w) = Some ref ->
  App.submissions (App.react w) !! j = Some s ->
  exists w',
    App.startGrading (service_grader env as_GradingResult) w = Some (tt, w')
    /\ App.submissions (App.react w') !! j
       = Some (settle
                 (service_grader env as_GradingResult j ref (files s)
                    (App.model (App.react w))) s).
Proof.
  intros Href Hj.
  assert (App.submissions (App.react w) <> []) as Hne by (by intros Hnil; rewrite Hnil in Hj).
  destruct (startGrading_final (service_grader env as_GradingResult) w ref Href Hne)
    as (w' & Hrun & _ & Hsubs).
  exists w'. split; [exact Hrun|].
  by rewrite Hsubs, list_lookup_imap, Hj.
Qed.

(** X18: what a record graded through the service ends as: the result read
    from the response, or the message of what went wrong. *)
Theorem service_run_outcomes w ref j s :
  App.referenceFile (App.react w) = Some ref ->
  App.submissions (App.react w) !! j = Some s ->
  exists w' s',
    App.startGrading (service_grader env as_GradingResult) w = Some (tt, w')
    /\ App.submissions (App.react w') !! j = Some s'
    /\ id s' = id s /\ files s' = files s
    /\ (forall r,
          gradeSubmission env ref (files s) (App.model (App.react w)) = Returned r ->
          status s' = completed /\ result s' = Some (as_GradingResult r)
          /\ errorMsg s' = errorMsg s)
    /\ (forall tag,
          readAsDataURL env ref = Threw (NonError tag) ->
          status s' = error /\ errorMsg s' = Some (js "Unknown error")
          /\ result s' = result s)
    /\ (forall message,
          ask_model env ref (files s) (App.model (App.react w))
          = Threw (ErrorObj message) ->
          status s' = error /\ errorMsg s' = Some message)
    /\ (forall response,
          ask_model env ref (files s) (App.model (App.react w)) = Returned response ->
          text response = None \/ text response = Some [] ->
          status s' = error /\ errorMsg s' = Some (js "Empty response from model"))
    /\ (forall response t,
          ask_model env ref (files s) (App.model (App.react w)) = Returned response ->
          text response = Some t -> t <> [] ->
          (exists e, JSON_parse env t = Threw e) \/ JSON_parse env t = Returned JNull ->
          status s' = error
          /\ errorMsg s'
             = Some (js "Failed to parse grading results from model response.")).
Proof.
  intros Href Hj.
  destruct (service_run_record w ref j s Href Hj) as (w' & Hrun & Hrec).
  exists w'. eexists. split; [exact Hrun|]. split; [exact Hrec|].
  unfold service_grader.
  set (m := App.model (App.react w)) in *. split_and!.
  - by destruct (gradeSubmission env ref (files s) m).
  - by destruct (gradeSubmission env ref (files s) m).
  - by intros r ->.
  - intros tag Hread.
    rewrite (gradeSubmission_asks env ref (files s) m (NonError tag)); [done|].
    unfold ask_model, fileToBase64. by rewrite Hread.
  - intros message Hask. by rewrite (gradeSubmission_asks _ _ _ _ _ Hask).
  - intros response Hask Htext.
    rewrite (gradeSubmission_response _ _ _ _ _ Hask). unfold grade_response.
    by destruct Htext as [-> | ->].
  - intros response t Hask Htext Ht Hparse.
    rewrite (gradeSubmission_response _ _ _ _ _ Hask). unfold grade_response.
    rewrite Htext. destruct t as [|c t]; [done|].
    destruct Hparse as [[e Hparse]|Hparse].
    + by rewrite (parse_and_normalize_syntax _ _ _ Hparse).
    + by rewrite (parse_and_normalize_null _ _ Hparse).
Qed.

End ServiceRun.

Section ServiceRunExamples.
Import Gemini.

Lemma service_run_outcomes_witness :
  exists w' s',
    App.startGrading (service_grader unreadable plain_result) (ready three_pending)
      = Some (tt, w')
    /\ App.submissions (App.react w') !! 1 = Some s'
    /\ status s' = error /\ errorMsg s' = Some (js "Unknown error").
Proof.
  destruct (service_run_outcomes unreadable plain_result (ready three_pending)
              key_file 1 (mkSubmission 1 [page 2] pending None None)
              eq_refl eq_refl)
    as (w' & s' & Hrun & Hrec & _ & _ & _ & Hunread & _).
  exists w', s'. split; [exact Hrun|]. split; [exact Hrec|].
  destruct (Hunread (js "ProgressEvent") eq_refl) as (Hstatus & Hmsg & _).
  split; [exact Hstatus | exact Hmsg].
Defined.

End ServiceRunExamples.

(** ** The export rows *)

Section ExportRows.
Import ResultsTable.

Lemma scoresMap_fold (q : number) (l : list ScoreItem) :
  forall m : gmap Z (number * JSString),
    foldl (fun m s => <[q_num s := (score s, str_or (student_answer s) (js "-"))]> m)
      m l !! q
    = match last (filter (fun s => q_num s = q) l) with
      | Some s => Some (score s, str_or (student_answer s) (js "-"))
      | None => m !! q
      end.
Proof.
  induction l as [|s l IH]; intros m; [done|].
  cbn [foldl]. rewrite IH. destruct (decide (q_num s = q)) as [Hq|Hq].
  - rewrite filter_cons_True by done. rewrite last_cons.
    destruct (last (filter _ l)); [done|]. by rewrite Hq, lookup_insert_eq.
  - rewrite filter_cons_False by done.
    destruct (last (filter _ l)); [done|]. by rewrite lookup_insert_ne.
Qed.

Lemma scoresMap_lookup (res : GradingResult) (q : number) :
  scoresMap res !! q
  = (fun s => (score s, str_or (student_answer s) (js "-"))) <$> deciding_item res q.
Proof.
  unfold scoresMap, deciding_item. rewrite scoresMap_fold, lookup_empty.
  by destruct (last _).
Qed.

(** X19: the two cells of a question show the answer and the score of the
    last score item carrying its number, a dash for an empty answer, and a
    dash and a zero when the record has no item for it. *)
Theorem question_cells (completed : list StudentSubmission) (res : GradingResult) :
  qCols completed res
  = sortedQNums completed ≫= fun q =>
      match deciding_item res q with
      | Some s => [str_or (student_answer s) (js "-"); number_toString (score s)]
      | None => [js "-"; js "0"]
      end.
Proof.
  unfold qCols. apply list_bind_ext; [|done]. intros q.
  rewrite scoresMap_lookup. by destruct (deciding_item res q).
Qed.

Lemma completedSubmissions_idemp submissions :
  completedSubmissions (completedSubmissions submissions)
  = completedSubmissions submissions.
Proof.
  unfold completedSubmissions. apply filter_keeps_all, Forall_forall.
  by intros s [? _]%list_elem_of_filter.
Qed.

(** X20: an export is made of the completed records only: there is none
    without one, and the records that are pending, being graded or failed
    change nothing. *)
Theorem export_of_completed_only (submissions : list StudentSubmission) :
  (handleExportCSV submissions = None <-> completedSubmissions submissions = [])
  /\ (handleCopyToClipboard submissions = None <-> completedSubmissions submissions = [])
  /\ handleExportCSV submissions = handleExportCSV (completedSubmissions submissions)
  /\ handleCopyToClipboard submissions
     = handleCopyToClipboard (completedSubmissions submissions).
Proof.
  unfold handleExportCSV, handleCopyToClipboard, getExportData.
  rewrite !completedSubmissions_idemp.
  destruct (completedSubmissions submissions); by split_and!.
Qed.

Lemma replace_all_char_without c rep s :
  Forall (fun x => x <> c) rep -> Forall (fun x => x <> c) (replace_all_char c rep s).
Proof.
  intros Hrep. unfold replace_all_char. apply Forall_bind, Forall_forall.
  intros x _. unfold compose. destruct (x =? c)%N eqn:Hx; [done|].
  apply Forall_singleton. by apply N.eqb_neq.
Qed.

Lemma replace_all_char_keeps (P : N -> Prop) c rep s :
  Forall P rep -> Forall P s -> Forall P (replace_all_char c rep s).
Proof.
  intros Hrep Hs. unfold replace_all_char. apply Forall_bind.
  eapply Forall_impl; [exact Hs|]. intros x Hx. unfold compose.
  destruct (x =? c)%N; [done|]. by apply Forall_singleton.
Qed.

Lemma join_chars (P : N -> Prop) sep cells :
  Forall P sep -> Forall (Forall P) cells -> Forall P (join sep cells).
Proof.
  intros Hsep Hcells. induction Hcells as [|cell cells Hcell Hcells IH]; [done|].
  destruct cells as [|cell' cells]; [done|].
  change (join sep (cell :: cell' :: cells))
    with (cell ++ sep ++ join sep (cell' :: cells)).
  by rewrite !Forall_app.
Qed.

Lemma header_char_plain c : header_char c -> c <> 9%N /\ c <> 10%N.
Proof. unfold header_char. tauto. Qed.

(** The cells of a clipboard row hold no tab and no line feed when the
    result is clean: the tabs of the feedback are gone. *)
Lemma tsv_cells_chars completed res :
  clean_result res ->
  Forall (Forall (fun c => c <> 9%N /\ c <> 10%N)) (tsv_cells completed res).
Proof.
  intros (Hclass & Hname & Hanswers & Hfeedback).
  assert (forall z, Forall (fun c => c <> 9%N /\ c <> 10%N) (number_toString z)) as Hnum.
  { intros z. eapply Forall_impl; [apply number_toString_chars|].
    apply header_char_plain. }
  unfold tsv_cells. repeat (apply Forall_app; split).
  - by repeat constructor.
  - unfold qCols. apply Forall_bind, Forall_forall. intros q _.
    unfold compose. rewrite scoresMap_lookup. unfold deciding_item.
    destruct (last _) as [s|] eqn:Hlast; cbn [fmap option_fmap option_map fst snd].
    + apply last_Some in Hlast as [l Hl].
      assert (s ∈ scores res) as Hs.
      { assert (s ∈ filter (fun s => q_num s = q) (scores res)) as Hin.
        { rewrite Hl. apply elem_of_app; right. apply list_elem_of_here. }
        by apply list_elem_of_filter in Hin as [_ ?]. }
      rewrite Forall_forall in Hanswers. specialize (Hanswers _ Hs).
      apply Forall_cons; split; [|apply Forall_singleton, Hnum].
      unfold str_or. destruct (student_answer s); [|done].
      change (js "-") with [45%N]. apply Forall_singleton. split; lia.
    + change (js "-") with [45%N]. change (js "0") with [48%N].
      apply Forall_cons; split; [|apply Forall_singleton];
        apply Forall_singleton; split; lia.
  - apply Forall_singleton. unfold str_or.
    assert (Forall (fun c => c <> 10%N) (replace_all_char 9 [32%N] (feedback res)))
      as H10 by (apply replace_all_char_keeps; [by repeat constructor | done]).
    assert (Forall (fun c => c <> 9%N) (replace_all_char 9 [32%N] (feedback res)))
      as H9 by (apply replace_all_char_without; by repeat constructor).
    destruct (feedback res) as [|c fb] eqn:Hfb; [done|].
    rewrite Forall_forall in H9, H10. apply Forall_forall. intros x Hx.
    split; [by apply H9 | by apply H10].
Qed.

Lemma cells_without sep (cells : list JSString) :
  sep = 9%N \/ sep = 10%N ->
  Forall (Forall (fun c => c <> 9%N /\ c <> 10%N)) cells ->
  Forall (Forall (fun c => c <> sep)) cells.
Proof.
  intros Hsep Hcells. eapply Forall_impl; [exact Hcells|]. intros cell Hcell.
  eapply Forall_impl; [exact Hcell|]. intros c [H9 H10]. by destruct Hsep as [-> | ->].
Qed.

Lemma tsv_cells_nonempty completed res : tsv_cells completed res <> [].
Proof. done. Qed.

Lemma headers_export_columns completed : headers completed = export_columns (sortedQNums completed).
Proof. reflexivity. Qed.

(** X21: pasted into a sheet, the clipboard text of clean results falls
    apart into the header line and one row per completed record, cell for
    cell. *)
Theorem clipboard_round_trip (submissions : list StudentSubmission) :
  completedSubmissions submissions <> [] ->
  Forall (fun sub => clean_result (result_of sub)) (completedSubmissions submissions) ->
  exists tsvContent,
    handleCopyToClipboard submissions = Some tsvContent
    /\ split 9 <$> split 10 tsvContent
       = headers (completedSubmissions submissions)
           :: ((fun sub => tsv_cells (completedSubmissions submissions) (result_of sub))
                 <$> completedSubmissions submissions).
Proof.
  intros Hne Hclean. unfold handleCopyToClipboard.
  set (completed := completedSubmissions submissions) in *.
  destruct completed as [|sub0 rest] eqn:Hcompleted; [done|]. rewrite <- Hcompleted in *.
  eexists. split; [reflexivity|].
  assert (Forall (Forall (fun c => c <> 9%N /\ c <> 10%N)) (headers completed)) as Hheaders.
  { rewrite headers_export_columns. eapply Forall_impl; [apply export_columns_chars|].
    intros cell Hcell. eapply Forall_impl; [exact Hcell|]. apply header_char_plain. }
  rewrite split_join.
  - rewrite fmap_cons, <- list_fmap_compose. f_equal.
    + apply split_join; [rewrite headers_export_columns; apply export_columns_nonempty|].
      apply cells_without; [by left | exact Hheaders].
    + apply Forall_fmap_ext_1. eapply Forall_impl; [exact Hclean|].
      intros sub Hsub. unfold compose. cbn beta in *. apply split_join; [apply tsv_cells_nonempty|].
      apply cells_without; [by left | by apply tsv_cells_chars].
  - done.
  - constructor.
    + apply join_chars; [by repeat constructor|].
      apply (Forall_impl _ _ _ (cells_without 10 _ ltac:(by right) Hheaders)).
      intros cell Hcell. exact Hcell.
    + apply Forall_fmap. eapply Forall_impl; [exact Hclean|].
      intros sub Hsub. unfold compose. cbn beta in *. apply join_chars; [by repeat constructor|].
      apply (cells_without 10); [by right | by apply tsv_cells_chars].
Qed.

Lemma clipboard_round_trip_witness :
  exists tsvContent,
    handleCopyToClipboard export_sample = Some tsvContent
    /\ length (split 10 tsvContent) = 3.
Proof.
  assert (Forall (fun sub => clean_result (result_of sub))
            (completedSubmissions export_sample)) as Hclean.
  { apply Forall_forall. intros sub Hsub.
    apply list_elem_of_filter in Hsub as [_ Hsub].
    repeat (apply elem_of_cons in Hsub as [->|Hsub]);
      [| |  | by apply not_elem_of_nil in Hsub];
      unfold clean_result; cbn;
      (split_and!; repeat apply Forall_cons_2; try apply Forall_nil_2;
       try split; lia). }
  destruct (clipboard_round_trip export_sample ltac:(done) Hclean)
    as (tsvContent & Hcopy & Hsplit).
  exists tsvContent. split; [exact Hcopy|].
  apply (f_equal length) in Hsplit. by rewrite length_fmap in Hsplit.
Defined.

Lemma replace_all_char_cons c rep x (s : JSString) :
  replace_all_char c rep (x :: s)
  = (if (x =? c)%N then rep else [x]) ++ replace_all_char c rep s.
Proof. reflexivity. Qed.

Lemma csv_unquote_body_doubled (s : JSString) :
  csv_unquote_body (replace_all_char 34 [34%N; 34%N] s ++ [34%N]) = Some s.
Proof.
  induction s as [|c s IH]; [done|].
  rewrite replace_all_char_cons. destruct (c =? 34)%N eqn:Hc.
  - apply N.eqb_eq in Hc as ->. cbn [app csv_unquote_body N.eqb Pos.eqb].
    by rewrite IH.
  - cbn [app csv_unquote_body]. by rewrite Hc, IH.
Qed.

Lemma csv_unquote_body_plain (s : JSString) :
  Forall (fun c => c <> 34%N) s -> csv_unquote_body (s ++ [34%N]) = Some s.
Proof.
  induction 1 as [|c s Hc _ IH]; [done|].
  cbn [app csv_unquote_body]. rewrite (proj2 (N.eqb_neq c 34)) by done. by rewrite IH.
Qed.

(** What is read back is shorter than the field body, by more than the
    closing quote once a quote was doubled. *)
Lemma csv_unquote_body_length (n : nat) :
  forall s t,
    length s <= n ->
    csv_unquote_body s = Some t ->
    length t < length s
    /\ (length t + 1 = length s -> s = t ++ [34%N] /\ Forall (fun c => c <> 34%N) t).
Proof.
  induction n as [|n IH]; intros s t Hn; (destruct s as [|c s]; [done|]); cbn in Hn; [lia|].
  cbn [csv_unquote_body]. destruct (c =? 34)%N eqn:Hc.
  - apply N.eqb_eq in Hc as ->. destruct s as [|c' s].
    { intros [= <-]. cbn. split; [lia|]. by split. }
    destruct (c' =? 34)%N; [|done].
    destruct (csv_unquote_body s) as [t'|] eqn:Hs; [|done]. intros [= <-].
    cbn in Hn. destruct (IH s t' ltac:(lia) Hs) as [Hlt _]. cbn. split; lia.
  - destruct (csv_unquote_body s) as [t'|] eqn:Hs; [|done]. intros [= <-].
    destruct (IH s t' ltac:(lia) Hs) as [Hlt Heq]. cbn. split; [lia|].
    intros Hlen. destruct Heq as [-> Hplain]; [lia|]. split; [done|].
    constructor; [by apply N.eqb_neq | done].
Qed.

(** X22: the feedback cell of a CSV row reads back as the feedback, whatever
    it holds; the class and name cells, quoted as they are, read back
    exactly when they hold no quote. *)
Theorem csv_quoted_cells (completed : list StudentSubmission) (res : GradingResult) :
  (exists cells,
      csv_cells completed res
      = [quoted (opt_str_or (student_class res) []); quoted (student_name res)]
          ++ cells
          ++ [quoted (replace_all_char 34 [34%N; 34%N] (str_or (feedback res) []))])
  /\ csv_unquote (quoted (replace_all_char 34 [34%N; 34%N] (str_or (feedback res) [])))
     = Some (feedback res)
  /\ (csv_unquote (quoted (student_name res)) = Some (student_name res)
      <-> Forall (fun c => c <> 34%N) (student_name res))
  /\ (csv_unquote (quoted (opt_str_or (student_class res) []))
      = Some (opt_str_or (student_class res) [])
      <-> Forall (fun c => c <> 34%N) (opt_str_or (student_class res) [])).
Proof.
  assert (forall s, csv_unquote (quoted s) = Some s <-> Forall (fun c => c <> 34%N) s)
    as Hplain.
  { intros s. unfold quoted, csv_unquote. cbn [app N.eqb Pos.eqb]. split.
    - intros Hread.
      destruct (csv_unquote_body_length (length (s ++ [34%N])) _ _ ltac:(done) Hread)
        as [_ Heq].
      apply Heq. rewrite length_app. cbn. lia.
    - apply csv_unquote_body_plain. }
  split_and!.
  - by exists (number_toString (total_score res) :: qCols completed res).
  - unfold quoted, csv_unquote. cbn [app N.eqb Pos.eqb].
    rewrite csv_unquote_body_doubled. unfold str_or. by destruct (feedback res).
  - apply Hplain.
  - apply Hplain.
Qed.

End ExportRows.

(** ** The Drive service *)

Section DriveService.
Import Drive.

Lemma match_project_number_digits s group :
  match_project_number s = Some group ->
  group <> [] /\ Forall (fun c => is_digit c = true) group
  /\ exists rest, s = group ++ [45%N] ++ rest.
Proof.
  revert group. induction s as [|c s IH]; intros group; [done|].
  cbn [match_project_number]. destruct (is_digit c) eqn:Hc; [|done].
  destruct (match_project_number s) as [g|].
  - intros [= <-]. destruct (IH g eq_refl) as (_ & Hdigits & rest & ->).
    split_and!; [done | by constructor | by exists rest].
  - destruct s as [|h s]; [done|]. destruct (h =? 45)%N eqn:Hh; [|done].
    intros [= <-]. apply N.eqb_eq in Hh as ->.
    split_and!; [done | by repeat constructor | by exists s].
Qed.

Lemma match_project_number_cons c s :
  match_project_number (c :: s)
  = if is_digit c then
      match match_project_number s with
      | Some group => Some (c :: group)
      | None =>
          match s with
          | h :: _ => if (h =? 45)%N then Some [c] else None
          | [] => None
          end
      end
    else None.
Proof. reflexivity. Qed.

Lemma match_project_number_hyphen rest : match_project_number (45%N :: rest) = None.
Proof. reflexivity. Qed.

Lemma match_project_number_prefix group rest :
  group <> [] -> Forall (fun c => is_digit c = true) group ->
  match_project_number (group ++ [45%N] ++ rest) = Some group.
Proof.
  intros Hne Hdigits. induction Hdigits as [|c group Hc Hdigits IH]; [done|].
  rewrite <- app_comm_cons, match_project_number_cons, Hc.
  destruct group as [|c' group].
  - cbn [app]. by rewrite match_project_number_hyphen.
  - by rewrite IH.
Qed.

(** X23: the app id is the run of digits the client id starts with when a
    hyphen follows it, and empty otherwise; configuring forgets the token
    and the token client. *)
Theorem configureDrive_app_id clientId st :
  configuredClientId (configureDrive clientId st) = clientId
  /\ tokenClient (configureDrive clientId st) = None
  /\ accessToken (configureDrive clientId st) = None
  /\ (forall group rest,
        clientId = group ++ [45%N] ++ rest ->
        group <> [] -> Forall (fun c => is_digit c = true) group ->
        configuredAppId (configureDrive clientId st) = group)
  /\ (configuredAppId (configureDrive clientId st) <> [] ->
      Forall (fun c => is_digit c = true) (configuredAppId (configureDrive clientId st))
      /\ exists rest,
           clientId = configuredAppId (configureDrive clientId st) ++ [45%N] ++ rest)
  /\ ((forall group rest,
         clientId = group ++ [45%N] ++ rest ->
         group <> [] -> ~ Forall (fun c => is_digit c = true) group) ->
      configuredAppId (configureDrive clientId st) = []).
Proof.
  unfold configureDrive. cbn [configuredClientId tokenClient accessToken configuredAppId].
  split_and!; try done.
  - intros group rest -> Hne Hdigits.
    rewrite match_project_number_prefix by done. by destruct group.
  - destruct (match_project_number clientId) as [group|] eqn:Hmatch; [|done].
    destruct (match_project_number_digits _ _ Hmatch) as (Hne & Hdigits & Hrest).
    by destruct group.
  - intros Hnone.
    destruct (match_project_number clientId) as [group|] eqn:Hmatch; [|done].
    destruct (match_project_number_digits _ _ Hmatch) as (Hne & Hdigits & rest & Hrest).
    by destruct (Hnone group rest).
Qed.

Lemma configureDrive_app_id_witness :
  configuredAppId
    (configureDrive (js "1234-abc.apps.googleusercontent.com") signed_in)
  = js "1234".
Proof.
  destruct (configureDrive_app_id (js "1234-abc.apps.googleusercontent.com") signed_in)
    as (_ & _ & _ & Hgroup & _).
  apply (Hgroup (js "1234") (js "abc.apps.googleusercontent.com")); [reflexivity | done |].
  by repeat constructor.
Defined.

Lemma trim_start_nil s : trim_start s = [] <-> Forall (fun c => is_whitespace c = true) s.
Proof.
  induction s as [|c s IH]; [done|]. cbn [trim_start].
  destruct (is_whitespace c) eqn:Hc.
  - rewrite IH. split; [by constructor | by intros [_ ?]%Forall_cons].
  - split; [done|]. intros [Hc' _]%Forall_cons. congruence.
Qed.

Lemma trim_start_head s c s' : trim_start s = c :: s' -> is_whitespace c = false.
Proof.
  induction s as [|x s IH]; [done|]. cbn [trim_start].
  destruct (is_whitespace x) eqn:Hx; [done|]. by intros [= <- _].
Qed.

(** [trim] leaves nothing exactly of the strings made of white space. *)
Lemma trim_nil s : trim s = [] <-> Forall (fun c => is_whitespace c = true) s.
Proof.
  unfold trim. split.
  - intros Hnil. apply (f_equal reverse) in Hnil.
    rewrite reverse_involutive, reverse_nil in Hnil.
    apply trim_start_nil in Hnil. rewrite Forall_reverse in Hnil.
    destruct (trim_start s) as [|c s'] eqn:Hs; [by apply trim_start_nil|].
    apply trim_start_head in Hs. apply Forall_cons in Hnil as [Hc _]. congruence.
  - intros Hws. by rewrite (proj2 (trim_start_nil s) Hws).
Qed.

(** X24: the service counts as configured exactly when the client id holds
    a character that is no white space. *)
Theorem isDriveConfigured_spec st :
  isDriveConfigured st = true
  <-> Exists (fun c => is_whitespace c = false) (configuredClientId st).
Proof.
  unfold isDriveConfigured. destruct (configuredClientId st) as [|c s] eqn:Hid.
  - split; [done | by intros ?%Exists_nil].
  - rewrite bool_decide_eq_true.
    assert (0 < length (trim (c :: s)) <-> trim (c :: s) <> []) as ->.
    { destruct (trim (c :: s)); cbn; [split; [lia | done] | split; [done | lia]]. }
    rewrite trim_nil, <- Exists_Forall_neg by (intros x; destruct (is_whitespace x); auto).
    split; intros Hex; (eapply Exists_impl; [exact Hex|]); intros x; cbn beta;
      destruct (is_whitespace x); intuition congruence.
Qed.


Lemma downloadDriveFile_Returned fetch st fileId fileName mimeType file :
  downloadDriveFile fetch st fileId fileName mimeType = Returned file ->
  file_name file = fileName /\ file_type file = mimeType.
Proof.
  unfold downloadDriveFile. destruct (accessToken st) as [[|c token]|]; try done.
  destruct (fetch _ _) as [response|]; [|done].
  destruct (negb (ok response)); [done|].
  destruct (blob response); [|done]. by intros [= <-].
Qed.

Lemma download_docs_Returned fetch st docs :
  forall files out,
    download_docs fetch st docs files = Returned out ->
    exists new,
      out = files ++ new
      /\ file_name <$> new = doc_name <$> docs
      /\ file_type <$> new = doc_mimeType <$> docs.
Proof.
  induction docs as [|doc docs IH]; intros files out; cbn [download_docs].
  - intros [= <-]. exists []. by rewrite app_nil_r.
  - destruct (downloadDriveFile _ _ _ _ _) as [file|] eqn:Hfile; [|done].
    apply downloadDriveFile_Returned in Hfile as [Hname Htype].
    intros (new & -> & Hnames & Htypes)%IH.
    exists (file :: new). rewrite <- app_assoc. cbn. by rewrite Hname, Htype, Hnames, Htypes.
Qed.

Lemma download_docs_Threw fetch st done_ doc rest e :
  Forall (fun d => exists file,
            downloadDriveFile fetch st (doc_id d) (doc_name d) (doc_mimeType d)
            = Returned file) done_ ->
  downloadDriveFile fetch st (doc_id doc) (doc_name doc) (doc_mimeType doc) = Threw e ->
  forall files, download_docs fetch st (done_ ++ doc :: rest) files = Threw e.
Proof.
  intros Hdone Hdoc. induction Hdone as [|d done_ [file Hd] _ IH]; intros files.
  - cbn. by rewrite Hdoc.
  - cbn [app download_docs]. rewrite Hd. apply IH.
Qed.

(** X26: the picker's answer becomes the files picked, in order and under
    the names and types the picker gave; the first download that fails
    rejects the whole pick, a cancelled pick resolves to no file, and any
    other answer leaves the promise unsettled. *)
Theorem picker_downloads fetch st :
  (forall docs files,
      pickerCallback fetch st (PICKED docs) = Resolved files ->
      file_name <$> files = doc_name <$> docs
      /\ file_type <$> files = doc_mimeType <$> docs)
  /\ (forall done_ doc rest e,
        Forall (fun d => exists file,
                  downloadDriveFile fetch st (doc_id d) (doc_name d) (doc_mimeType d)
                  = Returned file) done_ ->
        downloadDriveFile fetch st (doc_id doc) (doc_name doc) (doc_mimeType doc)
        = Threw e ->
        pickerCallback fetch st (PICKED (done_ ++ doc :: rest)) = Rejected e)
  /\ (forall doc rest,
        accessToken st = None \/ accessToken st = Some [] ->
        pickerCallback fetch st (PICKED (doc :: rest))
        = Rejected (ErrorObj (js "No access token available")))
  /\ pickerCallback fetch st (PICKED []) = Resolved []
  /\ pickerCallback fetch st CANCEL = Resolved []
  /\ pickerCallback fetch st OtherAction = Unsettled.
Proof.
  split_and!; try done.
  - intros docs files. cbn [pickerCallback].
    destruct (download_docs fetch st docs []) as [out|] eqn:Hrun; [|done].
    intros [= <-]. by apply download_docs_Returned in Hrun as (new & -> & ? & ?).
  - intros done_ doc rest e Hdone Hdoc. cbn [pickerCallback].
    by rewrite (download_docs_Threw _ _ _ _ _ _ Hdone Hdoc).
  - intros doc rest Htoken. cbn [pickerCallback download_docs]. unfold downloadDriveFile.
    by destruct Htoken as [-> | ->].
Qed.

Lemma picker_downloads_witness :
  pickerCallback (fetch_all_but (js "b")) signed_in
    (PICKED [mkDoc (js "a") (js "a.pdf") (js "application/pdf");
             mkDoc (js "b") (js "b.jpg") (js "image/jpeg");
             mkDoc (js "c") (js "c.jpg") (js "image/jpeg")])
  = Rejected (ErrorObj (js "Failed to download file: Not Found")).
Proof.
  destruct (picker_downloads (fetch_all_but (js "b")) signed_in) as (_ & Hfirst & _).
  apply (Hfirst [mkDoc (js "a") (js "a.pdf") (js "application/pdf")]
           (mkDoc (js "b") (js "b.jpg") (js "image/jpeg"))
           [mkDoc (js "c") (js "c.jpg") (js "image/jpeg")]).
  - apply Forall_singleton. eexists. vm_compute. reflexivity.
  - vm_compute. reflexivity.
Defined.

End DriveService.

(** ** The shape of the queue *)

Section QueueShape.
Import App.
Local Open Scope handler_scope.

Lemma chunked_chunks_nonempty p l cs :
  0 < p -> chunked p l cs -> Forall (fun c => c <> []) cs.
Proof.
  intros Hp. induction 1 as [|l Hpos Hle|l rest cs Hlen Hrest _ IH].
  - constructor.
  - apply Forall_singleton. by destruct l; [cbn in Hpos; lia|].
  - constructor; [|exact IH]. destruct l; [cbn in Hlen; lia | done].
Qed.

Lemma has_pages_graded grader ref m (l : list StudentSubmission) :
  Forall has_pages l -> Forall has_pages (imap (graded grader ref m) l).
Proof.
  intros Hl. apply Forall_forall. intros s' Hin.
  apply elem_of_lookup_imap in Hin as (j & s & -> & Hs).
  rewrite Forall_forall in Hl. specialize (Hl s (list_elem_of_lookup_2 _ _ _ Hs)).
  unfold graded, settle, has_pages in *. by destruct (grader _ _ _ _).
Qed.

Lemma edit_keeps_shape id0 r (l : list StudentSubmission) :
  let l' := (fun s => if decide (id s = id0) then with_result r s else s) <$> l in
  (l <> [] -> l' <> [])
  /\ (Forall (fun s => status s = completed \/ status s = error) l ->
      Forall (fun s => status s = completed \/ status s = error) l')
  /\ (Forall has_pages l -> Forall has_pages l').
Proof.
  cbn zeta. split_and!.
  - by destruct l.
  - intros Hl. apply Forall_fmap. eapply Forall_impl; [exact Hl|].
    intros s Hs. cbn. by destruct (decide (id s = id0)).
  - intros Hl. apply Forall_fmap. eapply Forall_impl; [exact Hl|].
    intros s Hs. cbn. by destruct (decide (id s = id0)).
Qed.

(** An enabled action keeps the results page ready and every record with
    its pages. *)
Lemma handler_queue_shape a s n w' :
  at_rest s ->
  results_ready s ->
  Forall has_pages (submissions s) ->
  Ui.enabled a s = true ->
  Ui.handler a (mkWorld s n []) = Some (tt, w') ->
  results_ready (react w') /\ Forall has_pages (submissions (react w')).
Proof.
  intros (Hp & _ & _ & Href & _) Hready Hpages Hen.
  destruct a as [fs| | | |m0| | |parsed|getDocument fs|index| |id0| |grader
                |id0 editName editClass|]; cbn [Ui.handler Ui.enabled] in *;
    repeat match goal with
           | H : _ && _ = true |- _ => apply andb_true_iff in H as [? ?]
           | H : Ui.is_step _ _ = true |- _ => apply is_step_eq in H
           | H : bool_decide _ = true |- _ => apply bool_decide_eq_true in H
           | H : negb _ = true |- _ => apply negb_true_iff in H
           end.
  - destruct fs as [|f fs]; intros [= <-]; by split.
  - intros [= <-]. by split.
  - intros [= <-]. by split.
  - intros [= <-]. by split.
  - intros [= <-]. by split.
  - intros [= <-]. by split.
  - intros [= <-]. split; [|done]. unfold results_ready; cbn. congruence.
  - intros [= <-]. split; [|done]. unfold results_ready; cbn. congruence.
  - unfold handleFileSelect. destruct fs as [|file rest]; [done|].
    cbn [App.bind rendered react]. destruct (isBulkMode s) eqn:Hmode.
    2:{ intros [= <-]. split; [|done]. unfold results_ready; cbn. congruence. }
    case_bool_decide.
    { intros [= <-]. split; [|done]. unfold results_ready; cbn. congruence. }
    unfold setIsProcessingPdf at 1. erewrite bind_Some by apply emit_after.
    destruct (Pdf.convertPdfToImages getDocument file) as [images|e].
    2:{ intros [= <-]. split; [|done]. unfold results_ready; cbn. congruence. }
    unfold App.bind at 1. unfold App.bind at 1.
    match goal with
    | |- context [split_students _ images ?p 0 [] ?w0] =>
        destruct (split_students_returns images p [] w0 ltac:(cbn; lia))
          as (recs & -> & Hchunks & _)
    end.
    cbn. intros [= <-]. split; [unfold results_ready; cbn; congruence|].
    cbn. apply Forall_app. split; [done|].
    apply (chunked_chunks_nonempty _ _ _ Hp) in Hchunks.
    rewrite Forall_forall in Hchunks. apply Forall_forall. intros r Hr.
    apply Hchunks. by apply list_elem_of_fmap_2.
  - intros [= <-]. split; [|done]. unfold results_ready; cbn. congruence.
  - unfold addStudentToQueue. cbn [App.bind rendered react].
    destruct (stagedFiles s) as [|f staged] eqn:Hstaged; [done|].
    cbn. intros [= <-]. split; [unfold results_ready; cbn; congruence|].
    cbn. apply Forall_app. split; [done|]. by apply Forall_singleton.
  - intros [= <-]. split; [unfold results_ready; cbn; congruence|].
    cbn. by apply Forall_filter_keep.
  - intros [= <-]. split; [|done]. unfold results_ready; cbn. congruence.
  - destruct (referenceFile s) as [ref|] eqn:Hr.
    2:{ destruct Href as [? [=]]. congruence. }
    destruct (startGrading_final grader (mkWorld s n []) ref Hr ltac:(done))
      as (w1 & Hrun & _ & Hsubs).
    rewrite Hrun. intros [= <-]. cbn [react] in Hsubs. unfold results_ready.
    rewrite Hsubs. split.
    + intros _. split; [|apply graded_all_settled].
      intros Hnil. apply (f_equal length) in Hnil. rewrite length_imap in Hnil.
      by destruct (submissions s).
    + by apply has_pages_graded.
  - cbn [App.bind rendered react]. unfold ResultsTable.saveEditing.
    destruct (list_find _ _) as [[i sub]|]; [|by intros [= <-]].
    destruct (result sub) as [r|]; intros [= <-]; [|done].
    match goal with
    | |- context [with_result ?r0] =>
        destruct (edit_keeps_shape id0 r0 (submissions s)) as (Hne & Hsettled & Hkeep)
    end.
    split; [|by apply Hkeep]. intros _. destruct (Hready ltac:(done)) as [? ?].
    split; [by apply Hne | by apply Hsettled].
  - intros [= <-]. split; [|by constructor]. unfold results_ready; cbn. congruence.
Qed.

Lemma reachable_queue_shape w :
  Ui.reachable w ->
  results_ready (react w) /\ Forall has_pages (submissions (react w)).
Proof.
  induction 1 as [|a w w' Hw IH Hen _ Hperform].
  - split; [by intros [=] | constructor].
  - unfold Ui.perform in Hperform.
    destruct (Ui.handler a _) as [[[] w1]|] eqn:Hh; [|discriminate].
    cbn in Hperform. injection Hperform as <-. destruct IH as [Hready Hpages].
    eapply handler_queue_shape; [|done..]. by apply at_rest_invariant.
Qed.

(** The grading calls of a run are those for its records. *)
Lemma call_of_run grader ref0 m0 (queue : list StudentSubmission) ref files0 m :
  CallGradeSubmission ref files0 m ∈ run_events grader ref0 m0 queue ->
  exists j s, queue !! j = Some s /\ files0 = files s /\ ref = ref0 /\ m = m0.
Proof.
  unfold run_events. intros Hcall.
  apply elem_of_app in Hcall as [Hcall|Hcall].
  { repeat (apply elem_of_cons in Hcall as [Hcall|Hcall]; [discriminate|]).
    by apply not_elem_of_nil in Hcall. }
  apply elem_of_app in Hcall as [Hcall|Hcall].
  2:{ by apply list_elem_of_singleton in Hcall. }
  apply list_elem_of_In, in_concat in Hcall
    as (evs & Hevs%list_elem_of_In & Hin%list_elem_of_In).
  apply elem_of_lookup_imap in Hevs as (j & s & -> & Hs).
  exists j, s. split; [exact Hs|].
  unfold record_events, ocr_toast in Hin.
  apply elem_of_app in Hin as [Hin|Hin].
  { apply elem_of_cons in Hin as [Hin|Hin]; [discriminate|].
    apply list_elem_of_singleton in Hin. by injection Hin as -> -> ->. }
  apply elem_of_app in Hin as [Hin|Hin].
  2:{ by apply list_elem_of_singleton in Hin. }
  destruct (grader _ _ _ _); [case_bool_decide|].
  - by apply list_elem_of_singleton in Hin.
  - by apply not_elem_of_nil in Hin.
  - by apply not_elem_of_nil in Hin.
Qed.

(** X28: no record on screen is without a page, so no grading call goes out
    with the reference alone. *)
Theorem every_record_has_pages w :
  Ui.reachable w ->
  Forall (fun s => files s <> []) (submissions (react w))
  /\ forall grader w' ref files0 m,
       Ui.perform (Ui.StartGrading grader) w = Some w' ->
       CallGradeSubmission ref files0 m ∈ trace w' ->
       files0 <> [].
Proof.
  intros Hw. destruct (reachable_queue_shape w Hw) as [_ Hpages]. split; [exact Hpages|].
  intros grader w' ref files0 m Hrun Hcall.
  unfold Ui.perform in Hrun. cbn [Ui.handler] in Hrun.
  set (w0 := mkWorld (react w) (next_uuid w) []) in *.
  destruct (referenceFile (react w)) as [ref0|] eqn:Href.
  2:{ rewrite startGrading_returns_at_once in Hrun by (by left).
      injection Hrun as <-. by apply not_elem_of_nil in Hcall. }
  destruct (decide (submissions (react w) = [])) as [Hnil|Hne].
  { rewrite startGrading_returns_at_once in Hrun by (by right).
    injection Hrun as <-. by apply not_elem_of_nil in Hcall. }
  rewrite (startGrading_runs grader ref0 (model (react w)) (submissions (react w)))
    in Hrun by done.
  injection Hrun as <-. cbn [after trace w0 app] in Hcall.
  apply call_of_run in Hcall as (j & s & Hs & -> & _).
  rewrite Forall_forall in Hpages. apply Hpages. by eapply list_elem_of_lookup_2.
Qed.

Lemma every_record_has_pages_witness :
  Forall (fun s => files s <> []) (submissions (react graded_once)).
Proof. apply every_record_has_pages, graded_once_reachable. Defined.

End QueueShape.

(** ** Loading the Drive scripts *)

Section DriveScriptsFacts.
Import DriveScripts.

(** While no script fails, the promise is resolved once both flags are up,
    and the flags are up once their events came. *)
Lemma scripts_loaded (events : list ScriptEvent) :
  Forall (fun ev => forall e, ev <> ScriptError e) events ->
  let st := foldl on_event (mkState false false Pending) events in
  (pickerInited st = true <-> GapiClientLoaded ∈ events)
  /\ (gisInited st = true <-> GisLoaded ∈ events)
  /\ promise st
     = if pickerInited st && gisInited st then Fulfilled else Pending.
Proof.
  intros Hok. cbn zeta. induction events as [|ev events IH] using rev_ind.
  { cbn. split_and!; [| |done]; (split; [done | by intros ?%not_elem_of_nil]). }
  apply Forall_app in Hok as [Hok Hev]. rewrite Forall_singleton in Hev.
  specialize (IH Hok).
  rewrite foldl_app. cbn [foldl].
  set (st := foldl on_event (mkState false false Pending) events) in *.
  destruct IH as (Hpicker & Hgis & Hpromise).
  rewrite !elem_of_app, !list_elem_of_singleton, <- Hpicker, <- Hgis.
  destruct ev as [| |e]; [| |by destruct (Hev e)];
    unfold on_event, maybeResolve, settle; cbn [pickerInited gisInited promise];
    rewrite Hpromise;
    destruct (pickerInited st), (gisInited st); cbn;
    (split_and!; [| |done]); intuition congruence.
Qed.

(** X29: called while the picker is not there yet and with both flags down,
    [loadGoogleDriveScripts] resolves exactly when both scripts have come
    up, in whichever order, provided none fails; a script that fails
    first rejects it; with the picker already there it resolves at once. *)
Theorem loadGoogleDriveScripts_resolves (events : list ScriptEvent) :
  (Forall (fun ev => forall e, ev <> ScriptError e) events ->
   (promise (loadGoogleDriveScripts false false false events) = Fulfilled
    <-> GapiClientLoaded ∈ events /\ GisLoaded ∈ events)
   /\ (promise (loadGoogleDriveScripts false false false events) = Pending
       <-> ~ (GapiClientLoaded ∈ events /\ GisLoaded ∈ events)))
  /\ (forall e rest pickerInited gisInited,
        events = ScriptError e :: rest ->
        promise (loadGoogleDriveScripts false pickerInited gisInited events)
        = Failed e)
  /\ (forall pickerInited gisInited,
        promise (loadGoogleDriveScripts true pickerInited gisInited events)
        = Fulfilled).
Proof.
  split_and!.
  - intros Hok. unfold loadGoogleDriveScripts.
    destruct (scripts_loaded events Hok) as (Hpicker & Hgis & ->).
    rewrite <- Hpicker, <- Hgis.
    destruct (pickerInited _), (gisInited _); cbn; split; split; intuition congruence.
  - intros e rest p g ->. unfold loadGoogleDriveScripts. cbn [foldl].
    assert (forall st, promise st = Failed e ->
                       promise (foldl on_event st rest) = Failed e) as Hkeep.
    { induction rest as [|ev rest IH]; intros st Hst; [done|].
      cbn [foldl]. apply IH.
      destruct ev; unfold on_event, maybeResolve, settle; cbn [promise pickerInited gisInited];
        rewrite ?Hst; try done;
        by destruct (_ && _); cbn [promise]; rewrite ?Hst. }
    by apply Hkeep.
  - done.
Qed.

Lemma loadGoogleDriveScripts_resolves_witness :
  promise (loadGoogleDriveScripts false false false [GisLoaded; GapiClientLoaded])
  = Fulfilled
  /\ promise (loadGoogleDriveScripts false false false [GisLoaded]) = Pending.
Proof.
  split.
  - destruct (loadGoogleDriveScripts_resolves [GisLoaded; GapiClientLoaded])
      as [Hok _].
    apply Hok.
    + by repeat constructor.
    + split; [apply list_elem_of_further, list_elem_of_here | apply list_elem_of_here].
  - destruct (loadGoogleDriveScripts_resolves [GisLoaded]) as [Hok _].
    apply Hok.
    + by repeat constructor.
    + intros [Hin _]. apply list_elem_of_singleton in Hin. discriminate.
Defined.

End DriveScriptsFacts.

(** ** Changing the reference *)

Section ReferenceSwap.
Import App.

(** X30: from any state with a reference, removing it, picking files anew
    and going on to the upload step are enabled one after the other; the
    first of the files picked becomes the reference, and the queue, graded
    or not, the staged files and every setting are as before. *)
Theorem reference_swap_keeps_queue (w : World) (file : File) (others : list File) :
  is_Some (referenceFile (react w)) ->
  exists w',
    Ui.perform_all
      [Ui.RemoveReference; Ui.PickReference (file :: others); Ui.NextToUpload] w
    = Some w'
    /\ react w'
       = mkState UPLOAD_STUDENTS (Some file) (submissions (react w)) (model (react w))
           (isGrading (react w)) (toastMessage (react w)) (isProcessingPdf (react w))
           (stagedFiles (react w)) (isBulkMode (react w)) (pagesPerStudent (react w))
           (showDevSettings (react w))
    /\ next_uuid w' = next_uuid w
    /\ (submissions (react w) <> [] ->
        forall grader, Ui.enabled (Ui.StartGrading grader) (react w') = true).
Proof.
  intros Href. unfold Ui.perform_all. cbn [foldl Ui.enabled].
  rewrite bool_decide_true by done. unfold Ui.perform at 3. cbn.
  eexists. split; [reflexivity|]. cbn. split_and!; try done.
  intros Hne grader. by rewrite bool_decide_true.
Qed.

Lemma reference_swap_keeps_queue_witness :
  exists w',
    Ui.perform_all
      [Ui.RemoveReference; Ui.PickReference [key_file; page 1]; Ui.NextToUpload]
      graded_again
    = Some w'
    /\ submissions (react w') = submissions (react graded_again)
    /\ referenceFile (react w') = Some key_file.
Proof.
  assert (is_Some (referenceFile (react graded_again))) as Href
    by (exists key_file; vm_compute; reflexivity).
  destruct (reference_swap_keeps_queue graded_again key_file [page 1] Href)
    as (w' & Hrun & Hreact & _).
  exists w'. split; [exact Hrun|]. rewrite Hreact. split; reflexivity.
Defined.

End ReferenceSwap.

(** ** The progress figure *)

Section ProgressFigure.
Import App.

Lemma settled_count_le (l : list StudentSubmission) : settled_count l <= length l.
Proof. unfold settled_count. apply length_filter. Qed.

Lemma settled_count_full (l : list StudentSubmission) :
  settled_count l = length l
  <-> Forall (fun s => status s = completed \/ status s = error) l.
Proof.
  split; [|apply settled_count_all].
  unfold settled_count. induction l as [|s l IH]; [done|].
  rewrite filter_cons. case_decide as Hs; cbn [length].
  - intros [= Hl]. constructor; [done | by apply IH].
  - intros Hl. pose proof (length_filter (fun s => status s = completed \/ status s = error) l).
    lia.
Qed.

Lemma settled_count_zero (l : list StudentSubmission) :
  settled_count l = 0
  <-> Forall (fun s => ~ (status s = completed \/ status s = error)) l.
Proof.
  unfold settled_count. induction l as [|s l IH]; [done|].
  rewrite filter_cons. case_decide as Hs; cbn [length].
  - split; [done|]. by intros [? _]%Forall_cons.
  - rewrite IH. split; [by constructor | by intros [_ ?]%Forall_cons].
Qed.

Lemma percent_table : percent_table_checked 200 = true.
Proof. vm_compute. reflexivity. Qed.

Lemma percent_checked_in_table (bound settled total : nat) :
  percent_table_checked bound = true ->
  0 < total < bound -> settled <= total -> percent_checked total settled = true.
Proof.
  unfold percent_table_checked. intros Htable Htotal Hsettled.
  rewrite forallb_forall in Htable.
  specialize (Htable total). rewrite forallb_forall in Htable.
  apply Htable; apply in_seq; lia.
Qed.

Lemma percent_checked_below (settled total : nat) :
  0 < total < 200 -> settled <= total -> percent_checked total settled = true.
Proof. apply percent_checked_in_table, percent_table. Qed.

Lemma percent_of_monotone (total : nat) (c c' : nat) (pct pct' : Z) :
  0 < total < 200 -> c <= c' -> c' <= total ->
  percent_of c total = Some pct -> percent_of c' total = Some pct' ->
  (pct <= pct')%Z.
Proof.
  intros Htotal Hle. revert pct'.
  induction Hle as [|c' Hle IH]; intros pct' Hc' Hpct Hpct'.
  - rewrite Hpct in Hpct'. injection Hpct' as <-. lia.
  - pose proof (percent_checked_below c' total Htotal ltac:(lia)) as Hchk.
    unfold percent_checked in Hchk.
    destruct (percent_of c' total) as [mid|] eqn:Hmid; [|done].
    apply andb_true_iff in Hchk as [_ Hnext].
    destruct (Nat.ltb_spec c' total); [|lia].
    rewrite Hpct' in Hnext. apply Z.leb_le in Hnext.
    specialize (IH mid ltac:(lia) Hpct eq_refl). lia.
Qed.

(** X14: the percentage shown, computed in doubles as the page does.  For a
    queue of fewer than 200 records it lies between 0 and 100, reads 100
    exactly when every record is settled and 0 exactly when none is, is an
    integer nearest to 100 * settled / total, and is no lower for a queue of
    the same length with as many or more records settled. *)
Theorem progress_percent_rounds (l : list StudentSubmission) :
  l <> [] -> length l < 200 ->
  exists pct,
    progress_percent l = Some pct
    /\ (0 <= pct <= 100)%Z
    /\ (pct = 100%Z
        <-> Forall (fun s => status s = completed \/ status s = error) l)
    /\ (pct = 0%Z
        <-> Forall (fun s => ~ (status s = completed \/ status s = error)) l)
    /\ (Z.abs (200 * Z.of_nat (settled_count l) - 2 * Z.of_nat (length l) * pct)
        <= Z.of_nat (length l))%Z
    /\ forall l' pct',
         length l' = length l -> settled_count l <= settled_count l' ->
         progress_percent l' = Some pct' -> (pct <= pct')%Z.
Proof.
  intros Hne Hlen.
  assert (0 < length l < 200) as Htotal by (destruct l; [done | cbn in *; lia]).
  pose proof (settled_count_le l) as Hle.
  pose proof (percent_checked_below _ _ Htotal Hle) as Hchk.
  unfold percent_checked in Hchk.
  change (progress_percent l) with (percent_of (settled_count l) (length l)).
  destruct (percent_of (settled_count l) (length l)) as [pct|] eqn:Hpct; [|done].
  apply andb_true_iff in Hchk as [Hfits _]. unfold percent_fits in Hfits.
  repeat (apply andb_true_iff in Hfits as [Hfits ?]).
  exists pct. split; [done|]. split; [lia|]. split_and!.
  - rewrite <- settled_count_full.
    destruct (Z.eqb_spec pct 100), (Nat.eqb_spec (settled_count l) (length l));
      cbn in *; try done; tauto.
  - rewrite <- settled_count_zero.
    destruct (Z.eqb_spec pct 0), (Nat.eqb_spec (settled_count l) 0);
      cbn in *; try done; tauto.
  - lia.
  - intros l' pct' Hlen' Hmore Hpct'.
    change (progress_percent l') with (percent_of (settled_count l') (length l'))
      in Hpct'.
    rewrite Hlen' in Hpct'.
    eapply (percent_of_monotone (length l)); [done | exact Hmore | | done..].
    rewrite <- Hlen'. apply settled_count_le.
Qed.

Lemma progress_percent_rounds_witness :
  exists pct,
    progress_percent (partly_settled 2 3) = Some pct /\ pct = 67%Z.
Proof.
  destruct (progress_percent_rounds (partly_settled 2 3)
              ltac:(discriminate) ltac:(cbn; lia))
    as (pct & Hpct & _).
  exists pct. split; [exact Hpct|].
  vm_compute in Hpct. by injection Hpct as <-.
Defined.

(** 23 records settled out of 40: the quotient is the double below 0.575
    and the page shows 57, where 57.5 rounded up is 58. *)
Example progress_23_of_40 :
  progress_percent (partly_settled 23 40) = Some 57%Z
  /\ (23 # 40) * 100 == 115 # 2.
Proof. split; [vm_compute; reflexivity | reflexivity]. Qed.

End ProgressFigure.
(** ** The live page: what every step keeps *)

Section LivePage.
Import App Live.

Lemma reachable_happen_all script p p' :
  Live.reachable p -> happen_all script p = Some p' -> Live.reachable p'.
Proof.
  intros Hp. revert p'.
  induction script as [|h script IH] using rev_ind; intros p'.
  - by intros [= <-].
  - unfold happen_all. rewrite foldl_app. cbn.
    destruct (foldl _ _ script) as [q|] eqn:Hq; [|done].
    intros Hstep. eapply reachable_step; [|exact Hstep]. by apply IH.
Qed.

Lemma elem_of_delete_other {A} (l : list A) k x y :
  l !! k = Some x -> y ∈ l -> y <> x -> y ∈ delete k l.
Proof.
  intros Hk Hy Hne. rewrite (delete_Permutation l k x Hk) in Hy.
  apply elem_of_cons in Hy as [->|Hy]; done.
Qed.

Lemma elem_of_delete_in {A} (l : list A) k y : y ∈ delete k l -> y ∈ l.
Proof. intros Hy. eapply elem_of_sublist; [exact Hy | apply sublist_delete]. Qed.

Lemma Exists_delete_other {A} (P : A -> Prop) (l : list A) k x :
  l !! k = Some x -> ~ P x -> Exists P l -> Exists P (delete k l).
Proof.
  intros Hk Hx (y & Hy & HP)%Exists_exists. apply Exists_exists. exists y.
  split; [|done]. eapply elem_of_delete_other; [done..|]. by intros ->.
Qed.

Lemma Forall_delete_keep {A} (P : A -> Prop) (l : list A) k :
  Forall P l -> Forall P (delete k l).
Proof.
  rewrite !Forall_forall. intros HP y Hy. eapply HP, elem_of_delete_in, Hy.
Qed.

Lemma task_ok_mono n n' t : n <= n' -> task_ok n t -> task_ok n' t.
Proof.
  intros Hn. destruct t as [grader ref m subs i| | |]; cbn; try done.
  intros [Hq Hi]. split; [|done]. by eapply queue_ok_mono.
Qed.

Lemma queue_ok_insert n (q : list StudentSubmission) i s s' :
  q !! i = Some s -> id s' = id s ->
  queue_ok (fun _ => True) n q -> queue_ok (fun _ => True) n (<[i := s']> q).
Proof.
  intros Hi Hid (Hnd & Hlt & _).
  assert (id <$> <[i := s']> q = id <$> q) as Hids.
  { rewrite list_fmap_insert, Hid. apply list_insert_id.
    by rewrite list_lookup_fmap, Hi. }
  unfold queue_ok. rewrite Hids. split_and!; try done.
  by apply Forall_forall.
Qed.

Lemma showToast_invariant msg p :
  invariant (update (SetToastMessage None) p) -> invariant (showToast msg p).
Proof.
  intros [Hpages Href Hstaged Hgrading Hproc _ Hqueue Htasks]. cbn in *.
  constructor; cbn; try done.
  - intros Hg. apply Exists_app. left. by apply Hgrading.
  - intros Hg. apply Exists_app. left. by apply Hproc.
  - intros _. apply elem_of_app. right. apply list_elem_of_here.
  - apply Forall_app. split; [done|]. by apply Forall_singleton.
Qed.

Lemma toast_relaxed p : invariant p -> invariant (update (SetToastMessage None) p).
Proof.
  intros [Hpages Href Hstaged Hgrading Hproc _ Hqueue Htasks].
  constructor; cbn; done.
Qed.

Lemma grading_loop_invariant grader ref m i subs p :
  invariant (update (SetIsGrading false) p) ->
  queue_ok (fun _ => True) (uuids p) subs ->
  invariant (grading_loop grader ref m i subs p).
Proof.
  intros Hinv Hsubs. unfold grading_loop.
  destruct (subs !! i) as [s|] eqn:Hi; [|done].
  destruct Hinv as [Hpages Href Hstaged _ Hproc Htoast Hqueue Htasks]. cbn in *.
  assert (queue_ok (fun _ => True) (uuids p) (<[i := with_status processing s]> subs))
    as Hsubs' by (by eapply queue_ok_insert).
  constructor; cbn; try done.
  - intros _. apply Exists_app. right. by apply Exists_cons_hd.
  - intros Hg. apply Exists_app. left. by apply Hproc.
  - intros Hg. apply elem_of_app. left. by apply Htoast.
  - apply Forall_app. split; [done|]. apply Forall_singleton. cbn.
    split; [done|]. rewrite length_insert. by eapply lookup_lt_Some.
Qed.

Lemma showToast_invariant_run msg p :
  invariant (update (SetIsGrading false) p) ->
  invariant (update (SetIsGrading false) (showToast msg p)).
Proof.
  intros [Hpages Href Hstaged _ Hproc _ Hqueue Htasks]. cbn in *.
  constructor; cbn; try done.
  - intros Hg. apply Exists_app. left. by apply Hproc.
  - intros _. apply elem_of_app. right. apply list_elem_of_here.
  - apply Forall_app. split; [done|]. by apply Forall_singleton.
Qed.

Lemma publish_invariant_run subs p :
  invariant (update (SetIsGrading false) p) ->
  queue_ok (fun _ => True) (uuids p) subs ->
  invariant (update (SetIsGrading false) (update (SetSubmissions subs) p)).
Proof.
  intros [Hpages Href Hstaged _ Hproc Htoast Hqueue Htasks] Hsubs. cbn in *.
  constructor; cbn; done.
Qed.

Lemma run_taken_invariant p k grader ref m subs i :
  invariant p ->
  tasks p !! k = Some (GradingRun grader ref m subs i) ->
  invariant (update (SetIsGrading false)
               (mkPage (state p) (uuids p) (delete k (tasks p)))).
Proof.
  intros [Hpages Href Hstaged _ Hproc Htoast Hqueue Htasks] Hk.
  constructor; cbn; try done.
  - intros Hg. eapply Exists_delete_other; [exact Hk | by intros [] | by apply Hproc].
  - intros Hg. eapply elem_of_delete_other; [exact Hk | by apply Htoast | done].
  - by apply Forall_delete_keep.
Qed.

Lemma gradeSubmission_answered_invariant p k grader ref m subs i :
  invariant p ->
  tasks p !! k = Some (GradingRun grader ref m subs i) ->
  invariant (gradeSubmission_answered grader ref m subs i
               (mkPage (state p) (uuids p) (delete k (tasks p)))).
Proof.
  intros Hinv Hk. pose proof (run_taken_invariant _ _ _ _ _ _ _ Hinv Hk) as Hq.
  assert (task_ok (uuids p) (GradingRun grader ref m subs i)) as [Hsubs Hi].
  { destruct Hinv as [_ _ _ _ _ _ _ Htasks]. rewrite Forall_forall in Htasks.
    apply Htasks. by eapply list_elem_of_lookup_2. }
  set (q := mkPage (state p) (uuids p) (delete k (tasks p))) in *.
  unfold gradeSubmission_answered.
  destruct (subs !! i) as [cur|] eqn:Hcur.
  2:{ apply lookup_ge_None in Hcur. lia. }
  destruct (grader i ref (files cur) m) as [result|e].
  - apply grading_loop_invariant.
    + apply publish_invariant_run.
      * case_bool_decide; [by apply showToast_invariant_run | done].
      * case_bool_decide; by eapply queue_ok_insert.
    + case_bool_decide; by eapply queue_ok_insert.
  - apply grading_loop_invariant.
    + apply publish_invariant_run; [done|]. by eapply queue_ok_insert.
    + by eapply queue_ok_insert.
Qed.

Lemma convertPdfToImages_answered_invariant p k getDocument file pps p' :
  invariant p ->
  tasks p !! k = Some (PdfConversion getDocument file pps) ->
  convertPdfToImages_answered getDocument file pps
    (mkPage (state p) (uuids p) (delete k (tasks p))) = Some p' ->
  invariant p'.
Proof.
  intros [Hpages Href Hstaged Hgrading Hproc Htoast Hqueue Htasks] Hk.
  assert (forall t, is_run t -> t <> PdfConversion getDocument file pps) as Hrun.
  { by intros t Ht ->. }
  unfold convertPdfToImages_answered.
  destruct (Pdf.convertPdfToImages getDocument file) as [images|e].
  - destruct (split_students _ _ _ _ _ _) as [[new w]|] eqn:Hsplit; [|done].
    apply split_students_fresh in Hsplit as (new' & -> & Hfresh & Hids & ->).
    cbn in *. intros [= <-]. constructor; cbn; try done.
    + intros Hg. apply Exists_app. left.
      eapply Exists_delete_other; [exact Hk | by intros [] | by apply Hgrading].
    + intros _. apply elem_of_app. right. apply list_elem_of_here.
    + by apply queue_ok_app_fresh.
    + apply Forall_app. split; [|by apply Forall_singleton].
      apply Forall_delete_keep. eapply Forall_impl; [exact Htasks|].
      intros t. apply task_ok_mono. lia.
  - intros [= <-]. constructor; cbn; try done.
    + intros Hg. apply Exists_app. left.
      eapply Exists_delete_other; [exact Hk | by intros [] | by apply Hgrading].
    + intros _. apply elem_of_app. right. apply list_elem_of_here.
    + apply Forall_app. split; [|by apply Forall_singleton].
      by apply Forall_delete_keep.
Qed.

Lemma resume_invariant p k p' :
  invariant p -> step (Resume k) p = Some p' -> invariant p'.
Proof.
  intros Hinv. cbn [step]. destruct (tasks p !! k) as [t|] eqn:Hk; [|done].
  destruct t as [grader ref m subs i|getDocument file pps|written|]; cbn [resume].
  - intros [= <-]. by apply gradeSubmission_answered_invariant.
  - by apply convertPdfToImages_answered_invariant.
  - intros [= <-]. apply showToast_invariant.
    destruct Hinv as [Hpages Href Hstaged Hgrading Hproc Htoast Hqueue Htasks].
    constructor; cbn; try done.
    + intros Hg. eapply Exists_delete_other; [exact Hk | by intros [] | by apply Hgrading].
    + intros Hg. eapply Exists_delete_other; [exact Hk | by intros [] | by apply Hproc].
    + by apply Forall_delete_keep.
  - intros [= <-].
    destruct Hinv as [Hpages Href Hstaged Hgrading Hproc Htoast Hqueue Htasks].
    constructor; cbn; try done.
    + intros Hg. eapply Exists_delete_other; [exact Hk | by intros [] | by apply Hgrading].
    + intros Hg. eapply Exists_delete_other; [exact Hk | by intros [] | by apply Hproc].
    + by apply Forall_delete_keep.
Qed.

Lemma startGrading_invariant grader p : invariant p -> invariant (startGrading grader p).
Proof.
  intros Hinv. unfold startGrading.
  destruct (referenceFile (state p)) as [ref|] eqn:Href; [|done].
  destruct (submissions (state p)) as [|first rest] eqn:Hsubs; [done|].
  destruct Hinv as [Hpages Href' Hstaged Hgrading Hproc Htoast Hqueue Htasks].
  rewrite Hsubs in Hqueue.
  apply grading_loop_invariant; [|done].
  constructor; cbn; try done. by rewrite Hsubs.
Qed.

Lemma handleFileSelect_invariant getDocument files p :
  invariant p -> invariant (handleFileSelect getDocument files p).
Proof.
  intros Hinv. unfold handleFileSelect. destruct files as [|file rest]; [done|].
  destruct (isBulkMode (state p)) eqn:Hbulk.
  - case_bool_decide.
    + by apply showToast_invariant, toast_relaxed.
    + destruct Hinv as [Hpages Href Hstaged Hgrading Hproc Htoast Hqueue Htasks].
      constructor; cbn; try done.
      * intros Hg. apply Exists_app. left. by apply Hgrading.
      * intros _. apply Exists_app. right. by apply Exists_cons_hd.
      * intros Hg. apply elem_of_app. left. by apply Htoast.
      * apply Forall_app. split; [done|]. by apply Forall_singleton.
  - destruct Hinv as [Hpages Href Hstaged Hgrading Hproc Htoast Hqueue Htasks].
    constructor; cbn; try done. congruence.
Qed.

Lemma click_invariant a p p' :
  invariant p -> Ui.enabled a (state p) = true -> click a p = Some p' ->
  invariant p'.
Proof.
  intros Hinv Hen.
  destruct a as [fs| | | |m0| | |parsed|getDocument fs|index| |id0| |grader
                |id0 editName editClass|]; cbn [click];
    try (intros [= <-]; first [by apply startGrading_invariant
                              | by apply handleFileSelect_invariant]);
    destruct Hinv as [Hpages Href Hstaged Hgrading Hproc Htoast Hqueue Htasks];
    unfold run_handler; cbn [Ui.handler Ui.enabled] in *.
  - (* PickReference *)
    destruct fs as [|f fs]; cbn; intros [= <-]; constructor; cbn; try done.
  - intros [= <-]. constructor; cbn; done.
  - (* NextToUpload *)
    apply andb_true_iff in Hen as [_ Hen%bool_decide_eq_true].
    intros [= <-]. constructor; cbn; done.
  - intros [= <-]. constructor; cbn; done.
  - intros [= <-]. constructor; cbn; done.
  - intros [= <-]. constructor; cbn; done.
  - (* ToggleBulkMode *)
    intros [= <-]. constructor; cbn; done.
  - intros [= <-]. constructor; cbn; try done. apply typed_pages_positive.
  - (* RemoveStagedFile *)
    apply andb_true_iff in Hen as [[_ Hbulk%negb_true_iff]%andb_true_iff _].
    intros [= <-]. constructor; cbn; try done. congruence.
  - (* AddStudentToQueue *)
    unfold addStudentToQueue. cbn [App.bind rendered react].
    destruct (stagedFiles (state p)) as [|f staged] eqn:Hst.
    { intros [= <-]. constructor; cbn; try done. }
    cbn. intros [= <-]. constructor; cbn; try done.
    + replace (S (uuids p))
        with (uuids p + length [mkSubmission (uuids p) (f :: staged) pending None None])
        by (cbn; lia).
      apply queue_ok_app_fresh; [done.. | by repeat constructor | done].
    + eapply Forall_impl; [exact Htasks|]. intros t. apply task_ok_mono. lia.
  - (* RemoveSubmission *)
    intros [= <-]. constructor; cbn; try done. by apply queue_ok_filter.
  - intros [= <-]. constructor; cbn; done.
  - (* SaveEditing *)
    cbn [App.bind rendered react]. unfold ResultsTable.saveEditing.
    destruct (list_find _ _) as [[i sub]|] eqn:Hfind.
    2:{ intros [= <-]. constructor; cbn; done. }
    destruct (result sub) as [r|] eqn:Hres.
    2:{ intros [= <-]. constructor; cbn; done. }
    intros [= <-]. constructor; cbn; try done.
    eapply queue_ok_edit; [done.. | exact Hfind | by rewrite Hres].
  - (* NewGrading *)
    apply andb_true_iff in Hen as [Hstep%is_step_eq _].
    intros [= <-]. constructor; cbn; try done.
    + intros _. apply Href. by rewrite Hstep.
    + apply queue_ok_nil.
Qed.

Lemma step_invariant h p p' : invariant p -> step h p = Some p' -> invariant p'.
Proof.
  intros Hinv. destruct h as [a| |written|k].
  - cbn [step]. destruct (Ui.enabled a (state p)) eqn:Hen; [|done].
    by apply click_invariant.
  - cbn [step]. destruct (export_enabled (state p)); [|done].
    intros [= <-]. by apply showToast_invariant, toast_relaxed.
  - cbn [step]. destruct (export_enabled (state p)); [|done].
    intros [= <-].
    destruct Hinv as [Hpages Href Hstaged Hgrading Hproc Htoast Hqueue Htasks].
    constructor; cbn; try done.
    + intros Hg. apply Exists_app. left. by apply Hgrading.
    + intros Hg. apply Exists_app. left. by apply Hproc.
    + intros Hg. apply elem_of_app. left. by apply Htoast.
    + apply Forall_app. split; [done|]. by apply Forall_singleton.
  - by apply resume_invariant.
Qed.

Lemma reachable_invariant p : Live.reachable p -> invariant p.
Proof.
  induction 1 as [|h p p' _ IH Hstep].
  - constructor; cbn; try done.
    + apply queue_ok_nil.
  - by eapply step_invariant.
Qed.

End LivePage.

(** ** A run that nothing interrupts, answer by answer *)

Section LiveRun.
Import App Live.

Variables (grader : Grader) (ref : File) (m : GradingModel).
Variable queue : list StudentSubmission.
Variable p : Page.

Lemma react_after_app evs1 evs2 w :
  react (after (evs1 ++ evs2) w)
  = foldl (fun s e => apply e s) (react (after evs1 w)) evs2.
Proof. unfold after. cbn. by rewrite foldl_app. Qed.

Lemma toast_timers_snoc l s :
  toast_timers grader ref m (l ++ [s])
  = toast_timers grader ref m l
      ++ (if flagged grader ref m (length l) s then [ToastTimer] else []).
Proof.
  unfold toast_timers. rewrite imap_app, concat_app. cbn.
  by rewrite app_nil_r, Nat.add_0_r.
Qed.

Lemma delete_snoc {A} (l : list A) x : delete (length l) (l ++ [x]) = l.
Proof. induction l as [|y l IH]; [done|]. cbn. f_equal. exact IH. Qed.

Lemma snapshot_processing_lookup j s :
  queue !! j = Some s ->
  snapshot_processing grader ref m queue j s !! j = Some (with_status processing s).
Proof.
  intros Hs. rewrite <- (insert_processing _ _ _ _ _ _ Hs).
  apply list_lookup_insert_eq. rewrite length_snapshot_settled.
  by eapply lookup_lt_Some.
Qed.

Lemma records_snoc j s :
  queue !! j = Some s ->
  concat (imap (record_events grader ref m queue) (take (S j) queue))
  = concat (imap (record_events grader ref m queue) (take j queue))
      ++ record_events grader ref m queue j s.
Proof.
  intros Hs. pose proof (lookup_lt_Some _ _ _ Hs) as Hj.
  rewrite (take_S_r _ _ _ Hs), imap_app, concat_app. cbn.
  rewrite app_nil_r, length_take. by replace (j `min` length queue + 0) with j by lia.
Qed.

Lemma events_before_next j s s' :
  queue !! j = Some s ->
  events_before grader ref m queue (S j) s'
  = events_before grader ref m queue j s
      ++ CallGradeSubmission ref (files s) m
      :: ocr_toast (grader j ref (files s) m)
      ++ [SetSubmissions (snapshot_settled grader ref m queue (S j));
          SetSubmissions (snapshot_processing grader ref m queue (S j) s')].
Proof.
  intros Hs. unfold events_before. rewrite (records_snoc _ _ Hs).
  unfold record_events.
  set (before := concat _). set (toast := ocr_toast _).
  rewrite <- !app_assoc. by cbn.
Qed.

Lemma run_events_last j s :
  queue !! j = Some s -> queue !! S j = None ->
  run_events grader ref m queue
  = events_before grader ref m queue j s
      ++ CallGradeSubmission ref (files s) m
      :: ocr_toast (grader j ref (files s) m)
      ++ [SetSubmissions (snapshot_settled grader ref m queue (S j));
          SetIsGrading false].
Proof.
  intros Hs Hnone. pose proof (lookup_lt_Some _ _ _ Hs) as Hj.
  apply lookup_ge_None in Hnone.
  unfold run_events, events_before.
  rewrite <- (firstn_all queue) at 2. replace (length queue) with (S j) by lia.
  rewrite (records_snoc _ _ Hs). unfold record_events.
  set (before := concat _). set (toast := ocr_toast _).
  rewrite <- !app_assoc. by cbn.
Qed.

Lemma grading_loop_next j q :
  grading_loop grader ref m j (snapshot_settled grader ref m queue j) q
  = match queue !! j with
    | Some s =>
        enqueue (GradingRun grader ref m
                   (snapshot_processing grader ref m queue j s) j)
          (update (SetSubmissions (snapshot_processing grader ref m queue j s)) q)
    | None => update (SetIsGrading false) q
    end.
Proof.
  unfold grading_loop. destruct (queue !! j) as [s|] eqn:Hs.
  - by rewrite (snapshot_settled_lookup _ _ _ _ _ _ Hs),
      (insert_processing _ _ _ _ _ _ Hs).
  - apply lookup_ge_None in Hs. by rewrite snapshot_settled_lookup_None.
Qed.

Lemma answer_arrives j s :
  queue !! j = Some s ->
  resume_last (awaiting grader ref m queue p j s)
  = Some (match queue !! S j with
          | Some s' => awaiting grader ref m queue p (S j) s'
          | None => run_over grader ref m queue p
          end).
Proof.
  intros Hs. pose proof (lookup_lt_Some _ _ _ Hs) as Hj.
  unfold resume_last, awaiting. cbn [tasks step state uuids].
  rewrite !length_app. cbn [length].
  replace (length (tasks p) + (length (toast_timers grader ref m (take j queue)) + 1) - 1)
    with (length (tasks p ++ toast_timers grader ref m (take j queue)) + 0)
    by (rewrite length_app; lia).
  rewrite app_assoc, lookup_app_r, Nat.add_0_r, Nat.sub_diag by lia.
  cbn [lookup list_lookup resume]. rewrite delete_snoc. f_equal.
  unfold gradeSubmission_answered.
  rewrite (snapshot_processing_lookup _ _ Hs). cbn [files with_status].
  assert (toast_timers grader ref m (take (S j) queue)
          = toast_timers grader ref m (take j queue)
              ++ (if flagged grader ref m j s then [ToastTimer] else [])) as Htimers.
  { rewrite (take_S_r _ _ _ Hs), toast_timers_snoc, length_take.
    by replace (j `min` length queue) with j by lia. }
  assert (forall x, x = graded grader ref m j s ->
            <[j := x]> (snapshot_processing grader ref m queue j s)
            = snapshot_settled grader ref m queue (S j)) as Hsettled.
  { intros x Hx. by apply insert_settled. }
  unfold flagged in Htimers.
  destruct (grader j ref (files s) m) as [result|e] eqn:Hg.
  - rewrite Hsettled by (unfold graded, settle; by rewrite Hg).
    rewrite grading_loop_next.
    destruct (queue !! S j) as [s'|] eqn:Hnext.
    + unfold awaiting. rewrite (events_before_next _ _ s' Hs), react_after_app.
      rewrite Htimers, Hg. cbn [ocr_toast].
      set (shown := react (after (events_before grader ref m queue j s) _)).
      unfold showToast, enqueue, update.
      case_bool_decide; cbn [state uuids tasks foldl app];
        f_equal; by rewrite <- ?app_assoc, ?app_nil_r.
    + unfold run_over. rewrite (run_events_last _ _ Hs Hnext), react_after_app.
      apply lookup_ge_None in Hnext.
      rewrite take_ge in Htimers by lia.
      rewrite Htimers, Hg. cbn [ocr_toast].
      set (shown := react (after (events_before grader ref m queue j s) _)).
      unfold showToast, enqueue, update.
      case_bool_decide; cbn [state uuids tasks foldl app];
        f_equal; by rewrite <- ?app_assoc, ?app_nil_r.
  - rewrite Hsettled by (unfold graded, settle; by rewrite Hg).
    rewrite grading_loop_next.
    destruct (queue !! S j) as [s'|] eqn:Hnext.
    + unfold awaiting. rewrite (events_before_next _ _ s' Hs), react_after_app.
      rewrite Htimers, Hg. cbn [ocr_toast].
      set (shown := react (after (events_before grader ref m queue j s) _)).
      unfold enqueue, update. cbn [state uuids tasks foldl app].
      f_equal. by rewrite <- ?app_assoc, ?app_nil_r.
    + unfold run_over. rewrite (run_events_last _ _ Hs Hnext), react_after_app.
      apply lookup_ge_None in Hnext.
      rewrite take_ge in Htimers by lia.
      rewrite Htimers, Hg. cbn [ocr_toast].
      set (shown := react (after (events_before grader ref m queue j s) _)).
      unfold enqueue, update. cbn [state uuids tasks foldl app].
      f_equal. by rewrite <- ?app_assoc, ?app_nil_r.
Qed.

Lemma run_alone j s :
  queue !! j = Some s ->
  resume_last_times (length queue - j) (awaiting grader ref m queue p j s)
  = Some (run_over grader ref m queue p).
Proof.
  remember (length queue - j) as n eqn:Hn. revert j s Hn.
  induction n as [|n IH]; intros j s Hn Hs;
    pose proof (lookup_lt_Some _ _ _ Hs) as Hj; [lia|].
  cbn [resume_last_times]. rewrite (answer_arrives _ _ Hs).
  destruct (queue !! S j) as [s'|] eqn:Hnext.
  - apply IH; [lia | done].
  - apply lookup_ge_None in Hnext. by replace n with 0 by lia.
Qed.

Lemma startGrading_awaiting first :
  referenceFile (state p) = Some ref ->
  model (state p) = m ->
  submissions (state p) = queue ->
  queue !! 0 = Some first ->
  startGrading grader p = awaiting grader ref m queue p 0 first.
Proof.
  intros Href Hm Hq Hfirst. unfold startGrading. rewrite Href, Hm, Hq.
  destruct queue as [|s0 rest] eqn:Hqueue; [done|]. rewrite <- Hqueue in *.
  rewrite <- (snapshot_settled_0 grader ref m queue) at 1.
  rewrite grading_loop_next, Hfirst.
  unfold awaiting, events_before, toast_timers. by rewrite take_0.
Qed.

End LiveRun.

(** ** What holds on the live page *)

Section LiveClaims.
Import App Live.

Lemma reachable_page_after script :
  is_Some (happen_all script Live.initial) -> Live.reachable (page_after script).
Proof.
  unfold page_after. intros [p Hp]. rewrite Hp. cbn.
  eapply reachable_happen_all; [apply reachable_initial | exact Hp].
Qed.

(** X5: on the live page, whatever the user does and in whatever order the
    pending calls answer and the timers fire, the page count per student is
    at least one, a reference file is present whenever the step is not the
    first, and nothing is staged in bulk mode; while [isGrading] is up a
    grading run waits for an answer, and while [isProcessingPdf] is up a
    conversion does; a waiting conversion holds a page count of at least
    one, so that once answered it runs to its end. *)
Theorem live_page_invariant p :
  Live.reachable p ->
  1 <= pagesPerStudent (state p)
  /\ (currentStep (state p) <> SETUP -> is_Some (referenceFile (state p)))
  /\ (isBulkMode (state p) = true -> stagedFiles (state p) = [])
  /\ (isGrading (state p) = true -> Exists is_run (tasks p))
  /\ (isProcessingPdf (state p) = true -> Exists is_conversion (tasks p))
  /\ (forall k getDocument file pps,
        tasks p !! k = Some (PdfConversion getDocument file pps) ->
        1 <= pps /\ is_Some (step (Resume k) p)).
Proof.
  intros [Hpages Href Hstaged Hgrading Hproc _ _ Htasks]%reachable_invariant.
  split_and!; try done.
  intros k getDocument file pps Hk.
  assert (1 <= pps) as Hpps.
  { rewrite Forall_forall in Htasks.
    apply (Htasks (PdfConversion getDocument file pps)).
    by eapply list_elem_of_lookup_2. }
  split; [done|]. cbn [step]. rewrite Hk. cbn [resume].
  unfold convertPdfToImages_answered.
  destruct (Pdf.convertPdfToImages getDocument file) as [images|e]; [|done].
  cbn [state uuids].
  destruct (split_students_returns images pps []
              (mkWorld (state p) (uuids p) []) Hpps) as (recs & -> & _).
  done.
Qed.

Lemma live_page_invariant_witness :
  isGrading (state first_call_pending) = true
  /\ Exists is_run (tasks first_call_pending).
Proof.
  assert (Live.reachable first_call_pending) as Hp.
  { apply reachable_page_after. vm_compute. eexists. reflexivity. }
  destruct (live_page_invariant first_call_pending Hp)
    as (_ & _ & _ & Hgrading & _).
  assert (isGrading (state first_call_pending) = true) as Hflag
    by (vm_compute; reflexivity).
  split; [exact Hflag | exact (Hgrading Hflag)].
Defined.

(** The flag can be down while a run waits: of two runs under way at once,
    the first to end lowers it. *)
Example run_outlives_flag :
  Live.reachable first_of_two_runs_over
  /\ isGrading (state first_of_two_runs_over) = false
  /\ currentStep (state first_of_two_runs_over) = GRADING
  /\ exists grader ref m subs,
       tasks first_of_two_runs_over = [GradingRun grader ref m subs 0].
Proof.
  split; [apply reachable_page_after; vm_compute; eexists; reflexivity|].
  split; [vm_compute; reflexivity|]. split; [vm_compute; reflexivity|].
  vm_compute. by repeat eexists.
Qed.

(** X7: the toast and its timer.  On the live page a toast on screen always
    has a timer waiting.  A timer that fires takes the toast down, whichever
    message is up and whichever call of [showToast] started the timer.  The
    answer to a grading call that comes with the OCR flag up puts the OCR
    warning on screen and starts one more timer. *)
Theorem toast_has_timer p :
  Live.reachable p ->
  (is_Some (toastMessage (state p)) -> ToastTimer ∈ tasks p)
  /\ (forall k,
        tasks p !! k = Some ToastTimer ->
        step (Resume k) p
        = Some (mkPage (apply (SetToastMessage None) (state p)) (uuids p)
                  (delete k (tasks p))))
  /\ (forall k grader ref m subs i cur result,
        tasks p !! k = Some (GradingRun grader ref m subs i) ->
        subs !! i = Some cur ->
        grader i ref (files cur) m = Returned result ->
        hasOCRIssues result = Some true ->
        exists p' rest,
          step (Resume k) p = Some p'
          /\ toastMessage (state p') = Some ToastOCRIssues
          /\ tasks p' = delete k (tasks p) ++ ToastTimer :: rest).
Proof.
  intros [_ _ _ _ _ Htoast _ _]%reachable_invariant.
  split; [done|]. split.
  - intros k Hk. cbn [step]. by rewrite Hk.
  - intros k grader ref m subs i cur result Hk Hcur Hanswer Hflag.
    cbn [step]. rewrite Hk. cbn [resume].
    unfold gradeSubmission_answered. rewrite Hcur, Hanswer.
    rewrite bool_decide_eq_true_2 by done.
    unfold grading_loop.
    destruct (_ !! S i) as [next|]; eexists.
    + exists [GradingRun grader ref m
                (<[S i := with_status processing next]>
                   (<[i := with_result result (with_status completed cur)]> subs))
                (S i)].
      split; [reflexivity|]. split; [done|]. cbn. by rewrite <- app_assoc.
    + exists []. split; [reflexivity|]. by split.
Qed.

Lemma toast_has_timer_witness :
  toastMessage (state two_toasts) = Some (ToastPdfDone 2)
  /\ tasks two_toasts = [ToastTimer; ToastTimer]
  /\ ToastTimer ∈ tasks two_toasts.
Proof.
  assert (Live.reachable two_toasts) as Hp.
  { apply reachable_page_after. vm_compute. eexists. reflexivity. }
  destruct (toast_has_timer two_toasts Hp) as (Htimer & _).
  assert (toastMessage (state two_toasts) = Some (ToastPdfDone 2)) as Htoast
    by (vm_compute; reflexivity).
  split; [exact Htoast|]. split; [vm_compute; reflexivity|].
  apply Htimer. rewrite Htoast. by eexists.
Defined.

(** The timer of the refused upload, started first, fires first: it takes
    down the toast of the finished conversion, whose own timer still
    waits. *)
Example toast_cleared_by_older_timer :
  exists p',
    step (Resume 0) two_toasts = Some p'
    /\ toastMessage (state p') = None
    /\ tasks p' = [ToastTimer].
Proof. eexists. split; [vm_compute; reflexivity|]. by split. Qed.

Lemma queue_cut_result (queue : list StudentSubmission) id0 :
  NoDup (id <$> queue) ->
  id0 ∈ id <$> filter (fun sub => is_Some (result sub)) queue ->
  exists before sub r behind,
    queue = before ++ sub :: behind /\ id sub = id0 /\ result sub = Some r
    /\ Forall (fun s => id s <> id0) before
    /\ Forall (fun s => id s <> id0) behind.
Proof.
  intros Hnodup (sub0 & Hid0 & [Hres0 Hin]%list_elem_of_filter)%list_elem_of_fmap.
  assert (id0 ∈ id <$> queue) as Hin'.
  { rewrite Hid0. by apply list_elem_of_fmap_2. }
  destruct (queue_cut _ id0 Hnodup Hin')
    as (before & sub & behind & Hq & Hid & Hbefore & Hbehind).
  assert (sub0 = sub) as ->.
  { rewrite Hq in Hin. apply elem_of_app in Hin as [Hin|Hin].
    - rewrite Forall_forall in Hbefore. by destruct (Hbefore _ Hin).
    - apply elem_of_cons in Hin as [->|Hin]; [done|].
      rewrite Forall_forall in Hbehind. by destruct (Hbehind _ Hin). }
  destruct Hres0 as [r Hres]. exists before, sub, r, behind. by split_and!.
Qed.

(** A run that goes on publishes its own copy of the queue: what the
    screen showed as the queue before makes no difference. *)
Lemma run_overwrites_queue p shown k grader ref m subs i :
  invariant p ->
  tasks p !! k = Some (GradingRun grader ref m subs i) ->
  step (Resume k) (update (SetSubmissions shown) p) = step (Resume k) p.
Proof.
  intros [_ _ _ _ _ _ _ Htasks] Hk.
  assert (task_ok (uuids p) (GradingRun grader ref m subs i)) as [_ Hi].
  { rewrite Forall_forall in Htasks. apply Htasks.
    by eapply list_elem_of_lookup_2. }
  cbn [step update tasks state uuids]. rewrite Hk. cbn [resume].
  f_equal. unfold gradeSubmission_answered.
  destruct (subs !! i) as [cur|] eqn:Hcur.
  2:{ apply lookup_ge_None in Hcur. lia. }
  destruct (grader i ref (files cur) m) as [result|e];
    unfold grading_loop; [case_bool_decide|]; by destruct (_ !! S i).
Qed.

(** X8: the start button on the live page.  Whenever it can be pressed a
    reference file is present, so the guard of [startGrading] lets the run
    start: the flag goes up, the step becomes the results step, the toast
    goes down, the first record is marked and the run waits for its first
    answer, holding its own copy of the queue.  If then its answers are
    what happens next, one after the other, the page ends in the state
    [startGrading] run in one piece computes, every record graded, the
    flag down, with one timer more for each flagged answer. *)
Theorem start_button_starts_run grader p :
  Live.reachable p ->
  Ui.enabled (Ui.StartGrading grader) (state p) = true ->
  exists ref first rest started w',
    referenceFile (state p) = Some ref
    /\ submissions (state p) = first :: rest
    /\ step (Click (Ui.StartGrading grader)) p = Some started
    /\ state started
       = mkState GRADING (Some ref) (with_status processing first :: rest)
           (model (state p)) true None (isProcessingPdf (state p))
           (stagedFiles (state p)) (isBulkMode (state p))
           (pagesPerStudent (state p)) (showDevSettings (state p))
    /\ uuids started = uuids p
    /\ tasks started
       = tasks p ++ [GradingRun grader ref (model (state p))
                       (with_status processing first :: rest) 0]
    /\ App.startGrading grader (mkWorld (state p) (uuids p) []) = Some (tt, w')
    /\ resume_last_times (length (first :: rest)) started
       = Some (mkPage (react w') (uuids p)
                 (tasks p ++ toast_timers grader ref (model (state p)) (first :: rest)))
    /\ submissions (react w')
       = imap (graded grader ref (model (state p))) (first :: rest)
    /\ isGrading (react w') = false.
Proof.
  intros Hinv%reachable_invariant Hen. pose proof Hen as Hen'.
  cbn [Ui.enabled] in Hen.
  apply andb_true_iff in Hen as [Hstep%is_step_eq Hne%bool_decide_eq_true].
  destruct (reference_present p Hinv) as [ref Href]; [by rewrite Hstep|].
  destruct (submissions (state p)) as [|first rest] eqn:Hq; [done|].
  set (m := model (state p)). set (queue := first :: rest) in *.
  pose proof (startGrading_awaiting grader ref m queue p first Href eq_refl Hq eq_refl)
    as Hstart.
  pose proof (startGrading_runs grader ref m queue (mkWorld (state p) (uuids p) [])
                Href eq_refl Hq ltac:(done)) as Hrun.
  pose proof (run_alone grader ref m queue p 0 first eq_refl) as Halone.
  rewrite Nat.sub_0_r in Halone.
  exists ref, first, rest, (awaiting grader ref m queue p 0 first),
    (after (run_events grader ref m queue) (mkWorld (state p) (uuids p) [])).
  split_and!; try done.
  - cbn [step]. rewrite Hen'. cbn [click]. f_equal. exact Hstart.
  - unfold awaiting, events_before. subst queue. cbn. by rewrite Href, drop_0.
  - pose proof (startGrading_final grader (mkWorld (state p) (uuids p) []) ref
                  Href ltac:(cbn; by rewrite Hq)) as (w' & Hrun' & _ & Hsubs).
    rewrite Hrun in Hrun'. injection Hrun' as <-. cbn [react] in Hsubs.
    by rewrite Hq in Hsubs.
  - by destruct (react_after_run grader ref m queue (mkWorld (state p) (uuids p) []))
      as (_ & _ & _ & ? & _).
Qed.

Lemma start_button_starts_run_witness :
  exists finished,
    happen_all [Click (Ui.StartGrading all_pass); Resume 0; Resume 0] two_queued
    = Some finished
    /\ status <$> submissions (state finished) = [completed; completed]
    /\ isGrading (state finished) = false
    /\ tasks finished = [].
Proof.
  assert (Live.reachable two_queued) as Hp.
  { apply reachable_page_after. vm_compute. eexists. reflexivity. }
  assert (Ui.enabled (Ui.StartGrading all_pass) (state two_queued) = true) as Hen
    by (vm_compute; reflexivity).
  destruct (start_button_starts_run all_pass two_queued Hp Hen)
    as (ref & first & rest & started & w' & _ & _ & Hclick & _ & _ & _ & Hrun & _).
  eexists. split; [vm_compute; reflexivity|].
  split; [vm_compute; reflexivity|]. split; vm_compute; reflexivity.
Defined.

(** X12: the trash button on the live page.  The identifiers of the queue
    on screen are pairwise distinct, so the button of a record takes that
    record out of the queue and changes nothing else.  While a grading run
    waits for an answer the removal does not last: with its next answer
    the run publishes its own copy of the queue, and the page is then what
    it would have been had the button not been pressed. *)
Theorem remove_button_removes_one id0 p :
  Live.reachable p ->
  Ui.enabled (Ui.RemoveSubmission id0) (state p) = true ->
  NoDup (id <$> submissions (state p))
  /\ exists before sub behind,
       submissions (state p) = before ++ sub :: behind
       /\ id sub = id0
       /\ step (Click (Ui.RemoveSubmission id0)) p
          = Some (update (SetSubmissions (before ++ behind)) p)
       /\ forall k grader ref m subs i,
            tasks p !! k = Some (GradingRun grader ref m subs i) ->
            step (Resume k) (update (SetSubmissions (before ++ behind)) p)
            = step (Resume k) p.
Proof.
  intros Hinv%reachable_invariant Hen.
  destruct (queue_in_order p Hinv) as (Hnodup & _). split; [done|].
  pose proof Hen as Hen'. cbn [Ui.enabled] in Hen'.
  apply andb_true_iff in Hen' as [_ Hin%bool_decide_eq_true].
  destruct (queue_cut _ id0 Hnodup Hin)
    as (before & sub & behind & Hq & Hid & Hbefore & Hbehind).
  exists before, sub, behind. split_and!; try done.
  - cbn [step]. rewrite Hen. unfold click, run_handler, update. cbn. do 3 f_equal.
    rewrite Hq, filter_app, filter_cons_False by naive_solver.
    by rewrite !filter_keeps_all.
  - intros k grader ref m subs i Hk. by eapply run_overwrites_queue.
Qed.

Lemma remove_button_removes_one_witness :
  exists removed resumed,
    step (Click (Ui.RemoveSubmission 1)) back_at_upload = Some removed
    /\ id <$> submissions (state removed) = [0]
    /\ step (Resume 0) removed = Some resumed
    /\ id <$> submissions (state resumed) = [0; 1].
Proof.
  assert (Live.reachable back_at_upload) as Hp.
  { apply reachable_page_after. vm_compute. eexists. reflexivity. }
  assert (Ui.enabled (Ui.RemoveSubmission 1) (state back_at_upload) = true) as Hen
    by (vm_compute; reflexivity).
  destruct (remove_button_removes_one 1 back_at_upload Hp Hen)
    as (_ & before & sub & behind & _ & _ & Hclick & _).
  assert (before ++ behind = [mkSubmission 0 [page 1] processing None None]) as Heq.
  { pose proof Hclick as Hc. vm_compute in Hc. injection Hc as Hc.
    symmetry. exact Hc. }
  rewrite Heq in Hclick.
  eexists. eexists. split; [exact Hclick|].
  split_and!; vm_compute; reflexivity.
Defined.

(** X13: saving an edit on the live page.  The edit replaces the name and
    the class in the result of that record and changes nothing else, the
    warning flag included.  While a grading run waits for an answer the
    edit does not last: with its next answer the run publishes its own
    copy of the queue, and the page is then what it would have been had
    the edit not been saved. *)
Theorem save_editing_renames id0 editName editClass p :
  Live.reachable p ->
  Ui.enabled (Ui.SaveEditing id0 editName editClass) (state p) = true ->
  exists before sub r behind,
    let edited :=
      before
        ++ mkSubmission id0 (files sub) (status sub)
             (Some (mkGradingResult editName (Some editClass) (scores r)
                      (total_score r) (feedback r) (hasOCRIssues r)))
             (errorMsg sub)
        :: behind in
    submissions (state p) = before ++ sub :: behind
    /\ id sub = id0
    /\ result sub = Some r
    /\ step (Click (Ui.SaveEditing id0 editName editClass)) p
       = Some (update (SetSubmissions edited) p)
    /\ forall k grader ref m subs i,
         tasks p !! k = Some (GradingRun grader ref m subs i) ->
         step (Resume k) (update (SetSubmissions edited) p) = step (Resume k) p.
Proof.
  intros Hinv%reachable_invariant Hen.
  destruct (queue_in_order p Hinv) as (Hnodup & _).
  pose proof Hen as Hen'. cbn [Ui.enabled] in Hen'.
  apply andb_true_iff in Hen' as [_ Hin%bool_decide_eq_true].
  destruct (queue_cut_result _ id0 Hnodup Hin)
    as (before & sub & r & behind & Hq & Hid & Hres & Hbefore & Hbehind).
  assert (list_find (fun s => id s = id0) (submissions (state p))
          = Some (length before, sub)) as Hfind.
  { apply list_find_Some. rewrite Hq. split_and!.
    - by rewrite list_lookup_middle.
    - done.
    - intros j y Hy Hj. rewrite lookup_app_l in Hy by done.
      rewrite Forall_forall in Hbefore. apply Hbefore.
      by eapply list_elem_of_lookup_2. }
  exists before, sub, r, behind. cbn zeta. split_and!; try done.
  - cbn [step]. rewrite Hen. cbn [click]. unfold run_handler.
    cbn [Ui.handler App.bind rendered react].
    unfold ResultsTable.saveEditing. rewrite Hfind, Hres.
    unfold update. cbn. do 3 f_equal.
    rewrite Hq, fmap_app, fmap_cons.
    rewrite decide_True by done. f_equal; [|f_equal].
    + clear -Hbefore. induction Hbefore as [|s l Hs _ IH]; [done|].
      cbn. by rewrite decide_False, IH.
    + unfold with_result. by rewrite Hid.
    + clear -Hbehind. induction Hbehind as [|s l Hs _ IH]; [done|].
      cbn. by rewrite decide_False, IH.
  - intros k grader ref m subs i Hk. by eapply run_overwrites_queue.
Qed.

Lemma save_editing_renames_witness :
  exists saved resumed,
    step (Click (Ui.SaveEditing 0 (js "Park") (js "2-1"))) second_call_pending
    = Some saved
    /\ (fun s => student_name <$> result s) <$> submissions (state saved)
       = [Some (js "Park"); None]
    /\ step (Resume 0) saved = Some resumed
    /\ (fun s => student_name <$> result s) <$> submissions (state resumed)
       = [Some (js "Kim"); Some (js "Kim")].
Proof.
  assert (Live.reachable second_call_pending) as Hp.
  { apply reachable_page_after. vm_compute. eexists. reflexivity. }
  assert (Ui.enabled (Ui.SaveEditing 0 (js "Park") (js "2-1"))
            (state second_call_pending) = true) as Hen
    by (vm_compute; reflexivity).
  destruct (save_editing_renames 0 (js "Park") (js "2-1") second_call_pending Hp Hen)
    as (before & sub & r & behind & _ & _ & _ & Hclick & _).
  match type of Hclick with
  | _ = Some (update (SetSubmissions ?edited) _) =>
      assert (edited
              = [mkSubmission 0 [page 1] completed
                   (Some (mkGradingResult (js "Park") (Some (js "2-1"))
                            (scores (sample_result 10%Z)) 10%Z (js "good")
                            (Some false)))
                   None;
                 mkSubmission 1 [page 2] processing None None]) as Heq
  end.
  { pose proof Hclick as Hc. vm_compute in Hc. injection Hc as Hc.
    symmetry. exact Hc. }
  rewrite Heq in Hclick.
  eexists. eexists. split; [exact Hclick|].
  split_and!; vm_compute; reflexivity.
Defined.

End LiveClaims.
